(** * obsidian-auto-furigana: the annotation engine, embedded and verified

    A shallow embedding of the Live Preview decoration builder
    (src/furiganaLivePreviewMode.ts), the Reading Mode traversal
    (furiganaReadingMode.ts) and the per-document skip option
    (src/skipOption.ts), with the properties the specification states
    about them; and of the dictionary installer
    (src/kuromojiDictInstaller.ts), the script that makes its manifest
    (src/scripts/make-dict-manifest.mjs) and the tokenizer initializer
    (src/kuromojiInit.ts), with properties of their own.

    Conventions of the embedding.
    - A JavaScript string is the list of its UTF-16 code units, each a [Z];
      keys, paths, URLs and digests are [string]s.
    - Offsets into a document are [Z] (a caret buffer may start below 0);
      indices into one line are [nat].
    - A JavaScript exception is the [Throw] outcome of the [result] monad;
      a loop that is modelled with fuel reports [OutOfFuel] when the fuel
      is used up, and is proved never to do so.
    - The modules regex.ts and furiganaUtils.ts are not part of the sources
      at hand: the functions they export are parameters of the code that
      calls them, and are modelled from the specification where a concrete
      instance is needed. *)

From Stdlib Require Import ZArith Lia Bool String Ascii.
From stdpp Require Import base numbers option list strings gmap sorting pretty.

Local Open Scope Z_scope.

(** ** JavaScript strings and outcomes *)

Abbreviation jsstring := (list Z).

Inductive result (A : Type) : Type :=
| Ok (a : A)
| Throw
| OutOfFuel.
Arguments Ok {A} a.
Arguments Throw {A}.
Arguments OutOfFuel {A}.

#[global] Instance result_ret : MRet result := fun A a => Ok a.

#[global] Instance result_bind : MBind result := fun A B k r =>
  match r with
  | Ok a => k a
  | Throw => Throw
  | OutOfFuel => OutOfFuel
  end.

(** Code units the scanners name. *)
Definition BACKTICK : Z := 96.
Definition TILDE : Z := 126.
Definition PIPE : Z := 124.
Definition NEWLINE : Z := 10.

Definition inRange (lo hi c : Z) : bool := (lo <=? c) && (c <=? hi).

(** [\s] of a JavaScript regular expression, which is also the white space
    [String.prototype.trimStart] removes: WhiteSpace and LineTerminator. *)
Definition isSpace (c : Z) : bool :=
  inRange 9 13 c || (c =? 32) || (c =? 160) || (c =? 5760)
  || inRange 8192 8202 c || (c =? 8232) || (c =? 8233) || (c =? 8239)
  || (c =? 8287) || (c =? 12288) || (c =? 65279).

(** [AUTO_QUICK]: the character class U+3040-30FF, U+31F0-31FF, U+3400-4DBF,
    U+4E00-9FFF, tested for presence anywhere in the string. *)
Definition isJapanese (c : Z) : bool :=
  inRange 12352 12543 c || inRange 12784 12799 c
  || inRange 13312 19903 c || inRange 19968 40959 c.

Definition AUTO_QUICK (s : jsstring) : bool := existsb isJapanese s.

(** ** The DOM

    A node is a text node, an element with its lower-cased tag name and its
    children, or a node of another type (a comment). A node inside a tree
    is named by its path, the child indices from the root down. *)

Module Dom.

#[warnings="-register-all"]
Inductive Node : Type :=
| TextNode (nodeValue : jsstring)
| Element (tagName : string) (childNodes : list Node)
| OtherNode.

(** [node.textContent] *)
Fixpoint textContent (n : Node) : jsstring :=
  match n with
  | TextNode v => v
  | Element _ children => concat (map textContent children)
  | OtherNode => []
  end.

(** The text that is left when every reading node ([rt]) is removed. *)
Fixpoint stripReadings (n : Node) : jsstring :=
  match n with
  | TextNode v => v
  | Element tag children =>
      if String.eqb tag "rt" then [] else concat (map stripReadings children)
  | OtherNode => []
  end.

(** The node at a path, and the tags of the elements passed on the way
    down to it (the root's first, the node's own left out). *)
Fixpoint nodeAt (n : Node) (path : list nat) : option Node :=
  match path with
  | [] => Some n
  | i :: rest =>
      match n with
      | Element _ children =>
          match children !! i with
          | Some c => nodeAt c rest
          | None => None
          end
      | _ => None
      end
  end.

Fixpoint tagsAlong (n : Node) (path : list nat) : list string :=
  match path with
  | [] => []
  | i :: rest =>
      match n with
      | Element tag children =>
          tag :: match children !! i with
                 | Some c => tagsAlong c rest
                 | None => []
                 end
      | _ => []
      end
  end.

(** No [ruby] element anywhere in the subtree. *)
Fixpoint rubyFree (n : Node) : bool :=
  match n with
  | Element tag children => negb (String.eqb tag "ruby") && forallb rubyFree children
  | _ => true
  end.

(** No [ruby] element inside a [ruby] element. *)
Fixpoint noNestedRuby (n : Node) : bool :=
  match n with
  | Element tag children =>
      if String.eqb tag "ruby" then forallb rubyFree children
      else forallb noNestedRuby children
  | _ => true
  end.

End Dom.

(** ** Live Preview helpers (src/furiganaLivePreviewMode.ts) *)

Module LivePreview.

(** [text.trimStart()] *)
Fixpoint trimStart (s : jsstring) : jsstring :=
  match s with
  | c :: rest => if isSpace c then trimStart rest else s
  | [] => []
  end.

Fixpoint dropRun (c : Z) (s : jsstring) : nat * jsstring :=
  match s with
  | x :: rest =>
      if x =? c then let '(n, r) := dropRun c rest in (S n, r) else (O, s)
  | [] => (O, [])
  end.

(** One alternative of [/^(```+|~~~+)(\s|$)/]: a run of at least three [c]
    at the start, then white space or the end of the string. The run is
    taken whole: a shorter prefix of it is followed by [c] itself, which is
    neither white space nor the end. *)
Definition fenceRun (c : Z) (t : jsstring) : bool :=
  let '(n, rest) := dropRun c t in
  (3 <=? n)%nat && match rest with [] => true | x :: _ => isSpace x end.

(** [lineTogglesFence]: the line opens or closes a fenced code block. *)
Definition lineTogglesFence (text : jsstring) : bool :=
  let t := trimStart text in
  fenceRun BACKTICK t || fenceRun TILDE t.

(** [s[i] === '`'] (false when [i] is past the end: [s[i]] is undefined). *)
Definition isTickAt (s : jsstring) (i : nat) : bool :=
  match s !! i with
  | Some c => c =? BACKTICK
  | None => false
  end.

(** [while (i + runLen < len && s[i + runLen] === '`') runLen++] *)
Fixpoint growRun (fuel : nat) (s : jsstring) (i runLen : nat) : result nat :=
  match fuel with
  | O => OutOfFuel
  | S fuel' =>
      if bool_decide (i + runLen < length s)%nat && isTickAt s (i + runLen)
      then growRun fuel' s i (S runLen)
      else Ok runLen
  end.

(** The inner [while (i < len)] of [inlineBacktickRanges] (lines 63-77):
    the search for a closing run of exactly [openerLen] backticks. The
    outcome is [closeStart] ([None] for -1) and the value of [i] after the
    loop. *)
Fixpoint findClose (fuel : nat) (s : jsstring) (openerLen i : nat)
  : result (option nat * nat) :=
  match fuel with
  | O => OutOfFuel
  | S fuel' =>
      if bool_decide (i < length s)%nat then
        if isTickAt s i then
          runLen ← growRun (S (length s)) s i 1;
          if bool_decide (runLen = openerLen)
          then Ok (Some i, (i + openerLen)%nat)
          else findClose fuel' s openerLen (i + runLen)%nat
        else findClose fuel' s openerLen (i + 1)%nat
      else Ok (None, i)
  end.

(** The outer [while (i < len)] of [inlineBacktickRanges] (lines 54-85). *)
Fixpoint scanTicks (fuel : nat) (s : jsstring) (i : nat)
    (ranges : list (nat * nat)) : result (list (nat * nat)) :=
  match fuel with
  | O => OutOfFuel
  | S fuel' =>
      if bool_decide (i < length s)%nat then
        if isTickAt s i then
          openerLen ← growRun (S (length s)) s i 1;
          let openerStart := i in
          '(closeStart, i') ← findClose (S (length s)) s openerLen (i + openerLen)%nat;
          match closeStart with
          | Some c => scanTicks fuel' s i' (ranges ++ [(openerStart, (c + openerLen)%nat)])
          | None => scanTicks fuel' s i' ranges
          end
        else scanTicks fuel' s (i + 1)%nat ranges
      else Ok ranges
  end.

(** [inlineBacktickRanges]: the [from, to) offsets, relative to the line
    start, of the inline code spans of one line. *)
Definition inlineBacktickRanges (lineText : jsstring) : result (list (nat * nat)) :=
  scanTicks (S (length lineText)) lineText 0 [].

(** [overlaps]: half-open interval overlap. *)
Definition overlaps (aFrom aTo bFrom bTo : Z) : bool :=
  (aFrom <? bTo) && (bFrom <? aTo).

(** [caretBuffer(pos, size = 1)] *)
Definition caretBuffer (pos size : Z) : Z * Z := (pos - size, pos + size).

(** *** The document (CodeMirror's [Text]) and the view

    A document is the list of its lines, none of which holds a line break;
    consecutive lines are one position (the break) apart. *)

Record Line := { from : Z; to : Z; number : nat; text : jsstring }.

Definition strlen (s : jsstring) : Z := Z.of_nat (length s).

(** Offset of the line that follows [lines]. *)
Fixpoint offsetAfter (lines : list jsstring) : Z :=
  match lines with
  | [] => 0
  | t :: rest => strlen t + 1 + offsetAfter rest
  end.

(** [doc.length] *)
Definition docLength (d : list jsstring) : Z := offsetAfter d - 1.

(** [doc.toString()] *)
Fixpoint docToString (d : list jsstring) : jsstring :=
  match d with
  | [] => []
  | [t] => t
  | t :: rest => t ++ NEWLINE :: docToString rest
  end.

(** [doc.line(n)], lines numbered from 1; a RangeError out of range. *)
Definition docLine (d : list jsstring) (n : nat) : result Line :=
  match n with
  | O => Throw
  | S k =>
      match d !! k with
      | Some t =>
          let f := offsetAfter (take k d) in
          Ok {| from := f; to := f + strlen t; number := n; text := t |}
      | None => Throw
      end
  end.

Fixpoint lineAtFrom (lines : list jsstring) (f : Z) (n : nat) (pos : Z)
  : result Line :=
  match lines with
  | [] => Throw
  | t :: rest =>
      if pos <=? f + strlen t
      then Ok {| from := f; to := f + strlen t; number := n; text := t |}
      else lineAtFrom rest (f + strlen t + 1) (S n) pos
  end.

(** [doc.lineAt(pos)]: the line around [pos]; a RangeError outside
    [0, doc.length]. *)
Definition lineAt (d : list jsstring) (pos : Z) : result Line :=
  if pos <? 0 then Throw else lineAtFrom d 0 1 pos.

Record SelectionRange := { anchor : Z; head : Z }.

Record EditorView := {
  doc : list jsstring;
  viewport : Z * Z;
  selection : list SelectionRange;
  composing : bool
}.

(** *** Regular expressions and decorations

    [text.matchAll(new RegExp(re.source, 'g'))] is the list of the matches
    in the order the iterator yields them, each with its [index] and its
    whole match [m[0]]. The two expressions come from regex.ts. *)

Inductive NotationStyle := curly | square | none.

Record RegExpMatch := { index : nat; m0 : jsstring }.

Definition Regex : Type := jsstring -> list RegExpMatch.

(** The range of one call [builder.add(absFrom, absTo, Decoration.replace({widget:
    new RubyWidget(m0), inclusive: false, block: false}))]. *)
Record Deco := { decoFrom : Z; decoTo : Z; widgetText : jsstring }.

(** *** The builder

    [RangeSetBuilder] is CodeMirror's, imported from @codemirror/state;
    [add], [addInner] and [finish] are embedded from the library's
    rangeset.ts, and the sides of the decoration from [Decoration.replace]
    of @codemirror/view. The builder keeps the ranges it has taken in
    layers: its own, and those of the chain of builders under
    [nextLayer]. A range that starts before the end of the last range of
    a layer goes on to the next layer; a range that starts before the
    start of that last range is refused with the error "Ranges must be
    added sorted by `from` position and `startSide`". A builder is the
    list of its layers, each the list of its ranges in the order they
    came. *)

(** [C.Far], the [lastFrom] and [lastTo] of a builder that holds nothing. *)
Definition FAR : Z := 1000000000.

(** The sides of a replacing decoration that is not inclusive:
    [Side.NonIncStart - 1] and [Side.NonIncEnd + 1]. *)
Definition START_SIDE : Z := 500000000 - 1.
Definition END_SIDE : Z := - 600000000 + 1.

(** [addInner(from, to, value)] on one layer: whether the range was put
    into this layer. With [last] still null the comparison of the sides
    reads a property of null. *)
Definition addInner (layer : list Deco) (d : Deco) : result bool :=
  match last layer with
  | Some l =>
      let diff := if decoFrom d - decoTo l =? 0 then START_SIDE - END_SIDE
                  else decoFrom d - decoTo l in
      let order := if decoFrom d - decoFrom l =? 0 then START_SIDE - START_SIDE
                   else decoFrom d - decoFrom l in
      if (diff <=? 0) && (order <? 0) then Throw
      else Ok (negb (diff <? 0))
  | None =>
      if decoFrom d - (- FAR) =? 0 then Throw
      else
        let diff := decoFrom d - (- FAR) in
        let order := decoFrom d - (- FAR) in
        if (diff <=? 0) && (order <? 0) then Throw
        else Ok (negb (diff <? 0))
  end.

(** [builder.add(from, to, value)]. A next layer is made when it is first
    needed; a builder that holds nothing never passes a range on. *)
Fixpoint builderAdd (layers : list (list Deco)) (d : Deco) : result (list (list Deco)) :=
  match layers with
  | [] =>
      match addInner [] d with
      | Ok true => Ok [[d]]
      | _ => Throw
      end
  | layer :: nextLayer =>
      inner ← addInner layer d;
      if inner : bool then Ok ((layer ++ [d]) :: nextLayer)
      else
        rest ← builderAdd nextLayer d;
        Ok (layer :: rest)
  end.

(** [new RangeSetBuilder()] *)
Definition newBuilder : list (list Deco) := [[]].

(** [builder.finish()]: the ranges of the set, layer by layer. *)
Definition finish (layers : list (list Deco)) : list Deco := concat layers.

(** [noDecor]: the zones around the selection endpoints. *)
Definition noDecorZones (view : EditorView) : list (Z * Z) :=
  flat_map
    (fun r : SelectionRange =>
       let '(a1, a2) := caretBuffer (anchor r) (if composing view then 2 else 1) in
       let '(h1, h2) := caretBuffer (head r) (if composing view then 2 else 1) in
       [(Z.min a1 a2, Z.max a1 a2); (Z.min h1 h2, Z.max h1 h2)])
    (selection view).

(** [hitsCode(fromRel, toRel)] *)
Definition hitsCode (codeSpans : list (nat * nat)) (fromRel toRel : Z) : bool :=
  existsb (fun '(a, b) => overlaps fromRel toRel (Z.of_nat a) (Z.of_nat b)) codeSpans.

(** [noDecor.some(([a, b]) => overlaps(absFrom, absTo, a, b))] *)
Definition hitsZone (noDecor : list (Z * Z)) (absFrom absTo : Z) : bool :=
  existsb (fun '(a, b) => overlaps absFrom absTo a b) noDecor.

(** The body of either [for (const m of text.matchAll(...))] loop (lines
    181-201 and 207-227, which are the same): every match that is not
    empty, hits no code span and hits no zone is added to the builder. *)
Fixpoint addMatches (lineFrom : Z) (codeSpans : list (nat * nat))
    (noDecor : list (Z * Z)) (ms : list RegExpMatch) (builder : list (list Deco))
  : result (list (list Deco)) :=
  match ms with
  | [] => Ok builder
  | m :: rest =>
      if bool_decide (m0 m = []) then addMatches lineFrom codeSpans noDecor rest builder
      else
        let relFrom := Z.of_nat (index m) in
        let relTo := relFrom + strlen (m0 m) in
        if hitsCode codeSpans relFrom relTo
        then addMatches lineFrom codeSpans noDecor rest builder
        else
          let absFrom := lineFrom + relFrom in
          let absTo := lineFrom + relTo in
          if hitsZone noDecor absFrom absTo
          then addMatches lineFrom codeSpans noDecor rest builder
          else
            builder ← builderAdd builder
                        {| decoFrom := absFrom; decoTo := absTo; widgetText := m0 m |};
            addMatches lineFrom codeSpans noDecor rest builder
  end.

(** The bootstrap loop (lines 143-148) over the lines before the first
    visible one. *)
Fixpoint bootstrapFence (lines : list jsstring) (insideFence : bool) : bool :=
  match lines with
  | [] => insideFence
  | t :: rest =>
      bootstrapFence rest (if lineTogglesFence t then negb insideFence else insideFence)
  end.

Section Build.

Variable getManualRegex : NotationStyle -> Regex.
Variable getAutoRegex : Regex.

(** What one visible line adds (lines 173-229), given the fence state
    after this line's own toggle. *)
Definition scanLine (noDecor : list (Z * Z)) (style : NotationStyle)
    (lineFrom : Z) (text : jsstring) (insideFence : bool) (builder : list (list Deco))
  : result (list (list Deco)) :=
  if negb insideFence && AUTO_QUICK text then
    codeSpans ← inlineBacktickRanges text;
    builder ← addMatches lineFrom codeSpans noDecor (getManualRegex style text) builder;
    addMatches lineFrom codeSpans noDecor (getAutoRegex text) builder
  else Ok builder.

(** The walk over the visible lines (lines 164-233). [lines] is the
    document from the current line on, [f] and [n] are the current line's
    [from] and [number]; running past the last line is the RangeError of
    [doc.line(line.number + 1)]. *)
Fixpoint walkLines (noDecor : list (Z * Z)) (style : NotationStyle) (visTo : Z)
    (lines : list jsstring) (f : Z) (n : nat) (insideFence : bool)
    (builder : list (list Deco)) : result (list (list Deco)) :=
  match lines with
  | [] => Throw
  | text :: rest =>
      if f <=? visTo then
        let insideFence := if lineTogglesFence text then negb insideFence else insideFence in
        builder ← scanLine noDecor style f text insideFence builder;
        if f + strlen text >=? visTo then Ok builder
        else walkLines noDecor style visTo rest (f + strlen text + 1) (S n) insideFence builder
      else Ok builder
  end.

(** [buildDecorations(view, style)] *)
Definition buildDecorations (view : EditorView) (style : NotationStyle)
  : result (list Deco) :=
  if negb (AUTO_QUICK (docToString (doc view))) then Ok (finish newBuilder)
  else
    let '(visFrom, visTo) := viewport view in
    first ← lineAt (doc view) visFrom;
    let firstVisibleLine := number first in
    let insideFence := bootstrapFence (take (firstVisibleLine - 1) (doc view)) false in
    let noDecor := noDecorZones view in
    line ← docLine (doc view) firstVisibleLine;
    builder ← walkLines noDecor style visTo (drop (firstVisibleLine - 1) (doc view))
                (from line) (number line) insideFence newBuilder;
    Ok (finish builder).

(** *** The view plugin

    The host keeps its views in a store; [ViewUpdate.view] and the
    plugin's [this.view] are references into it. *)

Record Transaction := { userEvent : option string }.

(** [t.isUserEvent(event)]: the annotation is [event] or starts with
    [event] and a dot. *)
Definition isUserEvent (t : Transaction) (event : string) : bool :=
  match userEvent t with
  | Some e => String.eqb e event || String.prefix (event ++ ".") e
  | None => false
  end.

Record ViewUpdate := {
  docChanged : bool;
  selectionSet : bool;
  viewportChanged : bool;
  transactions : list Transaction;
  updateView : nat
}.

Record PluginValue := { view : nat; decorations : list Deco }.

Definition deref (store : gmap nat EditorView) (r : nat) : result EditorView :=
  match store !! r with
  | Some v => Ok v
  | None => Throw
  end.

(** The plugin class's constructor. *)
Definition construct (notationStyle : NotationStyle) (store : gmap nat EditorView)
    (v : nat) : result PluginValue :=
  ev ← deref store v;
  d ← buildDecorations ev notationStyle;
  Ok {| view := v; decorations := d |}.

(** The plugin class's [update(u)]. *)
Definition update (notationStyle : NotationStyle) (store : gmap nat EditorView)
    (this : PluginValue) (u : ViewUpdate) : result PluginValue :=
  uview ← deref store (updateView u);
  thisview ← deref store (view this);
  if docChanged u
     || selectionSet u
     || viewportChanged u
     || existsb (fun t => isUserEvent t "input" || isUserEvent t "delete") (transactions u)
     || negb (Bool.eqb (composing uview) (composing thisview))
  then
    d ← buildDecorations thisview notationStyle;
    Ok {| view := view this; decorations := d |}
  else Ok this.

End Build.

(** *** The ruby widget

    A segment as [getFuriganaSegmentsSync] returns it: base chunks and
    their readings. Both it and [makeRuby] come from furiganaUtils.ts. *)

Record Seg := { kanji : list jsstring; furi : list jsstring }.

(** The test [/^[...]+$/.test(k)] of [toDOM], with the class written by code points:
    U+3040-30FF, and U+30FC which lies inside it. *)
Definition isKanaChar (c : Z) : bool := inRange 12352 12543 c || (c =? 12540).

Definition isKanaChunk (k : jsstring) : bool :=
  negb (bool_decide (k = [])) && forallb isKanaChar k.

Section Widget.

Variable getFuriganaSegmentsSync : jsstring -> list Seg.
Variable makeRuby : list jsstring -> list jsstring -> Dom.Node.

(** What the loop of [toDOM] appends for one segment. *)
Definition segNode (seg : Seg) : Dom.Node :=
  let allKana := forallb isKanaChunk (kanji seg) in
  if allKana then Dom.TextNode (concat (kanji seg))
  else makeRuby (kanji seg) (furi seg).

(** [RubyWidget.toDOM] for the widget built from [text]. *)
Definition toDOM (text : jsstring) : Dom.Node :=
  let segs := getFuriganaSegmentsSync text in
  Dom.Element "span" (map segNode segs).

End Widget.

(** [RubyWidget.eq] *)
Definition widgetEq (this other : jsstring) : bool := bool_decide (this = other).

End LivePreview.

(** ** The per-document skip option (src/skipOption.ts) *)

Module SkipOption.

(** The values a frontmatter key may hold. *)
Inductive JSValue : Type :=
| JSUndefined
| JSNull
| JSBool (b : bool)
| JSNumber (z : Z)
| JSString (s : string)
| JSObject.

Definition KEY : string := "auto-furigana".

(** [OFF.has(v)] for [OFF = new Set([false, 'false', 'off', 'disabled'])]. *)
Definition OFF_has (v : JSValue) : bool :=
  match v with
  | JSBool b => negb b
  | JSString s => String.eqb s "false" || String.eqb s "off" || String.eqb s "disabled"
  | _ => false
  end.

Record CachedMetadata := { frontmatter : option (gmap string JSValue) }.

(** A workspace leaf: the editor view it shows (a reference) and the path
    of the file it shows. *)
Record Leaf := { leafEditor : option nat; leafPath : option string }.

Record App := {
  metadataCache : gmap string CachedMetadata;
  leaves : list Leaf
}.

(** [shouldSkipByPath(app, path)] *)
Definition shouldSkipByPath (app : App) (path : string) : bool :=
  match metadataCache app !! path with
  | Some cache =>
      match frontmatter cache with
      | Some fm => OFF_has (default JSUndefined (fm !! KEY))
      | None => false
      end
  | None => false
  end.

(** [editorViewToPath(app, ev)]: the path of the last leaf showing [ev]. *)
Definition editorViewToPath (app : App) (ev : nat) : option string :=
  foldl (fun out leaf => if bool_decide (leafEditor leaf = Some ev) then leafPath leaf else out)
    None (leaves app).

(** [shouldSkipForEditorView(app, ev)] (an empty path is falsy). *)
Definition shouldSkipForEditorView (app : App) (ev : nat) : bool :=
  match editorViewToPath app ev with
  | Some p => if String.eqb p "" then false else shouldSkipByPath app p
  | None => false
  end.

End SkipOption.

(** ** Reading Mode (furiganaReadingMode.ts) *)

Module ReadingMode.

Import Dom.

Record PluginSettings := {
  readingMode : bool;
  editingMode : bool;
  notationStyle : LivePreview.NotationStyle
}.

(** [TAGS] *)
Definition TAGS : list string :=
  ["p"; "h1"; "h2"; "h3"; "h4"; "h5"; "h6"; "ol"; "ul"; "table"].

(** [isSkippableElement(el)], on the lower-cased tag name. *)
Definition isSkippableElement (tag : string) : bool :=
  String.eqb tag "code" || String.eqb tag "pre" || String.eqb tag "script"
  || String.eqb tag "style" || String.eqb tag "ruby".

(** [el.closest('ruby')] is not null: the element or one of its ancestors
    is a [ruby]. [anc] holds the ancestors' tags, the parent's first. *)
Definition closestRuby (tag : string) (anc : list string) : bool :=
  existsb (String.eqb "ruby") (tag :: anc).

Fixpoint trimEnd (s : jsstring) : jsstring :=
  match s with
  | [] => []
  | c :: rest =>
      match trimEnd rest with
      | [] => if isSpace c then [] else [c]
      | r => c :: r
      end
  end.

(** [v.trim()] *)
Definition trim (s : jsstring) : jsstring := trimEnd (LivePreview.trimStart s).

(** [collectTextNodes(root, out)]. [anc] are the tags of the ancestors of
    [root] in the document and [path] is the path of [root] from the block
    the traversal started at; a collected text node is recorded by its
    path. *)
Fixpoint collectTextNodes (anc : list string) (root : Node) (path : list nat)
    (out : list (list nat)) {struct root} : list (list nat) :=
  match root with
  | TextNode v =>
      if bool_decide (0 < length (trim v))%nat then out ++ [path] else out
  | OtherNode => out
  | Element tag children =>
      if isSkippableElement tag then out
      else if closestRuby tag anc then out
      else
        (fix loop (cs : list Node) (i : nat) (out : list (list nat)) {struct cs} :=
           match cs with
           | [] => out
           | c :: cs' => loop cs' (S i) (collectTextNodes (tag :: anc) c (path ++ [i]) out)
           end) children O out
  end.

(** [el.querySelectorAll(TAGS)]: the descendants of [el] with a tag of
    [TAGS], in document order, each with its ancestors' tags and its path
    from [el]. *)
Fixpoint selectAll (anc : list string) (path : list nat) (n : Node)
  : list (list string * list nat * Node) :=
  match n with
  | Element tag children =>
      (if bool_decide (tag ∈ TAGS) then [(anc, path, n)] else [])
      ++ (fix loop (cs : list Node) (i : nat) {struct cs} :=
            match cs with
            | [] => []
            | c :: cs' => selectAll (tag :: anc) (path ++ [i]) c ++ loop cs' (S i)
            end) children O
  | _ => []
  end.

Definition querySelectorAll (anc : list string) (el : Node)
  : list (list string * list nat * Node) :=
  match el with
  | Element tag children =>
      (fix loop (cs : list Node) (i : nat) {struct cs} :=
         match cs with
         | [] => []
         | c :: cs' => selectAll (tag :: anc) [i] c ++ loop cs' (S i)
         end) children O
  | _ => []
  end.

Section Process.

(** [convertFurigana(tn, manualRe, autoRe)] of furiganaUtils.ts: the nodes
    that take the place of the text node (the node itself when nothing
    matched). *)
Variable convertFurigana : jsstring -> list Node.

(** The tree after [tn.replaceWith(replacement)] for every text node of
    [collected]; [path] is the path of [n] from the block. *)
Fixpoint replaceCollected (collected : list (list nat)) (n : Node) (path : list nat)
    {struct n} : list Node :=
  match n with
  | TextNode v =>
      if bool_decide (path ∈ collected) then convertFurigana v else [n]
  | OtherNode => [n]
  | Element tag children =>
      [Element tag
         ((fix loop (cs : list Node) (i : nat) {struct cs} :=
             match cs with
             | [] => []
             | c :: cs' => replaceCollected collected c (path ++ [i]) ++ loop cs' (S i)
             end) children O)]
  end.

(** [processBlock(blk)] (lines 92-107); [quick] is the precheck of line 94. *)
Definition processBlock (quick : jsstring -> bool) (anc : list string) (blk : Node)
  : list Node :=
  if negb (quick (textContent blk)) then [blk]
  else
    let textNodes := collectTextNodes anc blk [] [] in
    if bool_decide (length textNodes = O) then [blk]
    else replaceCollected textNodes blk [].

(** The postprocessor up to its two guards (lines 73-80); [processBlocks]
    stands for the block loop that runs past them (lines 81-112). *)
Definition postprocessor (processBlocks : PluginSettings -> Node -> Node)
    (app : SkipOption.App) (settings : PluginSettings)
    (el : Node) (sourcePath : string) : Node :=
  if negb (readingMode settings) then el
  else if SkipOption.shouldSkipByPath app sourcePath then el
  else processBlocks settings el.

End Process.

End ReadingMode.

(** ** The parts of regex.ts and furiganaUtils.ts, from the specification *)

Module SpecModel.

Import LivePreview.

(** Modelled from the spec: [getAutoRegex] of regex.ts, which is missing.
    An automatic match is a maximal run of annotable characters (section
    4.4), the class being the one [AUTO_QUICK] tests. [cur] is the run
    being read, with the index it started at. *)
Fixpoint autoRuns (s : jsstring) (pos : nat) (cur : option (nat * jsstring))
  : list RegExpMatch :=
  match s with
  | [] =>
      match cur with
      | Some (i, acc) => [{| index := i; m0 := acc |}]
      | None => []
      end
  | c :: rest =>
      if isJapanese c then
        match cur with
        | Some (i, acc) => autoRuns rest (S pos) (Some (i, acc ++ [c]))
        | None => autoRuns rest (S pos) (Some (pos, [c]))
        end
      else
        match cur with
        | Some (i, acc) => {| index := i; m0 := acc |} :: autoRuns rest (S pos) None
        | None => autoRuns rest (S pos) None
        end
  end.

Definition getAutoRegex : Regex := fun text => autoRuns text O None.

(** Modelled from the spec: the bracket pair of a notation style (section
    3, NotationStyle); [none] is the style the spec calls disabled. *)
Definition brackets (style : NotationStyle) : option (Z * Z) :=
  match style with
  | curly => Some (123, 125)
  | square => Some (91, 93)
  | none => None
  end.

(** The pieces of [s] between pipes; there is always at least one. *)
Fixpoint splitPipes (s : jsstring) : list jsstring :=
  match s with
  | [] => [[]]
  | c :: rest =>
      if c =? PIPE then [] :: splitPipes rest
      else
        match splitPipes rest with
        | piece :: pieces => (c :: piece) :: pieces
        | [] => [[c]]
        end
  end.

Record ManualMatch := { base : jsstring; readingSegments : list jsstring }.

(** Modelled from the spec: the Notation Parser of section 4.1 on the text
    between the brackets, which is missing (regex.ts and furiganaUtils.ts).
    A body is a base of one or more characters, a pipe, and one or more
    pipe-separated readings of phonetic characters only; with more than one
    reading their number must be the character count of the base (section
    3, ManualMatch). Anything else is not a match. *)
Definition parseBody (o : Z) (body : jsstring) : option ManualMatch :=
  match splitPipes body with
  | b :: r :: rs =>
      if negb (bool_decide (b = []))
         && negb (existsb (Z.eqb o) b)
         && forallb (forallb isKanaChar) (r :: rs)
         && (bool_decide (length (r :: rs) = 1%nat)
             || bool_decide (length (r :: rs) = length b))
      then Some {| base := b; readingSegments := r :: rs |}
      else None
  | _ => None
  end.

(** The text up to the first [c], and the text after it. *)
Fixpoint takeUntil (c : Z) (s : jsstring) : option (jsstring * jsstring) :=
  match s with
  | [] => None
  | x :: rest =>
      if x =? c then Some ([], rest)
      else
        match takeUntil c rest with
        | Some (body, tl) => Some (x :: body, tl)
        | None => None
        end
  end.

(** Modelled from the spec: a whole span as a manual override, for the
    widget that is handed the matched text. *)
Definition parseSpan (style : NotationStyle) (span : jsstring) : option ManualMatch :=
  match brackets style, span with
  | Some (o, c), x :: rest =>
      if x =? o then
        match takeUntil c rest with
        | Some (body, []) => parseBody o body
        | _ => None
        end
      else None
  | _, _ => None
  end.

(** Modelled from the spec: the scan for manual overrides of section 4.1,
    leftmost first, resuming after the end of a span once it is consumed.
    [skip] counts the characters of a consumed span still to pass. *)
Fixpoint scanManual (o c : Z) (s : jsstring) (pos skip : nat)
  : list (nat * jsstring * ManualMatch) :=
  match s with
  | [] => []
  | x :: rest =>
      match skip with
      | S k => scanManual o c rest (S pos) k
      | O =>
          if x =? o then
            match takeUntil c rest with
            | Some (body, _) =>
                match parseBody o body with
                | Some m =>
                    (pos, x :: body ++ [c], m)
                      :: scanManual o c rest (S pos) (length body + 1)
                | None => scanManual o c rest (S pos) O
                end
            | None => scanManual o c rest (S pos) O
            end
          else scanManual o c rest (S pos) O
      end
  end.

(** Modelled from the spec: [getManualRegex] of regex.ts, which is missing:
    the spans [scanManual] finds; none when the notation is disabled. *)
Definition getManualRegex (style : NotationStyle) : Regex := fun text =>
  match brackets style with
  | Some (o, c) =>
      map (fun '(i, span, _) => {| index := i; m0 := span |}) (scanManual o c text O O)
  | None => []
  end.

Definition matchEnd (m : RegExpMatch) : nat := (index m + length (m0 m))%nat.

(** Modelled from the spec: the Match Scanner of section 4.4 on one text
    unit: the manual matches, and the automatic matches that overlap no
    manual match. *)
Definition scanUnit (style : NotationStyle) (text : jsstring)
  : list RegExpMatch * list RegExpMatch :=
  let manual := getManualRegex style text in
  let auto :=
    filter (fun a =>
      Forall (fun m => ¬ ((index a < matchEnd m)%nat ∧ (index m < matchEnd a)%nat)) manual)
      (getAutoRegex text) in
  (manual, auto).

(** Modelled from the spec: the Segment Aligner of section 4.2 for a manual
    match: one segment for a single reading, else one per base character. *)
Definition alignManual (m : ManualMatch) : list Seg :=
  match readingSegments m with
  | [r] => [{| kanji := [base m]; furi := [r] |}]
  | rs => zip_with (fun ch r => {| kanji := [[ch]]; furi := [r] |}) (base m) rs
  end.

(** A token of the tokenizer adapter (section 6). *)
Record Token := { surface : jsstring; reading : option jsstring }.

(** Modelled from the spec: the Segment Aligner of section 4.2 for one
    token: no reading for a surface that is all kana, or when the
    tokenizer gives none. *)
Definition alignToken (t : Token) : Seg :=
  match reading t with
  | Some r =>
      if isKanaChunk (surface t) || bool_decide (r = [])
      then {| kanji := [surface t]; furi := [] |}
      else {| kanji := [surface t]; furi := [r] |}
  | None => {| kanji := [surface t]; furi := [] |}
  end.

(** Modelled from the spec: [getFuriganaSegmentsSync] of furiganaUtils.ts,
    which is missing: the segments of a manual span, else those of the
    tokens, else (tokenizer unavailable) the text as it is. *)
Definition getFuriganaSegmentsSync (tokenizer : option (jsstring -> list Token))
    (text : jsstring) : list Seg :=
  match parseSpan curly text, parseSpan square text with
  | Some m, _ => alignManual m
  | None, Some m => alignManual m
  | None, None =>
      match tokenizer with
      | Some tokenize => map alignToken (tokenize text)
      | None => [{| kanji := [text]; furi := [] |}]
      end
  end.

(** Modelled from the spec: [makeRuby] of furiganaUtils.ts, which is
    missing (section 4.3): inside one [ruby], each base chunk with a
    reading is a base node followed by a reading node, and a chunk without
    one is a text node. *)
Definition rubyPair (furi : list jsstring) (i : nat) (k : jsstring) : list Dom.Node :=
  match furi !! i with
  | Some (c :: r) => [Dom.Element "rb" [Dom.TextNode k]; Dom.Element "rt" [Dom.TextNode (c :: r)]]
  | _ => [Dom.TextNode k]
  end.

Definition makeRuby (kanji furi : list jsstring) : Dom.Node :=
  Dom.Element "ruby" (concat (imap (rubyPair furi) kanji)).

End SpecModel.

(** ** The plugin's folder in the vault

    Both the dictionary installer and the tokenizer initializer derive the
    dictionary folder from [app.vault.configDir] and [manifest.id]. File
    names, paths, URLs and digests are [string]s, each character one code
    unit below 256, so that the order of [String.le] is the order of the
    code units that [Array.prototype.sort] uses by default. *)

Module Vault.

(** [s.replace(/\\/g, '/')] *)
Fixpoint slashes (s : string) : string :=
  match s with
  | EmptyString => EmptyString
  | String c r => String (if Ascii.eqb c "\" then "/"%char else c) (slashes r)
  end.

(** [s.endsWith(suffix)] *)
Definition endsWith (s suffix : string) : bool :=
  String.prefix (String.rev suffix) (String.rev s).

(** [(app.vault as any).configDir ?? '.obsidian'] *)
Definition configDirOf (configDir : option string) : string :=
  default ".obsidian" configDir.

End Vault.

(** ** The dictionary installer (src/kuromojiDictInstaller.ts) *)

Module DictInstaller.

Import Vault.

(** A JSON value, as the bundler hands [dict.manifest.json] to the module.
    Numbers are the integers: a number that is no integer equals no byte
    length, like an integer that differs from it. *)
#[warnings="-register-all"]
Inductive Json : Type :=
| JNull
| JBool (b : bool)
| JNum (n : Z)
| JStr (s : string)
| JArr (items : list Json)
| JObj (fields : gmap string Json).

(** [Object.entries(m)] of a value that is an object: the fields of an
    object, the elements of an array under their indices. *)
Definition entries (m : Json) : list (string * Json) :=
  match m with
  | JObj fields => map_to_list fields
  | JArr items => imap (fun i v => (pretty i, v)) items
  | _ => []
  end.

(** [m[k]] for an own key [k] of [m]; [None] is [undefined]. *)
Definition prop (m : Json) (k : string) : option Json :=
  match m with
  | JObj fields => fields !! k
  | JArr items => snd <$> List.find (fun e => String.eqb (fst e) k) (entries m)
  | _ => None
  end.

(** The test of one entry in [isValidManifest]: a value that is no object
    (or is null) is passed over, an object needs a string [sha256] and a
    number [bytes]; an array has neither. *)
Definition entryOk (v : Json) : bool :=
  match v with
  | JObj fields =>
      match fields !! "sha256"%string, fields !! "bytes"%string with
      | Some (JStr _), Some (JNum _) => true
      | _, _ => false
      end
  | JArr _ => false
  | _ => true
  end.

(** [isValidManifest(m)] *)
Definition isValidManifest (m : Json) : bool :=
  match m with
  | JObj _ | JArr _ =>
      forallb (fun e => String.eqb (fst e) "sources" || entryOk (snd e)) (entries m)
  | _ => false
  end.

(** *** Digests in hexadecimal *)

Definition hexDigit (d : Z) : ascii :=
  default "0"%char (String.get (Z.to_nat d) "0123456789abcdef").

(** [n.toString(16)] for an integer [n >= 0]; the fuel is enough, since
    [n / 16 < n] for [n > 0]. *)
Fixpoint toString16_go (fuel : nat) (n : Z) (acc : string) : string :=
  match fuel with
  | O => acc
  | S fuel' =>
      let acc' := String (hexDigit (n mod 16)) acc in
      if n / 16 =? 0 then acc' else toString16_go fuel' (n / 16) acc'
  end.

Definition toString16 (n : Z) : string := toString16_go (S (Z.to_nat n)) n "".

(** [s.padStart(2, '0')] *)
Definition padStart2 (s : string) : string :=
  match s with
  | EmptyString => "00"
  | String c EmptyString => String "0" (String c EmptyString)
  | _ => s
  end.

(** The loop of [sha256Hex] over the bytes of the digest. *)
Definition hexOf (digestBytes : list Z) : string :=
  foldl (fun hex b => hex +:+ padStart2 (toString16 b)) "" digestBytes.

(** *** The world the installer talks to

    What the installer does to the vault adapter, the network and the
    timer, in the order it does it. What it writes to the console is left
    out. *)
Inductive Effect : Type :=
| ExistsAt (path : string)
| Mkdir (path : string)
| ReadBinary (path : string)
| WriteBinary (path : string) (data : list Z)
| RequestUrl (url : string)
| Sleep (ms : Z).

(** What may be thrown: the rejection of a call to the adapter or to the
    network (a time-out included), the TypeError of reading a property of
    null, and the errors the installer makes itself. *)
Inductive Error : Type :=
| Rejected (e : Effect)
| TypeError
| ChecksumMismatch (name : string)
| SizeMismatch (name : string)
| AllSourcesFailed.

Inductive outcome (A : Type) : Type :=
| Done (a : A)
| Raised (e : Error).
Arguments Done {A} a.
Arguments Raised {A} e.

(** The answers of the world. Each may depend on everything done so far, so
    that a file may be there at one time and not at another, and a request
    may fail and then succeed. [None] (or [false]) is a rejection; for
    [readAns] it also stands for a value that is no ArrayBuffer, and for
    [requestAns] for a time-out and for a response without binary data. *)
Record Env := {
  existsAns : list Effect -> string -> option bool;
  mkdirAns : list Effect -> string -> bool;
  readAns : list Effect -> string -> option (list Z);
  writeAns : list Effect -> string -> list Z -> bool;
  requestAns : list Effect -> string -> option (list Z)
}.

(** An asynchronous computation: from the effects so far to the effects
    after it, and its outcome. *)
Definition IO (A : Type) : Type := list Effect -> list Effect * outcome A.

#[global] Instance io_ret : MRet IO := fun A a tr => (tr, Done a).

#[global] Instance io_bind : MBind IO := fun A B k m tr =>
  match m tr with
  | (tr', Done a) => k a tr'
  | (tr', Raised e) => (tr', Raised e)
  end.

Definition raise {A : Type} (e : Error) : IO A := fun tr => (tr, Raised e).

(** [try { m } catch (e) { h e }] *)
Definition tryCatch {A : Type} (m : IO A) (h : Error -> IO A) : IO A := fun tr =>
  match m tr with
  | (tr', Done a) => (tr', Done a)
  | (tr', Raised e) => h e tr'
  end.

(** One call to the world. *)
Definition call {A : Type} (e : Effect) (answer : list Effect -> option A) : IO A := fun tr =>
  (tr ++ [e], match answer tr with Some a => Done a | None => Raised (Rejected e) end).

Definition DOWNLOAD_TIMEOUT_MS : Z := 15000.
Definition PER_BASE_RETRIES : Z := 2.
Definition RETRY_BACKOFF_MS : Z := 800.

(** The [url] that [fetchWithFallback] makes of a base and a file name. *)
Definition urlOf (base fileName : string) : string :=
  if endsWith base "/" then base +:+ fileName else base +:+ "/" +:+ fileName.

(** The value of an entry's property: [want.sha256], [want.bytes].
    Reading a property of null or undefined throws; a value that is no
    object has no such property. *)
Definition field (want : option Json) (k : string) : IO (option Json) :=
  match want with
  | None | Some JNull => raise TypeError
  | Some (JObj fields) => mret (fields !! k)
  | Some _ => mret None
  end.

(** [n === want.bytes] and [hex === want.sha256] *)
Definition sameNumber (n : nat) (v : option Json) : bool :=
  match v with Some (JNum z) => z =? Z.of_nat n | _ => false end.

Definition sameString (s : string) (v : option Json) : bool :=
  match v with Some (JStr s') => String.eqb s s' | _ => false end.

(** [(manifestJson.sources ?? []).filter(s => typeof s === 'string' && s.length > 0)]:
    a value that is there and is no array has no [filter]. *)
Definition isBase (v : Json) : option string :=
  match v with
  | JStr s => if String.eqb s "" then None else Some s
  | _ => None
  end.

Definition basesOf (m : Json) : IO (list string) :=
  match (match m with JObj fields => fields !! "sources"%string | _ => None end) with
  | None | Some JNull => mret []
  | Some (JArr items) => mret (omap isBase items)
  | Some _ => raise TypeError
  end.

(** [Object.keys(manifestJson).filter(k => k !== 'sources').sort()] *)
Definition namesOf (m : Json) : list string :=
  merge_sort String.le
    (List.filter (fun k => negb (String.eqb k "sources")) (fst <$> entries m)).

Section Installer.

(** [crypto.subtle.digest('SHA-256', buf)] *)
Variable digest : list Z -> list Z.

Variable env : Env.

(** [app.vault.configDir], [manifest.id] and the imported manifest. *)
Variable configDir : option string.
Variable pluginId : string.
Variable dictManifest : Json.

(** [sha256Hex(buf)] *)
Definition sha256Hex (buf : list Z) : string := hexOf (digest buf).

(** [tryReadBinary(app, relPath)]: never throws. *)
Definition tryReadBinary (relPath : string) : IO (option (list Z)) :=
  tryCatch (ab ← call (ReadBinary relPath) (fun tr => readAns env tr relPath);
            mret (Some ab))
    (fun _ => mret None).

Definition sleep (ms : Z) : IO unit := fun tr => (tr ++ [Sleep ms], Done tt).

(** [requestUrlWithTimeout(url, timeoutMs)] *)
Definition requestUrlWithTimeout (url : string) (timeoutMs : Z) : IO (list Z) :=
  call (RequestUrl url) (fun tr => requestAns env tr url).

(** The attempts on one base: [attempts] are the values of [attempt] still
    to come. The result is the data, if an attempt got some, and the last
    error. *)
Fixpoint tryAttempts (url : string) (timeoutMs : Z) (attempts : list Z)
    (lastErr : option Error) : IO (option (list Z) * option Error) :=
  match attempts with
  | [] => mret (None, lastErr)
  | attempt :: later =>
      r ← tryCatch
            (_ ← (if 0 <? attempt
                  then sleep (RETRY_BACKOFF_MS * 2 ^ (attempt - 1))
                  else mret tt);
             data ← requestUrlWithTimeout url timeoutMs;
             mret (inl data))
            (fun e => mret (inr e));
      match r with
      | inl data => mret (Some data, lastErr)
      | inr e => tryAttempts url timeoutMs later (Some e)
      end
  end.

Fixpoint tryBases (fileName : string) (timeoutMs : Z) (bases : list string)
    (lastErr : option Error) : IO (option (list Z) * option Error) :=
  match bases with
  | [] => mret (None, lastErr)
  | base :: others =>
      let url := urlOf base fileName in
      r ← tryAttempts url timeoutMs (seqZ 0 (PER_BASE_RETRIES + 1)) lastErr;
      match r with
      | (Some data, _) => mret r
      | (None, lastErr') => tryBases fileName timeoutMs others lastErr'
      end
  end.

(** [fetchWithFallback(fileName, bases, timeoutMs)] *)
Definition fetchWithFallback (fileName : string) (bases : list string) (timeoutMs : Z)
    : IO (list Z) :=
  r ← tryBases fileName timeoutMs bases None;
  match r with
  | (Some data, _) => mret data
  | (None, lastErr) => raise (default AllSourcesFailed lastErr)
  end.

Definition pluginDir : string :=
  slashes (configDirOf configDir +:+ "/plugins/" +:+ pluginId).

Definition dictDir : string := pluginDir +:+ "/dict".

Definition relOf (name : string) : string := dictDir +:+ "/" +:+ name.

(** The test of a file that is there: size and digest as the manifest has
    them. *)
Definition validate (want : option Json) (buf : list Z) : IO bool :=
  bytes ← field want "bytes";
  let sizeOk := sameNumber (length buf) bytes in
  let gotSha := sha256Hex buf in
  sha ← field want "sha256";
  let shaOk := sameString gotSha sha in
  mret (sizeOk && shaOk).

(** The loop that determines which files require installation. *)
Fixpoint checkFiles (names : list string) (toInstall : list string) : IO (list string) :=
  match names with
  | [] => mret toInstall
  | name :: rest =>
      let want := prop dictManifest name in
      ok ← tryCatch
             (buf ← tryReadBinary (relOf name);
              match buf with
              | Some b => validate want b
              | None => mret false
              end)
             (fun _ => mret false);
      checkFiles rest (if ok : bool then toInstall else toInstall ++ [name])
  end.

(** The body of the installation loop for one file. *)
Definition installFile (bases : list string) (name : string) : IO unit :=
  let want := prop dictManifest name in
  tryCatch
    (data ← fetchWithFallback name bases DOWNLOAD_TIMEOUT_MS;
     let gotSha := sha256Hex data in
     sha ← field want "sha256";
     if negb (sameString gotSha sha) then raise (ChecksumMismatch name)
     else
       bytes ← field want "bytes";
       if negb (sameNumber (length data) bytes) then raise (SizeMismatch name)
       else call (WriteBinary (relOf name) data)
              (fun tr => if writeAns env tr (relOf name) data then Some tt else None))
    (fun e => raise e).

Fixpoint installFiles (bases : list string) (toInstall : list string) : IO unit :=
  match toInstall with
  | [] => mret tt
  | name :: rest => _ ← installFile bases name; installFiles bases rest
  end.

(** The block that ensures the destination directory exists. *)
Definition ensureDirectory : IO unit :=
  tryCatch
    (there ← call (ExistsAt dictDir) (fun tr => existsAns env tr dictDir);
     if negb there
     then call (Mkdir dictDir) (fun tr => if mkdirAns env tr dictDir then Some tt else None)
     else mret tt)
    (fun e => raise e).

(** [ensureDictInstalled(app, manifest)] *)
Definition ensureDictInstalled : IO unit :=
  if negb (isValidManifest dictManifest) then mret tt
  else
    _ ← ensureDirectory;
    toInstall ← checkFiles (namesOf dictManifest) [];
    if (length toInstall =? 0)%nat then mret tt
    else
      bases ← basesOf dictManifest;
      if (length bases =? 0)%nat then mret tt
      else installFiles bases toInstall.

End Installer.

End DictInstaller.

(** ** The manifest script (src/scripts/make-dict-manifest.mjs) *)

Module ManifestScript.

Import Vault DictInstaller.

(** [process.env.X || fallback] *)
Definition envOr (v : option string) (fallback : string) : string :=
  match v with
  | Some s => if String.eqb s "" then fallback else s
  | None => fallback
  end.

Record ProcessEnv := { OWNER : option string; REPO : option string; TAG : option string }.

Definition GH_RELEASE_BASE (penv : ProcessEnv) : string :=
  "https://github.com/" +:+ envOr (OWNER penv) "veschw" +:+ "/"
  +:+ envOr (REPO penv) "obsidian-auto-furigana" +:+ "/releases/download/"
  +:+ envOr (TAG penv) "kuromoji_dicts_0.1.2".

(** An entry of the dictionary directory, with what [fs.readFile] reads
    from it. *)
Record Dirent := { direntName : string; direntIsFile : bool; direntContent : list Z }.

(** [loadExistingOverrides(outPath)]: [existing] is the JSON of the file
    that is there, if it can be read and parsed. Reading [_overrides] of
    null throws, which is caught; [typeof null] is ['object']. *)
Definition loadExistingOverrides (existing : option Json) : option Json :=
  match existing with
  | Some (JObj fields) =>
      match fields !! "_overrides"%string with
      | Some (JObj o) => Some (JObj o)
      | Some (JArr a) => Some (JArr a)
      | Some JNull => Some JNull
      | _ => None
      end
  | _ => None
  end.

Section Script.

(** The SHA-256 of [createHash], whose ['hex'] encoding writes each byte
    with two lower-case digits, as [hexOf] does. *)
Variable digest : list Z -> list Z.

(** [names.sort((a, b) => a.localeCompare(b))]: the order depends on the
    locale of the machine. *)
Variable localeSort : list string -> list string.

(** [sha256Hex(absPath)] for a file that holds [buf]. *)
Definition sha256Hex (buf : list Z) : Json :=
  JObj (<["sha256"%string := JStr (hexOf (digest buf))]>
          (<["bytes"%string := JNum (Z.of_nat (length buf))]> ∅)).

(** [listDictFiles(dir)] *)
Definition listDictFiles (dir : list Dirent) : list string :=
  localeSort
    (direntName <$>
       List.filter (fun e => direntIsFile e && endsWith (direntName e) ".dat.gz") dir).

(** What [fs.readFile(resolve(DICT_DIR, name))] reads. *)
Definition readFile (dir : list Dirent) (name : string) : list Z :=
  match List.find (fun e => String.eqb (direntName e) name) dir with
  | Some e => direntContent e
  | None => []
  end.

(** [main()]: the object that is written to [dict.manifest.json]. The order
    of its keys is not kept. *)
Definition main (penv : ProcessEnv) (dir : list Dirent) (existing : option Json)
    : result Json :=
  let files := listDictFiles dir in
  if (length files =? 0)%nat then Throw
  else
    let manifest : gmap string Json :=
      foldl (fun acc name => <[name := sha256Hex (readFile dir name)]> acc) ∅ files in
    let overrides := loadExistingOverrides existing in
    let ordered : gmap string Json := {[ "sources"%string := JArr [JStr (GH_RELEASE_BASE penv)] ]} in
    let ordered :=
      match overrides with
      | Some (JObj o) => <["_overrides"%string := JObj o]> ordered
      | Some (JArr a) => <["_overrides"%string := JArr a]> ordered
      | _ => ordered
      end in
    Ok (JObj (foldl (fun acc name =>
                       match manifest !! name with
                       | Some v => <[name := v]> acc
                       | None => acc
                       end) ordered files)).

End Script.

End ManifestScript.

(** ** The tokenizer initializer (src/kuromojiInit.ts) *)

Module KuromojiInit.

Import Vault.

Definition DICT_FILES : list string :=
  [ "base.dat.gz"; "cc.dat.gz"; "check.dat.gz"; "tid.dat.gz"; "tid_pos.dat.gz";
    "tid_map.dat.gz"; "unk.dat.gz"; "unk_char.dat.gz"; "unk_compat.dat.gz";
    "unk_invoke.dat.gz"; "unk_map.dat.gz"; "unk_pos.dat.gz" ]%string.

Definition SENTINEL : string := "__KUROMOJI_DICT__".

(** The properties that an object made by [{}] inherits from
    [Object.prototype]; each holds a function or an object, which is
    truthy. *)
Definition OBJECT_PROTOTYPE : list string :=
  [ "constructor"; "hasOwnProperty"; "isPrototypeOf"; "propertyIsEnumerable";
    "toLocaleString"; "toString"; "valueOf"; "__proto__"; "__defineGetter__";
    "__defineSetter__"; "__lookupGetter__"; "__lookupSetter__" ]%string.

Section UrlMap.

(** [app.vault.configDir], [manifest.id] and [adapter.getResourcePath];
    [None] is undefined or null. *)
Variable configDir : option string.
Variable pluginId : string.
Variable getResourcePath : string -> option string.

Definition baseRel : string :=
  slashes (configDirOf configDir +:+ "/plugins/" +:+ pluginId +:+ "/dict/").

(** The loop of [buildUrlMap] over the names still to come. *)
Fixpoint buildUrlMapFrom (names : list string) (map : gmap string string)
    : result (gmap string string) :=
  match names with
  | [] => Ok map
  | name :: rest =>
      let rel := baseRel +:+ name in
      match getResourcePath rel with
      | Some url =>
          if String.eqb url "" then Throw
          else buildUrlMapFrom rest (<[name := url]> map)
      | None => Throw
      end
  end.

(** [buildUrlMap(app, manifest)] *)
Definition buildUrlMap : result (gmap string string) := buildUrlMapFrom DICT_FILES ∅.

End UrlMap.

(** What [open] is given as its URL: a string, or what a name inherited
    from [Object.prototype] holds. *)
Inductive Url : Type :=
| UrlString (s : string)
| UrlInherited (key : string).

(** [url.slice(n)] *)
Fixpoint slice (n : nat) (s : string) : string :=
  match n, s with
  | O, _ => s
  | S n', String _ r => slice n' r
  | S _, EmptyString => EmptyString
  end.

(** [urlMap[file]], if it is truthy. *)
Definition mapped (urlMap : gmap string string) (file : string) : option Url :=
  match urlMap !! file with
  | Some url => if String.eqb url "" then None else Some (UrlString url)
  | None => if bool_decide (file ∈ OBJECT_PROTOTYPE) then Some (UrlInherited file) else None
  end.

(** The URL that the patched [open] hands to the original [open]. *)
Definition patchedUrl (urlMap : gmap string string) (url : Url) : Url :=
  match url with
  | UrlString s =>
      if String.prefix SENTINEL s
      then default url (mapped urlMap (slice (String.length SENTINEL + 1) s))
      else url
  | UrlInherited _ => url
  end.

(** [XMLHttpRequest.prototype.open]: the function of the browser, or a
    patch that holds its URL map and the function it replaced. *)
Inductive OpenFn : Type :=
| Native
| Patched (urlMap : gmap string string) (origOpen : OpenFn).

(** The URL the browser's [open] is given in the end. *)
Fixpoint openedUrl (f : OpenFn) (url : Url) : Url :=
  match f with
  | Native => url
  | Patched urlMap origOpen => openedUrl origOpen (patchedUrl urlMap url)
  end.

Section Initializer.

(** A tokenizer that kuromoji has built. *)
Variable Tokenizer : Type.

(** The module's variables [tokenizer] and [building], the method
    [XMLHttpRequest.prototype.open], and the builds whose callback kuromoji
    has not called yet, each with the [origOpen] its [unpatch] restores.
    Kuromoji calls the callback of a build once, after [build] has
    returned. *)
Record State := {
  tokenizer : option Tokenizer;
  building : bool;
  xhrOpen : OpenFn;
  pending : list OpenFn
}.

(** What becomes of the promise that [initializeTokenizer] returns. *)
Inductive Promise : Type :=
| Fulfilled
| Failed
| Polling
| Awaiting.

(** [initializeTokenizer(app, manifest)] up to the point where it returns
    its promise. [builderThrows] tells whether [kuromoji.builder] or
    [builder.build] throws; otherwise kuromoji keeps the callback. *)
Definition initializeTokenizer (configDir : option string) (pluginId : string)
    (getResourcePath : string -> option string) (builderThrows : bool) (st : State)
    : State * Promise :=
  match tokenizer st with
  | Some _ => (st, Fulfilled)
  | None =>
      if building st then (st, Polling)
      else
        match buildUrlMap configDir pluginId getResourcePath with
        | Ok urlMap =>
            let origOpen := xhrOpen st in
            if builderThrows
            then ({| tokenizer := tokenizer st; building := false;
                     xhrOpen := origOpen; pending := pending st |}, Failed)
            else ({| tokenizer := tokenizer st; building := true;
                     xhrOpen := Patched urlMap origOpen;
                     pending := pending st ++ [origOpen] |}, Awaiting)
        | _ =>
            ({| tokenizer := tokenizer st; building := false;
                xhrOpen := xhrOpen st; pending := pending st |}, Failed)
        end
  end.

(** The callback of [builder.build], called by kuromoji for the build at
    [i] among the pending ones, with [err] set or not and with what was
    built. *)
Definition buildCallback (i : nat) (err : bool) (built : option Tokenizer) (st : State)
    : option (State * Promise) :=
  match pending st !! i with
  | Some origOpen =>
      let rest := delete i (pending st) in
      if err || negb (bool_decide (is_Some built))
      then Some ({| tokenizer := tokenizer st; building := false;
                    xhrOpen := origOpen; pending := rest |}, Failed)
      else Some ({| tokenizer := built; building := false;
                    xhrOpen := origOpen; pending := rest |}, Fulfilled)
  | None => None
  end.

(** The test of the poll that a call during a build makes every 50 ms. *)
Definition pollResolves (st : State) : bool :=
  bool_decide (is_Some (tokenizer st)) || negb (building st).

(** What happens to the module: a call of [initializeTokenizer], or
    kuromoji calling the callback of a build. Nothing else assigns
    [XMLHttpRequest.prototype.open]. *)
Inductive Event : Type :=
| Initialize (configDir : option string) (pluginId : string)
    (getResourcePath : string -> option string) (builderThrows : bool)
| Callback (i : nat) (err : bool) (built : option Tokenizer).

Definition step (st : State) (ev : Event) : State :=
  match ev with
  | Initialize configDir pluginId getResourcePath builderThrows =>
      fst (initializeTokenizer configDir pluginId getResourcePath builderThrows st)
  | Callback i err built =>
      match buildCallback i err built st with
      | Some (st', _) => st'
      | None => st
      end
  end.

Definition initial : State :=
  {| tokenizer := None; building := false; xhrOpen := Native; pending := [] |}.

Definition run (events : list Event) : State := foldl step initial events.

End Initializer.

End KuromojiInit.

(** ** Predicates of the statements *)

Module Props.

Import LivePreview.

(** A maximal run of exactly [k] backticks starts at [j]. *)
Definition runAt (s : jsstring) (j k : nat) : Prop :=
  (1 <= k)%nat
  /\ (j = O \/ isTickAt s (j - 1) = false)
  /\ (forall x, (j <= x < j + k)%nat -> isTickAt s x = true)
  /\ isTickAt s (j + k) = false.

(** [[a, b)] is a code span: an opening run at [a] and the first later run
    of the same length, which ends at [b]. *)
Definition closedSpan (s : jsstring) (a b : nat) : Prop :=
  exists k j, runAt s a k /\ runAt s j k /\ (a + k <= j)%nat /\ b = (j + k)%nat
    /\ forall j', (a + k <= j' < j)%nat -> ~ runAt s j' k.

(** One turn of the outer loop of [inlineBacktickRanges], on its state
    [(i, ranges)]: a character that is no backtick is passed, and an opener
    with a closer is recorded and passed with its span. An opener without
    a closer has no turn of these two kinds. *)
Inductive scanStep (s : jsstring) : nat * list (nat * nat) -> nat * list (nat * nat) -> Prop :=
| scan_plain i r :
    (i < length s)%nat -> isTickAt s i = false ->
    scanStep s (i, r) ((i + 1)%nat, r)
| scan_span i r b :
    closedSpan s i b ->
    scanStep s (i, r) (b, r ++ [(i, b)]).

(** The number of lines that toggle a fence, and whether line [n] (counted
    from 1, its own toggle included) lies inside a fenced block: an odd
    number of toggles from the start of the document up to it. *)
Fixpoint toggleCount (lines : list jsstring) : nat :=
  match lines with
  | [] => O
  | t :: rest => ((if lineTogglesFence t then 1 else 0) + toggleCount rest)%nat
  end.

Definition insideFenceAt (d : list jsstring) (n : nat) : bool :=
  Nat.odd (toggleCount (take n d)).

(** The decoration of one match of a line, if it gets one. *)
Definition decorate (lineFrom : Z) (codeSpans : list (nat * nat)) (noDecor : list (Z * Z))
    (m : RegExpMatch) : option Deco :=
  let relFrom := Z.of_nat (index m) in
  let relTo := relFrom + strlen (m0 m) in
  if bool_decide (m0 m = []) then None
  else if hitsCode codeSpans relFrom relTo then None
  else if hitsZone noDecor (lineFrom + relFrom) (lineFrom + relTo) then None
  else Some {| decoFrom := lineFrom + relFrom; decoTo := lineFrom + relTo;
               widgetText := m0 m |}.

Definition codeSpansOf (text : jsstring) : list (nat * nat) :=
  match inlineBacktickRanges text with
  | Ok ranges => ranges
  | _ => []
  end.

(** What a scanned line gives: its manual matches, then its automatic
    matches. *)
Definition lineDecos (getManualRegex : NotationStyle -> Regex) (getAutoRegex : Regex)
    (noDecor : list (Z * Z)) (style : NotationStyle) (lineFrom : Z) (text : jsstring)
  : list Deco :=
  omap (decorate lineFrom (codeSpansOf text) noDecor) (getManualRegex style text)
  ++ omap (decorate lineFrom (codeSpansOf text) noDecor) (getAutoRegex text).

(** What line [n] of the document gives when the walk visits it. *)
Definition lineContribution (getManualRegex : NotationStyle -> Regex) (getAutoRegex : Regex)
    (noDecor : list (Z * Z)) (style : NotationStyle) (d : list jsstring) (n : nat)
  : list Deco :=
  match d !! (n - 1)%nat with
  | Some text =>
      if insideFenceAt d n || negb (AUTO_QUICK text) then []
      else lineDecos getManualRegex getAutoRegex noDecor style (offsetAfter (take (n - 1) d)) text
  | None => []
  end.


(** The calls are in ascending order and no two of their spans overlap. *)
Fixpoint ascending (l : list Deco) : bool :=
  match l with
  | d :: rest =>
      match rest with
      | d' :: _ => (decoFrom d <=? decoFrom d') && (decoTo d <=? decoFrom d')
      | [] => true
      end && ascending rest
  | [] => true
  end.

(** A chunk that the test of [toDOM] takes for kana. *)
Definition kanaChunk (k : jsstring) : Prop :=
  k <> [] /\ Forall (fun c => isKanaChar c = true) k.

(** What the traversal may collect below [root]: a text node that is not
    blank, reached through elements that are not skippable, and below at
    least one element only when no ancestor of the root is a [ruby]. *)
Definition eligible (anc : list string) (root : Dom.Node) (q : list nat) : Prop :=
  (exists v, Dom.nodeAt root q = Some (Dom.TextNode v) /\ (0 < length (ReadingMode.trim v))%nat)
  /\ Forall (fun t => ReadingMode.isSkippableElement t = false) (Dom.tagsAlong root q)
  /\ (q <> [] -> existsb (String.eqb "ruby") anc = false).

(** The widget of a match, with the segments and the markup of the
    specification. *)
Definition render (tokenizer : option (jsstring -> list SpecModel.Token)) (text : jsstring) : Dom.Node :=
  toDOM (SpecModel.getFuriganaSegmentsSync tokenizer) SpecModel.makeRuby text.

Definition baseText (segs : list Seg) : jsstring :=
  concat (map (fun seg => concat (kanji seg)) segs).

(** The ranges are in ascending order from [lo] on, none overlaps the next,
    and each has room for an opener and a closer. *)
Fixpoint rangesFrom (lo : nat) (l : list (nat * nat)) : Prop :=
  match l with
  | [] => True
  | (a, b) :: rest => (lo <= a)%nat /\ (a + 2 <= b)%nat /\ rangesFrom b rest
  end.

(** A match as [matchAll] gives it: [m[0]] is the text found at [index]. *)
Definition wellFormedRegex (re : Regex) : Prop :=
  forall text m, In m (re text) -> take (length (m0 m)) (drop (index m) text) = m0 m.

(** The builder after taking the ranges [ds] one after the other. *)
Fixpoint addAll (builder : list (list Deco)) (ds : list Deco) : result (list (list Deco)) :=
  match ds with
  | [] => Ok builder
  | d :: rest => b ← builderAdd builder d; addAll b rest
  end.

(** The lines the walk visits: from the line around the start of the
    viewport on, as long as a line starts at or before the end of the
    viewport. [visitCount] counts them from the line that starts at [f]. *)
Fixpoint visitCount (visTo : Z) (lines : list jsstring) (f : Z) : nat :=
  match lines with
  | [] => O
  | t :: rest =>
      if f <=? visTo
      then S (if f + strlen t >=? visTo then O
              else visitCount visTo rest (f + strlen t + 1))
      else O
  end.

(** The walk leaves its loop by one of the loop's two tests, and not by
    asking for the line after the last one. *)
Fixpoint walkEnds (visTo : Z) (lines : list jsstring) (f : Z) : bool :=
  match lines with
  | [] => false
  | t :: rest =>
      if f <=? visTo
      then (if f + strlen t >=? visTo then true
            else walkEnds visTo rest (f + strlen t + 1))
      else true
  end.

Definition firstVisibleLine (d : list jsstring) (visFrom : Z) : nat :=
  match lineAt d visFrom with
  | Ok l => number l
  | _ => 1%nat
  end.

Definition visitedLines (d : list jsstring) (vp : Z * Z) : list nat :=
  let first := firstVisibleLine d vp.1 in
  seq first (visitCount vp.2 (drop (first - 1) d) (offsetAfter (take (first - 1) d))).

(** The ranges [buildDecorations] hands to the builder, in the order of
    the calls, for the zones [noDecor]: they depend on the selection
    through the zones only. *)
Definition calls (getManualRegex : NotationStyle -> Regex) (getAutoRegex : Regex)
    (noDecor : list (Z * Z)) (style : NotationStyle) (d : list jsstring) (vp : Z * Z)
  : list Deco :=
  if negb (AUTO_QUICK (docToString d)) then []
  else concat (map (lineContribution getManualRegex getAutoRegex noDecor style d)
                 (visitedLines d vp)).


End Props.

(** ** Predicates of the statements on the installer *)

Module InstallProps.

Import Vault DictInstaller.

(** Whatever the computation adds to the effects satisfies [P], and what it
    returns satisfies [Q]. *)
Definition yields {A : Type} (P : Effect -> Prop) (Q : A -> Prop) (m : IO A) : Prop :=
  forall tr, exists added,
    fst (m tr) = tr ++ added /\ Forall P added
    /\ match snd (m tr) with Done a => Q a | Raised _ => True end.

Definition adds {A : Type} (P : Effect -> Prop) (m : IO A) : Prop :=
  yields P (fun _ => True) m.

(** The bytes [buf] are what the manifest entry [want] asks for. *)
Definition verified (digest : list Z -> list Z) (want : option Json) (buf : list Z) : Prop :=
  exists fields, want = Some (JObj fields)
    /\ fields !! "sha256"%string = Some (JStr (hexOf (digest buf)))
    /\ fields !! "bytes"%string = Some (JNum (Z.of_nat (length buf))).

(** [base] is a non-empty string of the manifest's [sources]. *)
Definition sourceOf (m : Json) (base : string) : Prop :=
  exists fields items, m = JObj fields
    /\ fields !! "sources"%string = Some (JArr items)
    /\ JStr base ∈ items /\ base <> ""%string.

(** An effect that stays inside the dictionary folder and the sources: the
    folder itself is looked for and made, the files of [names] are read,
    asked for at a base, and written with bytes the manifest asks for. *)
Definition confined (digest : list Z -> list Z) (configDir : option string)
    (pluginId : string) (m : Json) (names : list string) (isSource : string -> Prop)
    (e : Effect) : Prop :=
  match e with
  | ExistsAt p | Mkdir p => p = dictDir configDir pluginId
  | ReadBinary p => exists name, name ∈ names /\ p = relOf configDir pluginId name
  | WriteBinary p data =>
      exists name, name ∈ names /\ p = relOf configDir pluginId name
        /\ verified digest (prop m name) data
  | RequestUrl url =>
      exists name base, name ∈ names /\ isSource base /\ url = urlOf base name
  | Sleep ms => ms = 800 \/ ms = 1600
  end.

(** No request, no pause and no write. *)
Definition quiet (e : Effect) : Prop :=
  match e with
  | RequestUrl _ | Sleep _ | WriteBinary _ _ => False
  | _ => True
  end.

(** What [fetchWithFallback] does when every request fails: on each base
    in turn a request, then after 800 ms a second, then after 1600 ms a
    third. *)
Definition schedule (fileName : string) (bases : list string) : list Effect :=
  flat_map (fun base =>
              let url := urlOf base fileName in
              [RequestUrl url; Sleep 800; RequestUrl url; Sleep 1600; RequestUrl url])
    bases.

(** Every request among [done], made after [tr], was rejected. *)
Fixpoint allRejected (env : Env) (tr done : list Effect) : Prop :=
  match done with
  | [] => True
  | e :: rest =>
      match e with
      | RequestUrl url => requestAns env tr url = None
      | _ => True
      end
      /\ allRejected env (tr ++ [e]) rest
  end.

(** The error [fetchWithFallback] throws when every request fails. *)
Definition lastError (fileName : string) (bases : list string) : Error :=
  match last bases with
  | Some base => Rejected (RequestUrl (urlOf base fileName))
  | None => AllSourcesFailed
  end.

(** The content of the file at [p] after the effects [tr], in a vault that
    held [init] before: what the last write to [p] handed over. *)
Definition written (p : string) (e : Effect) : option (list Z) :=
  match e with
  | WriteBinary q data => if String.eqb q p then Some data else None
  | _ => None
  end.

Definition fileAt (init : string -> option (list Z)) (tr : list Effect) (p : string)
    : option (list Z) :=
  match last (omap (written p) tr) with
  | Some data => Some data
  | None => init p
  end.

(** A digest written in lower-case hexadecimal. *)
Definition isHexChar (c : ascii) : bool :=
  existsb (Ascii.eqb c) (list_ascii_of_string "0123456789abcdef").

Fixpoint isLowerHex (s : string) : bool :=
  match s with
  | EmptyString => true
  | String c r => isHexChar c && isLowerHex r
  end.

End InstallProps.

(** ** Predicates of the statements on the tokenizer initializer *)

Module InitProps.

Import KuromojiInit.

(** The patch of [open] is in place exactly while one build is on its way:
    with no build pending the method is the browser's and [building] is
    off; otherwise one build is pending, started on the browser's method,
    [building] is on and no tokenizer is there yet. *)
Definition balanced {Tokenizer : Type} (st : State Tokenizer) : Prop :=
  match pending _ st with
  | [] => building _ st = false /\ xhrOpen _ st = Native
  | [origOpen] =>
      origOpen = Native /\ building _ st = true /\ tokenizer _ st = None
      /\ exists urlMap, xhrOpen _ st = Patched urlMap Native
  | _ => False
  end.

End InitProps.

(** ** Documents, views and trees of the examples *)

Module Examples.

Import LivePreview.

(** The line [a`b`c``d]: the span of the single backticks is recorded, the
    double backtick has no closer and records nothing. *)
Definition unterminatedLine : jsstring := [97; 96; 98; 96; 99; 96; 96; 100].

(** Two kanji, U+6F22 U+5B57. *)
Definition kanji2 : jsstring := [28450; 23383].

(** A fence, two kanji inside it, the closing fence, two kanji after it;
    the viewport starts at the second line and the caret is at 0. *)
Definition fencedView : EditorView :=
  {| doc := [[96; 96; 96]; kanji2; [96; 96; 96]; kanji2];
     viewport := (4, 13);
     selection := [{| anchor := 0; head := 0 |}];
     composing := false |}.

(** The line [kanji kanji space a b c] with the caret at [pos]. *)
Definition caretView (pos : Z) (composing : bool) : EditorView :=
  {| doc := [kanji2 ++ [32; 97; 98; 99]];
     viewport := (0, 6);
     selection := [{| anchor := pos; head := pos |}];
     composing := composing |}.

(** The scenario line of the specification, then a line [abc] with the
    caret at its end. *)
Definition scenarioLine : jsstring :=
  [20170; 26085; 12399; 123; 28450; 23383; 124; 12363; 12435; 124; 12376; 125;
   12434; 21193; 24375; 12375; 12383; 12290].

Definition scenarioView : EditorView :=
  {| doc := [scenarioLine; [97; 98; 99]];
     viewport := (0, 22);
     selection := [{| anchor := 22; head := 22 |}];
     composing := false |}.

(** A line that is one manual span, [{kanji kanji|ka n|ji}], then a line
    [abc] with the caret at its end. *)
Definition manualFirstView : EditorView :=
  {| doc := [[123; 28450; 23383; 124; 12363; 12435; 124; 12376; 125]; [97; 98; 99]];
     viewport := (0, 13);
     selection := [{| anchor := 13; head := 13 |}];
     composing := false |}.

(** A fence whose opener carries its info string, [```js]; two kanji
    inside the block, the closing fence, two kanji after it. The viewport
    starts at the second line and the caret is at 0. *)
Definition infoFenceView : EditorView :=
  {| doc := [[96; 96; 96; 106; 115]; kanji2; [96; 96; 96]; kanji2];
     viewport := (6, 15);
     selection := [{| anchor := 0; head := 0 |}];
     composing := false |}.

(** An update that carries no change of document, selection or viewport and
    no transaction. *)
Definition idleUpdate : ViewUpdate :=
  {| docChanged := false; selectionSet := false; viewportChanged := false;
     transactions := []; updateView := O |}.

(** The note [note.md] has [auto-furigana: false] in its frontmatter and is
    shown by the editor view 0. *)
Definition skippedApp : SkipOption.App :=
  {| SkipOption.metadataCache :=
       {[ "note.md" :=
            {| SkipOption.frontmatter :=
                 Some {[ "auto-furigana" := SkipOption.JSBool false ]} |} ]};
     SkipOption.leaves :=
       [{| SkipOption.leafEditor := Some O; SkipOption.leafPath := Some "note.md" |}] |}.

(** The manual span [{kanji kanji|ka n ji}] with one reading. *)
Definition manualSpan : jsstring := [123; 28450; 23383; 124; 12363; 12435; 12376; 125].

(** The span [{kanji kanji|ka|n|ji}] of the specification: three readings
    for a base of two characters. *)
Definition mismatchedBody : jsstring :=
  [28450; 23383; 124; 12363; 124; 12435; 124; 12376].

(** A paragraph that holds two kanji and an annotation already in place;
    the converter puts every collected text under a reading of its own. *)
Definition annotatedBlock : Dom.Node :=
  Dom.Element "p"
    [ Dom.TextNode kanji2;
      Dom.Element "ruby"
        [ Dom.Element "rb" [Dom.TextNode kanji2]; Dom.Element "rt" [Dom.TextNode [12363]] ] ].

(** A paragraph inside a [pre] inside the container the postprocessor is
    given. *)
Definition preContainer : Dom.Node :=
  Dom.Element "div" [Dom.Element "pre" [Dom.Element "p" [Dom.TextNode kanji2]]].

End Examples.

(** ** A vault, a network and a manifest for the examples *)

Module InstallExamples.

Import Vault DictInstaller InstallProps ManifestScript KuromojiInit.

(** A digest of two bytes that stands in for SHA-256: the length and the
    sum of the bytes. *)
Definition sumDigest (buf : list Z) : list Z :=
  [Z.of_nat (length buf) mod 256; foldr Z.add 0 buf mod 256].

Definition gzBytes : list Z := [31; 139; 8].

Definition manifestWith (sha : string) : Json :=
  JObj (<["sources"%string := JArr [JStr "https://example.org/dict"]]>
          (<["base.dat.gz"%string :=
               JObj (<["sha256"%string := JStr sha]>
                       (<["bytes"%string := JNum 3]> ∅))]> ∅)).

(** The digest of [gzBytes] is [03b2]. *)
Definition oneFileManifest : Json := manifestWith "03b2".
Definition upperCaseManifest : Json := manifestWith "03B2".

Definition emptyVault : string -> option (list Z) := fun _ => None.

Definition server (url : string) : option (list Z) :=
  if String.eqb url "https://example.org/dict/base.dat.gz" then Some gzBytes else None.

(** A vault that starts empty and keeps what is written to it, and a
    network that answers only after the installer has paused once. *)
Definition flakyEnv : Env := {|
  existsAns := fun _ _ => Some false;
  mkdirAns := fun _ _ => true;
  readAns := fileAt emptyVault;
  writeAns := fun _ _ _ => true;
  requestAns := fun tr url =>
    if existsb (fun e => match e with Sleep _ => true | _ => false end) tr
    then server url else None
|}.

(** A vault in which every file holds [gzBytes], and no network. *)
Definition filledEnv : Env := {|
  existsAns := fun _ _ => Some true;
  mkdirAns := fun _ _ => true;
  readAns := fun _ _ => Some gzBytes;
  writeAns := fun _ _ _ => true;
  requestAns := fun _ _ => None
|}.

(** The directory the script reads, and a manifest that is there already
    and holds overrides. *)
Definition dictDirectory : list Dirent :=
  [ {| direntName := "base.dat.gz"; direntIsFile := true; direntContent := gzBytes |};
    {| direntName := "README.md"; direntIsFile := true; direntContent := [35] |} ].

Definition mirrorOverrides : Json :=
  JObj {[ "base.dat.gz"%string := JStr "https://mirror.example.org" ]}.

Definition manifestWithOverrides : Json :=
  JObj {[ "_overrides"%string := mirrorOverrides ]}.

Definition defaultEnv : ProcessEnv := {| OWNER := None; REPO := None; TAG := None |}.

End InstallExamples.

(** * Properties *)

(** ** Outcomes *)

Definition rmap {A B : Type} (f : A -> B) (r : result A) : result B :=
  match r with
  | Ok a => Ok (f a)
  | Throw => Throw
  | OutOfFuel => OutOfFuel
  end.

Lemma result_bind_Ok {A B : Type} (k : A -> result B) (a : A) : Ok a ≫= k = k a.
Proof. reflexivity. Qed.

Lemma bind_Ok {A B : Type} (r : result A) (k : A -> result B) (b : B) :
  r ≫= k = Ok b -> exists a, r = Ok a /\ k a = Ok b.
Proof. destruct r; simpl; intros H; try discriminate. eauto. Qed.

(** ** The inline code scanner *)

Module BacktickFacts.

Import LivePreview Props Examples.

Lemma isTickAt_lt s i : isTickAt s i = true -> (i < length s)%nat.
Proof.
  unfold isTickAt. destruct (s !! i) eqn:E; [|discriminate].
  intros _. eapply lookup_lt_Some; eauto.
Qed.

(** The run loop ends by its own test, on the first position that holds
    no backtick. *)
Lemma growRun_spec s i : forall fuel r,
  (length s - (i + r) < fuel)%nat ->
  exists n, growRun fuel s i r = Ok n /\ (r <= n)%nat
    /\ (forall x, (i + r <= x < i + n)%nat -> isTickAt s x = true)
    /\ isTickAt s (i + n) = false.
Proof.
  induction fuel as [|fuel IH]; intros r Hf; [lia|].
  simpl. destruct (bool_decide (i + r < length s)%nat && isTickAt s (i + r)) eqn:E.
  - apply andb_true_iff in E as [E1 E2]. apply bool_decide_eq_true in E1.
    destruct (IH (S r)) as (n & Hn & Hle & Hall & Hend); [lia|].
    exists n. split; [exact Hn|]. split; [lia|]. split; [|exact Hend].
    intros x Hx. destruct (decide (x = (i + r)%nat)) as [->|Hne]; [exact E2|].
    apply Hall. lia.
  - exists r. split; [reflexivity|]. split; [lia|]. split; [intros x Hx; lia|].
    apply andb_false_iff in E as [E|E]; [|exact E].
    apply bool_decide_eq_false in E.
    destruct (isTickAt s (i + r)) eqn:T; [|reflexivity].
    apply isTickAt_lt in T. lia.
Qed.

(** The length of the run of backticks an opener or a candidate closer
    starts, as the scanner reads it. *)
Lemma runLen_spec s i :
  isTickAt s i = true ->
  exists n, growRun (S (length s)) s i 1 = Ok n /\ (1 <= n)%nat
    /\ (forall x, (i <= x < i + n)%nat -> isTickAt s x = true)
    /\ isTickAt s (i + n) = false.
Proof.
  intros T. destruct (growRun_spec s i (S (length s)) 1) as (n & Hn & Hle & Hall & Hend); [lia|].
  exists n. split; [exact Hn|]. split; [exact Hle|]. split; [|exact Hend].
  intros x Hx. destruct (decide (x = i)) as [->|Hne]; [exact T|]. apply Hall. lia.
Qed.

(** Where the scanner may stand: never inside a run it has not read from
    its start. *)
Definition boundary (s : jsstring) (p : nat) : Prop :=
  p = O \/ isTickAt s (p - 1) = false \/ isTickAt s p = false.

Lemma runAt_tick s j k : runAt s j k -> isTickAt s j = true.
Proof. intros (Hk & _ & Hall & _). apply Hall. lia. Qed.

Lemma runAt_unique s j k n :
  runAt s j k ->
  (forall x, (j <= x < j + n)%nat -> isTickAt s x = true) ->
  isTickAt s (j + n) = false -> n = k.
Proof.
  intros (Hk & _ & Hall & Hend) Hall' Hend'.
  destruct (Nat.lt_trichotomy n k) as [Hlt|[->|Hgt]]; [|reflexivity|].
  - rewrite Hall in Hend'; [discriminate|lia].
  - rewrite Hall' in Hend; [discriminate|lia].
Qed.

Lemma runAt_runLen s j k : runAt s j k -> growRun (S (length s)) s j 1 = Ok k.
Proof.
  intros H. destruct (runLen_spec s j (runAt_tick _ _ _ H)) as (n & Hn & _ & Hall & Hend).
  rewrite Hn. f_equal. eapply runAt_unique; eauto.
Qed.

Lemma runAt_inside s p n j k :
  (forall x, (p <= x < p + n)%nat -> isTickAt s x = true) ->
  (p < j < p + n)%nat -> ~ runAt s j k.
Proof.
  intros Hall Hj (_ & [->|Hprev] & _); [lia|].
  rewrite Hall in Hprev; [discriminate|lia].
Qed.

(** The search for a closer ends by its own test; it finds the first later
    run of the opener's length, or none when there is none. *)
Lemma findClose_spec s k : forall fuel p,
  (length s - p < fuel)%nat -> boundary s p ->
  exists c i', findClose fuel s k p = Ok (c, i') /\
    match c with
    | Some j => (p <= j)%nat /\ runAt s j k /\ i' = (j + k)%nat
                /\ forall j', (p <= j' < j)%nat -> ~ runAt s j' k
    | None => (length s <= i')%nat /\ forall j, (p <= j)%nat -> ~ runAt s j k
    end.
Proof.
  induction fuel as [|fuel IH]; intros p Hf Hb; [lia|].
  cbn [findClose]. destruct (bool_decide (p < length s)%nat) eqn:Hlt.
  - apply bool_decide_eq_true in Hlt. destruct (isTickAt s p) eqn:T.
    + destruct (runLen_spec s p T) as (n & Hn & Hn1 & Hall & Hend).
      rewrite Hn, result_bind_Ok. destruct (bool_decide (n = k)) eqn:E.
      * apply bool_decide_eq_true in E. subst n.
        exists (Some p), (p + k)%nat. split; [reflexivity|].
        split; [lia|]. split; [|split; [reflexivity|intros j' Hj'; lia]].
        split; [exact Hn1|]. split; [|split; [exact Hall|exact Hend]].
        destruct Hb as [Hb|[Hb|Hb]]; [left; exact Hb|right; exact Hb|congruence].
      * apply bool_decide_eq_false in E.
        destruct (IH (p + n)%nat) as (c & i' & Hc & Hpost); [lia|right; right; exact Hend|].
        exists c, i'. split; [exact Hc|].
        assert (Hfirst : forall j', (p <= j' < p + n)%nat -> ~ runAt s j' k).
        { intros j' Hj'. destruct (decide (j' = p)) as [->|Hne].
          - intros R. apply E. eapply runAt_unique; eauto.
          - eapply runAt_inside; [exact Hall|lia]. }
        destruct c as [j|].
        -- destruct Hpost as (Hj & Hrun & Hi' & Hmin).
           split; [lia|]. split; [exact Hrun|]. split; [exact Hi'|].
           intros j' Hj'. destruct (decide (j' < p + n)%nat); [apply Hfirst; lia|apply Hmin; lia].
        -- destruct Hpost as (Hi' & Hno). split; [exact Hi'|].
           intros j Hj. destruct (decide (j < p + n)%nat); [apply Hfirst; lia|apply Hno; lia].
    + destruct (IH (p + 1)%nat) as (c & i' & Hc & Hpost); [lia| |].
      { right; left. replace (p + 1 - 1)%nat with p by lia. exact T. }
      exists c, i'. split; [exact Hc|].
      assert (Hp : ~ runAt s p k).
      { intros R. apply runAt_tick in R. congruence. }
      destruct c as [j|].
      * destruct Hpost as (Hj & Hrun & Hi' & Hmin).
        split; [lia|]. split; [exact Hrun|]. split; [exact Hi'|].
        intros j' Hj'. destruct (decide (j' = p)) as [->|Hne]; [exact Hp|apply Hmin; lia].
      * destruct Hpost as (Hi' & Hno). split; [exact Hi'|].
        intros j Hj. destruct (decide (j = p)) as [->|Hne]; [exact Hp|apply Hno; lia].
  - apply bool_decide_eq_false in Hlt.
    exists None, p. split; [reflexivity|]. split; [lia|].
    intros j Hj R. apply runAt_tick, isTickAt_lt in R. lia.
Qed.

Lemma boundary_tick_runAt s p n :
  boundary s p -> (1 <= n)%nat ->
  (forall x, (p <= x < p + n)%nat -> isTickAt s x = true) ->
  isTickAt s (p + n) = false -> runAt s p n.
Proof.
  intros Hb Hn Hall Hend. split; [exact Hn|]. split; [|split; [exact Hall|exact Hend]].
  destruct Hb as [Hb|[Hb|Hb]]; [left; exact Hb|right; exact Hb|].
  rewrite Hall in Hb; [discriminate|lia].
Qed.

(** The scan of a line ends by its own test, keeps what was recorded and
    adds code spans only. *)
Lemma scanTicks_spec s : forall fuel i r,
  (length s - i < fuel)%nat -> boundary s i ->
  exists out, scanTicks fuel s i r = Ok out /\
    exists added, out = r ++ added /\
      Forall (fun '(a, b) => (i <= a)%nat /\ closedSpan s a b) added.
Proof.
  induction fuel as [|fuel IH]; intros i r Hf Hb; [lia|].
  cbn [scanTicks]. destruct (bool_decide (i < length s)%nat) eqn:Hlt.
  - apply bool_decide_eq_true in Hlt. destruct (isTickAt s i) eqn:T.
    + destruct (runLen_spec s i T) as (n & Hn & Hn1 & Hall & Hend).
      rewrite Hn, result_bind_Ok.
      assert (Hrun : runAt s i n) by (eapply boundary_tick_runAt; eauto).
      destruct (findClose_spec s n (S (length s)) (i + n)%nat) as (c & i' & Hc & Hpost);
        [lia|right; right; exact Hend|].
      rewrite Hc, result_bind_Ok. cbv beta match. destruct c as [j|].
      * destruct Hpost as (Hj & Hrunj & Hi' & Hmin). subst i'.
        destruct (IH (j + n)%nat (r ++ [(i, (j + n)%nat)])) as (out & Hout & added & Hadd & Hall');
          [lia|right; right; apply Hrunj|].
        exists out. split; [exact Hout|]. exists ((i, (j + n)%nat) :: added).
        split; [rewrite Hadd, <- app_assoc; reflexivity|].
        constructor.
        -- split; [lia|]. exists n, j. auto.
        -- eapply Forall_impl; [exact Hall'|]. intros [a b] [Ha Hcl]. split; [lia|exact Hcl].
      * destruct Hpost as (Hi' & Hno).
        destruct (IH i' r) as (out & Hout & added & Hadd & Hall'); [lia| |].
        { right; right. destruct (isTickAt s i') eqn:T'; [|reflexivity].
          apply isTickAt_lt in T'. lia. }
        exists out. split; [exact Hout|]. exists added. split; [exact Hadd|].
        eapply Forall_impl; [exact Hall'|]. intros [a b] [Ha Hcl]. split; [lia|exact Hcl].
    + destruct (IH (i + 1)%nat r) as (out & Hout & added & Hadd & Hall'); [lia| |].
      { right; left. replace (i + 1 - 1)%nat with i by lia. exact T. }
      exists out. split; [exact Hout|]. exists added. split; [exact Hadd|].
      eapply Forall_impl; [exact Hall'|]. intros [a b] [Ha Hcl]. split; [lia|exact Hcl].
  - exists r. split; [reflexivity|]. exists []. split; [rewrite app_nil_r; reflexivity|constructor].
Qed.

Lemma inlineBacktickRanges_total s :
  exists ranges, inlineBacktickRanges s = Ok ranges /\ Forall (fun '(a, b) => closedSpan s a b) ranges.
Proof.
  destruct (scanTicks_spec s (S (length s)) O []) as (out & Hout & added & Hadd & Hall);
    [lia|left; reflexivity|].
  exists out. split; [exact Hout|]. simpl in Hadd. subst out.
  eapply Forall_impl; [exact Hall|]. intros [a b] [_ H]. exact H.
Qed.

(** An opener without a closer ends the scan: nothing is recorded for it,
    and nothing after it. *)
Lemma scanTicks_unterminated s i k r : forall fuel,
  (length s - i < fuel)%nat ->
  runAt s i k -> (forall j, (i + k <= j)%nat -> ~ runAt s j k) ->
  scanTicks fuel s i r = Ok r.
Proof.
  intros fuel Hf Hrun Hno. pose proof (runAt_tick _ _ _ Hrun) as T.
  pose proof (isTickAt_lt _ _ T) as Hlt.
  destruct fuel as [|fuel]; [lia|]. cbn [scanTicks].
  rewrite bool_decide_eq_true_2 by exact Hlt. rewrite T.
  rewrite (runAt_runLen _ _ _ Hrun), result_bind_Ok.
  destruct (findClose_spec s k (S (length s)) (i + k)%nat) as (c & i' & Hc & Hpost);
    [lia|right; right; apply Hrun|].
  rewrite Hc, result_bind_Ok. cbv beta match. destruct c as [j|].
  - destruct Hpost as (Hj & Hrunj & _). exfalso. exact (Hno j Hj Hrunj).
  - destruct Hpost as (Hi' & _). destruct fuel as [|fuel]; [lia|]. cbn [scanTicks].
    rewrite bool_decide_eq_false_2 by lia. reflexivity.
Qed.

(** One turn of the loop, as the code takes it. *)
Lemma scanTicks_step s st st' :
  scanStep s st st' -> forall fuel, (length s - st.1 < fuel)%nat ->
  (st.1 < st'.1)%nat /\ boundary s st'.1 /\
  exists fuel', (length s - st'.1 < fuel')%nat
    /\ scanTicks fuel s st.1 st.2 = scanTicks fuel' s st'.1 st'.2.
Proof.
  intros [i r Hlt T|i r b (k & j & Hrun & Hrunj & Hj & -> & Hmin)] fuel Hf; simpl in *.
  - split; [lia|]. split.
    { right; left. replace (i + 1 - 1)%nat with i by lia. exact T. }
    destruct fuel as [|fuel]; [lia|]. exists fuel. split; [lia|]. cbn [scanTicks].
    rewrite bool_decide_eq_true_2 by exact Hlt. rewrite T. reflexivity.
  - pose proof (runAt_tick _ _ _ Hrun) as T. pose proof (isTickAt_lt _ _ T) as Hlt.
    destruct Hrun as (Hk & Hrun'). split; [lia|]. split; [right; right; apply Hrunj|].
    destruct fuel as [|fuel]; [lia|]. exists fuel. split; [lia|]. cbn [scanTicks].
    rewrite bool_decide_eq_true_2 by exact Hlt. rewrite T.
    rewrite (runAt_runLen s i k) by (split; assumption). rewrite result_bind_Ok.
    destruct (findClose_spec s k (S (length s)) (i + k)%nat) as (c & i' & Hc & Hpost);
      [lia|right; right; apply Hrun'|].
    rewrite Hc, result_bind_Ok. cbv beta match. destruct c as [j0|].
    + destruct Hpost as (Hj0 & Hrunj0 & -> & Hmin0).
      assert (j0 = j) as ->.
      { destruct (Nat.lt_trichotomy j0 j) as [H|[H|H]]; [|exact H|].
        - exfalso. apply (Hmin j0); [lia|exact Hrunj0].
        - exfalso. apply (Hmin0 j); [lia|exact Hrunj]. }
      reflexivity.
    + destruct Hpost as (_ & Hno). exfalso. exact (Hno j Hj Hrunj).
Qed.

Lemma scanTicks_steps s st st' :
  rtc (scanStep s) st st' -> boundary s st.1 ->
  forall fuel, (length s - st.1 < fuel)%nat ->
  boundary s st'.1 /\
  exists fuel', (length s - st'.1 < fuel')%nat
    /\ scanTicks fuel s st.1 st.2 = scanTicks fuel' s st'.1 st'.2.
Proof.
  induction 1 as [st|st st1 st' Hstep Hrest IH]; intros Hb fuel Hf.
  - split; [exact Hb|]. exists fuel. split; [exact Hf|reflexivity].
  - destruct (scanTicks_step _ _ _ Hstep fuel Hf) as (_ & Hb1 & fuel1 & Hf1 & E1).
    destruct (IH Hb1 fuel1 Hf1) as (Hb' & fuel' & Hf' & E').
    split; [exact Hb'|]. exists fuel'. split; [exact Hf'|]. rewrite E1. exact E'.
Qed.

Lemma scanStep_ends s st st' :
  rtc (scanStep s) st st' ->
  Forall (fun '(a, b) => (b <= st.1)%nat) st.2 ->
  Forall (fun '(a, b) => (b <= st'.1)%nat) st'.2.
Proof.
  induction 1 as [st|st st1 st' Hstep _ IH]; intros Hall; [exact Hall|].
  apply IH. destruct Hstep as [i r Hlt T|i r b (k & j & Hrun & _ & Hj & -> & _)]; simpl in *.
  - eapply Forall_impl; [exact Hall|]. intros [a b] Hb. lia.
  - apply Forall_app. split.
    + eapply Forall_impl; [exact Hall|]. intros [a b] Hb. lia.
    + constructor; [lia|constructor].
Qed.

Lemma hitsCode_before (ranges : list (nat * nat)) (i : nat) (x y : Z) :
  Forall (fun '(a, b) => (b <= i)%nat) ranges ->
  Z.of_nat i <= x -> hitsCode ranges x y = false.
Proof.
  intros Hall Hx. unfold hitsCode. induction Hall as [|[a b] rest Hb _ IH]; [reflexivity|].
  simpl. rewrite IH, orb_false_r. unfold overlaps.
  apply andb_false_iff. left. apply Z.ltb_ge. lia.
Qed.

(** At an opening run that it reaches and that has no later run of its
    length, the search for the closing run goes to the end of the line and
    the scan is over, with the ranges recorded before the opener: a span
    that opens and closes after such an opener is not recorded. *)
Lemma scan_over_at_unterminated (s : jsstring) (i k : nat) (r : list (nat * nat)) :
  rtc (scanStep s) (O, []) (i, r) ->
  runAt s i k ->
  (forall j, (i + k <= j)%nat -> ~ runAt s j k) ->
  inlineBacktickRanges s = Ok r
  /\ forall x y, Z.of_nat i <= x -> hitsCode r x y = false.
Proof.
  intros Hreach Hrun Hno.
  destruct (scanTicks_steps s _ _ Hreach (or_introl eq_refl) (S (length s)))
    as (_ & fuel' & Hf' & E); [simpl; lia|]. cbn [fst snd] in E, Hf'.
  split.
  - unfold inlineBacktickRanges. rewrite E. eapply scanTicks_unterminated; eauto.
  - intros x y Hx. eapply hitsCode_before; [|exact Hx].
    apply (scanStep_ends s _ _ Hreach). constructor.
Qed.

(** On the line [``a `b`] the double backtick has no closer, and the span
    of the single backticks after it is not recorded. *)
Example closed_span_after_unterminated :
  inlineBacktickRanges [96; 96; 97; 32; 96; 98; 96] = Ok [].
Proof. reflexivity. Qed.

(** C8, as the code has it. Scanning a line for inline code never throws:
    it ends with a list of ranges, each an opening run together with the
    first later run of exactly the same length. An opening run that has no
    later run of its length opens no range: no range of the list starts
    at it, so it is not taken for a code span that extends to the end of
    the line. *)
Theorem inline_code_unterminated_opener (s : jsstring) :
  (exists ranges, inlineBacktickRanges s = Ok ranges
     /\ Forall (fun '(a, b) => closedSpan s a b) ranges)
  /\ forall (i k : nat),
       runAt s i k ->
       (forall j, (i + k <= j)%nat -> ~ runAt s j k) ->
       forall ranges, inlineBacktickRanges s = Ok ranges ->
       forall a b, In (a, b) ranges -> a <> i.
Proof.
  split; [apply inlineBacktickRanges_total|].
  intros i k Hrun Hno ranges Hr a b Hin ->.
  destruct (inlineBacktickRanges_total s) as (ranges' & Hr' & Hall).
  rewrite Hr in Hr'. injection Hr' as <-.
  rewrite Forall_forall in Hall. apply list_elem_of_In in Hin.
  specialize (Hall _ Hin). cbv beta match in Hall.
  destruct Hall as (k' & j & (Hk' & _ & Htick & Hend) & Hrunj & Hj & _ & _).
  assert (k' = k) as -> by (apply (runAt_unique s i k k' Hrun Htick Hend)).
  exact (Hno j Hj Hrunj).
Qed.

Lemma unterminatedLine_ticks x :
  isTickAt unterminatedLine x = true <-> x = 1%nat \/ x = 3%nat \/ x = 5%nat \/ x = 6%nat.
Proof.
  split.
  - intros T. pose proof (isTickAt_lt _ _ T) as Hlt. simpl in Hlt.
    do 8 (destruct x as [|x]; [try discriminate T; tauto|]). lia.
  - intros [-> | [-> | [-> | ->]]]; reflexivity.
Qed.

(** On the line [a`b`c``d] no range starts at the double backtick. *)
Lemma inline_code_unterminated_opener_witness :
  inlineBacktickRanges unterminatedLine = Ok [(1%nat, 4%nat)]
  /\ In (1%nat, 4%nat) [(1%nat, 4%nat)]
  /\ 1%nat <> 5%nat.
Proof.
  split; [reflexivity|]. split; [left; reflexivity|].
  apply (proj2 (inline_code_unterminated_opener unterminatedLine) 5%nat 2%nat)
    with (ranges := [(1%nat, 4%nat)]) (b := 4%nat).
  - repeat split; try lia.
    + right. reflexivity.
    + intros x Hx. apply unterminatedLine_ticks. lia.
  - intros j Hj R. apply runAt_tick, unterminatedLine_ticks in R. lia.
  - reflexivity.
  - left. reflexivity.
Defined.

(** C8 as stated fails on the line made of a backtick and two kanji: the
    opener has no closer, yet no range is returned, so the text after the
    opener is not excluded. *)
Lemma inline_code_unterminated_not_excluded :
  runAt [96; 28450; 23383] O 1
  /\ (forall j, (1 <= j)%nat -> ~ runAt [96; 28450; 23383] j 1)
  /\ inlineBacktickRanges [96; 28450; 23383] = Ok []
  /\ ~ (exists ranges, inlineBacktickRanges [96; 28450; 23383] = Ok ranges
          /\ hitsCode ranges 1 3 = true).
Proof.
  split; [|split; [|split]].
  - repeat split; try lia.
    intros x Hx. assert (x = O) as -> by lia. reflexivity.
  - intros j Hj R. apply runAt_tick in R. pose proof (isTickAt_lt _ _ R) as Hlt. simpl in Hlt.
    destruct j as [|[|[|j]]]; try discriminate R; lia.
  - reflexivity.
  - intros (ranges & H & Hit). vm_compute in H. injection H as <-. discriminate Hit.
Qed.

End BacktickFacts.

(** ** The decoration builder *)

Module BuildFacts.

Import LivePreview Props.

(** *** The builder *)

Lemma result_bind_assoc {A B C : Type} (r : result A) (f : A -> result B)
    (g : B -> result C) :
  (r ≫= f) ≫= g = r ≫= (fun a => f a ≫= g).
Proof. destruct r; reflexivity. Qed.

Lemma addInner_fuel layer d : addInner layer d <> OutOfFuel.
Proof.
  unfold addInner. destruct (last layer) as [l|].
  - destruct (_ && _); discriminate.
  - destruct (_ =? 0); [discriminate|]. destruct (_ && _); discriminate.
Qed.

Lemma builderAdd_fuel d : forall b, builderAdd b d <> OutOfFuel.
Proof.
  induction b as [|layer next IH]; simpl.
  - destruct (addInner [] d) as [[|]| |]; discriminate.
  - pose proof (addInner_fuel layer d) as Hf.
    destruct (addInner layer d) as [[|]| |]; simpl; try discriminate; [|congruence].
    destruct (builderAdd next d); simpl; [discriminate|discriminate|congruence].
Qed.

Lemma addAll_fuel ds : forall b, addAll b ds <> OutOfFuel.
Proof.
  induction ds as [|d ds IH]; intros b; simpl; [discriminate|].
  pose proof (builderAdd_fuel d b) as Hf.
  destruct (builderAdd b d); simpl; [apply IH|discriminate|congruence].
Qed.

(** The builder loses and invents nothing: the ranges it holds are those
    it was given. *)
Lemma builderAdd_perm d : forall b b',
  builderAdd b d = Ok b' -> concat b' ≡ₚ concat b ++ [d].
Proof.
  induction b as [|layer next IH]; intros b' H; simpl in H.
  - destruct (addInner [] d) as [[|]| |]; try discriminate. injection H as <-. reflexivity.
  - destruct (addInner layer d) as [[|]| |]; simpl in H; try discriminate.
    + injection H as <-. simpl. rewrite <- !app_assoc.
      apply Permutation_app_head, Permutation_app_comm.
    + destruct (builderAdd next d) as [rest| |] eqn:E; simpl in H; try discriminate.
      injection H as <-. simpl. rewrite (IH _ eq_refl), app_assoc. reflexivity.
Qed.

Lemma addAll_perm ds : forall b b',
  addAll b ds = Ok b' -> concat b' ≡ₚ concat b ++ ds.
Proof.
  induction ds as [|d ds IH]; intros b b' H; simpl in H.
  - injection H as <-. rewrite app_nil_r. reflexivity.
  - apply bind_Ok in H as (b1 & H1 & H).
    rewrite (IH _ _ H), (builderAdd_perm _ _ _ H1), <- app_assoc. reflexivity.
Qed.

Lemma addAll_app b ds1 : forall ds2 b0,
  b0 = b ->
  addAll b0 (ds1 ++ ds2) = addAll b ds1 ≫= (fun b' => addAll b' ds2).
Proof.
  intros ds2 b0 ->. revert b.
  induction ds1 as [|d ds1 IH]; intros b; simpl; [reflexivity|].
  destruct (builderAdd b d); simpl; [apply IH|reflexivity|reflexivity].
Qed.

(** A range that starts at or after the end of the last one is put into
    the same layer. *)
Lemma addInner_after layer d :
  0 <= decoFrom d ->
  match last layer with Some l => decoTo l <= decoFrom d | None => True end ->
  addInner layer d = Ok true.
Proof.
  intros H0 Hl. unfold addInner. destruct (last layer) as [l|].
  - destruct (decoFrom d - decoTo l =? 0) eqn:E.
    + reflexivity.
    + apply Z.eqb_neq in E.
      rewrite (proj2 (Z.leb_gt _ _)) by lia. simpl.
      rewrite (proj2 (Z.ltb_ge _ _)) by lia. reflexivity.
  - unfold FAR. rewrite (proj2 (Z.eqb_neq _ _)) by lia.
    rewrite (proj2 (Z.leb_gt _ _)) by lia. simpl.
    rewrite (proj2 (Z.ltb_ge _ _)) by lia. reflexivity.
Qed.

(** Ranges that come in ascending order without overlap make one layer,
    in the order they came. *)
Lemma addAll_ascending ds : forall layer,
  Forall (fun d => 0 <= decoFrom d) ds ->
  ascending ds = true ->
  match last layer, ds with
  | Some l, d :: _ => decoTo l <= decoFrom d
  | _, _ => True
  end ->
  addAll [layer] ds = Ok [layer ++ ds].
Proof.
  induction ds as [|d ds IH]; intros layer H0 Ha Hl.
  - simpl. rewrite app_nil_r. reflexivity.
  - apply Forall_cons in H0 as [Hd H0].
    cbn [addAll builderAdd]. rewrite (addInner_after layer d Hd Hl).
    simpl. rewrite IH; [rewrite <- app_assoc; reflexivity|exact H0| |].
    + cbn [ascending] in Ha. apply andb_true_iff in Ha as [_ Ha]. exact Ha.
    + rewrite last_snoc. destruct ds as [|d' ds]; [exact I|].
      cbn [ascending] in Ha. apply andb_true_iff in Ha as [Ha _].
      apply andb_true_iff in Ha as [_ Ha]. lia.
Qed.

Section Builder.


Variable getManualRegex : NotationStyle -> Regex.
Variable getAutoRegex : Regex.

Local Abbreviation build := (buildDecorations getManualRegex getAutoRegex).
Local Abbreviation walk := (walkLines getManualRegex getAutoRegex).


Lemma addMatches_addAll lf cs nd ms : forall b,
  addMatches lf cs nd ms b = addAll b (omap (decorate lf cs nd) ms).
Proof.
  induction ms as [|m ms IH]; intros b; [reflexivity|].
  change (omap (decorate lf cs nd) (m :: ms))
    with (match decorate lf cs nd m with
          | Some y => y :: omap (decorate lf cs nd) ms
          | None => omap (decorate lf cs nd) ms
          end).
  cbn [addMatches]. unfold decorate at 1.
  destruct (bool_decide (m0 m = [])); [apply IH|].
  destruct (hitsCode cs _ _); [apply IH|].
  destruct (hitsZone nd _ _); [apply IH|].
  cbn [addAll]. destruct (builderAdd b _); simpl; [apply IH|reflexivity|reflexivity].
Qed.

Lemma scanLine_spec nd style lf text fence b :
  scanLine getManualRegex getAutoRegex nd style lf text fence b
  = addAll b (if negb fence && AUTO_QUICK text
              then lineDecos getManualRegex getAutoRegex nd style lf text else []).
Proof.
  unfold scanLine, lineDecos, codeSpansOf.
  destruct (negb fence && AUTO_QUICK text); [|reflexivity].
  destruct (BacktickFacts.inlineBacktickRanges_total text) as (ranges & -> & _).
  rewrite result_bind_Ok, (addAll_app b _ _ b eq_refl), addMatches_addAll.
  destruct (addAll b _); simpl; [apply addMatches_addAll|reflexivity|reflexivity].
Qed.
Lemma toggleCount_app l1 l2 : toggleCount (l1 ++ l2) = (toggleCount l1 + toggleCount l2)%nat.
Proof. induction l1 as [|t l1 IH]; simpl; [reflexivity|]. rewrite IH. lia. Qed.

Lemma odd_toggle (b : bool) (n : nat) :
  Nat.odd ((if b then 1 else 0) + n)%nat = (if b then negb (Nat.odd n) else Nat.odd n).
Proof.
  destruct b; [|reflexivity].
  change (1 + n)%nat with (S n). rewrite Nat.odd_succ, <- Nat.negb_odd. reflexivity.
Qed.

(** The bootstrap loop computes the parity of the toggles it passes. *)
Lemma bootstrapFence_spec lines : forall b,
  bootstrapFence lines b = xorb b (Nat.odd (toggleCount lines)).
Proof.
  induction lines as [|t lines IH]; intros b; simpl; [destruct b; reflexivity|].
  rewrite IH, odd_toggle. destruct (lineTogglesFence t), b, (Nat.odd (toggleCount lines)); reflexivity.
Qed.

Lemma offsetAfter_app l1 l2 : offsetAfter (l1 ++ l2) = offsetAfter l1 + offsetAfter l2.
Proof. induction l1 as [|t l1 IH]; simpl; [reflexivity|]. rewrite IH. lia. Qed.

Lemma lineContribution_at nd style pre text rest :
  lineContribution getManualRegex getAutoRegex nd style (pre ++ text :: rest) (S (length pre))
  = if negb (Nat.odd (toggleCount (pre ++ [text]))) && AUTO_QUICK text
    then lineDecos getManualRegex getAutoRegex nd style (offsetAfter pre) text else [].
Proof.
  unfold lineContribution, insideFenceAt.
  replace (S (length pre) - 1)%nat with (length pre) by lia.
  rewrite list_lookup_middle by reflexivity.
  rewrite take_app_length.
  replace (take (S (length pre)) (pre ++ text :: rest)) with (pre ++ [text]).
  2:{ rewrite (cons_middle text pre rest), app_assoc.
      rewrite take_app_length'; [reflexivity|]. rewrite length_app. simpl. lia. }
  destruct (Nat.odd (toggleCount (pre ++ [text]))), (AUTO_QUICK text); reflexivity.
Qed.

Lemma lineAtFrom_spec pos : forall lines f n l,
  lineAtFrom lines f n pos = Ok l ->
  exists j, lines !! j = Some (text l) /\ number l = (n + j)%nat
    /\ from l = f + offsetAfter (take j lines).
Proof.
  induction lines as [|t rest IH]; intros f n l H; [discriminate|].
  simpl in H. destruct (pos <=? f + strlen t).
  - injection H as <-. exists O. simpl. split; [reflexivity|]. split; lia.
  - destruct (IH _ _ _ H) as (j & Hj & Hn & Hf). exists (S j). simpl.
    split; [exact Hj|]. split; lia.
Qed.

Lemma firstVisibleLine_pos (d : list jsstring) (visFrom : Z) :
  (1 <= firstVisibleLine d visFrom)%nat.
Proof.
  unfold firstVisibleLine, lineAt. destruct (visFrom <? 0); [lia|].
  destruct (lineAtFrom d 0 1 visFrom) as [l| |] eqn:E; [|lia|lia].
  apply lineAtFrom_spec in E as (j & _ & Hn & _). lia.
Qed.

(** [doc.line(n)] is the head of the document from line [n] on, which is
    what the walk recurses on. *)
Lemma docLine_drop (d : list jsstring) (k : nat) (l : Line) :
  docLine d (S k) = Ok l ->
  exists rest, drop k d = text l :: rest
    /\ from l = offsetAfter (take k d) /\ to l = from l + strlen (text l)
    /\ number l = S k.
Proof.
  unfold docLine. destruct (d !! k) as [t|] eqn:E; [|discriminate].
  intros [= <-]. simpl. exists (drop (S k) d). split; [|repeat split; reflexivity].
  apply drop_S. exact E.
Qed.

(** The automatic loop does not look at the manual matches: in what a line
    gives, the manual part comes first whatever the positions are, and an
    automatic match is decorated or not by its own span alone. *)
Lemma automatic_ignores_manual nd style lf text (a : RegExpMatch) (d : Deco) :
  In a (getAutoRegex text) ->
  decorate lf (codeSpansOf text) nd a = Some d ->
  exists manualPart autoPart,
    lineDecos getManualRegex getAutoRegex nd style lf text = manualPart ++ autoPart
    /\ manualPart = omap (decorate lf (codeSpansOf text) nd) (getManualRegex style text)
    /\ In d autoPart.
Proof.
  intros Ha Hd. eexists _, _. split; [reflexivity|]. split; [reflexivity|].
  apply list_elem_of_In, list_elem_of_omap. exists a. split; [|exact Hd].
  apply list_elem_of_In. exact Ha.
Qed.

Lemma first_line_state (d : list jsstring) (k : nat) (text : jsstring) :
  (1 <= k)%nat -> d !! (k - 1)%nat = Some text ->
  (if lineTogglesFence text then negb (bootstrapFence (take (k - 1) d) false)
   else bootstrapFence (take (k - 1) d) false) = insideFenceAt d k.
Proof.
  intros Hk Hl. rewrite bootstrapFence_spec. simpl. unfold insideFenceAt.
  replace k with (S (k - 1)) at 3 by lia.
  rewrite (take_S_r _ _ _ Hl), toggleCount_app. simpl.
  rewrite Nat.add_0_r, Nat.add_comm, odd_toggle. reflexivity.
Qed.

Lemma lineAtFrom_total pos : forall lines f n,
  pos <= f + offsetAfter lines - 1 -> lines <> [] ->
  exists l, lineAtFrom lines f n pos = Ok l.
Proof.
  induction lines as [|t rest IH]; intros f n Hpos Hne; [congruence|].
  simpl in *. destruct (pos <=? f + strlen t) eqn:E; [eauto|].
  apply Z.leb_gt in E. apply IH; [lia|]. intros ->. simpl in Hpos. lia.
Qed.


(** The walk visits a run of consecutive lines and hands to the builder,
    for each, what the line gives under the fence state counted from the
    start of the document. *)
Lemma walkLines_spec nd style visTo : forall lines pre b,
  walk nd style visTo lines (offsetAfter pre) (S (length pre))
    (Nat.odd (toggleCount pre)) b
  = addAll b (concat (map
      (lineContribution getManualRegex getAutoRegex nd style (pre ++ lines))
      (seq (S (length pre)) (visitCount visTo lines (offsetAfter pre)))))
    ≫= (fun b' => if walkEnds visTo lines (offsetAfter pre) then Ok b' else Throw).
Proof.
  induction lines as [|text rest IH]; intros pre b; [reflexivity|].
  cbn [walkLines visitCount walkEnds]. destruct (offsetAfter pre <=? visTo); [|reflexivity].
  rewrite scanLine_spec.
  assert (Hfence : (if lineTogglesFence text then negb (Nat.odd (toggleCount pre))
                    else Nat.odd (toggleCount pre))
                   = Nat.odd (toggleCount (pre ++ [text]))).
  { rewrite toggleCount_app. simpl. rewrite Nat.add_0_r, Nat.add_comm, odd_toggle. reflexivity. }
  rewrite Hfence.
  pose proof (lineContribution_at nd style pre text rest) as Hc.
  cbn [seq map concat]. rewrite Hc.
  rewrite (addAll_app b _ _ b eq_refl), result_bind_assoc.
  destruct (addAll b _) as [b1| |]; [|reflexivity|reflexivity].
  rewrite !result_bind_Ok.
  destruct (offsetAfter pre + strlen text >=? visTo); [reflexivity|].
  specialize (IH (pre ++ [text]) b1).
  rewrite offsetAfter_app, length_app in IH. simpl in IH.
  replace (offsetAfter pre + (strlen text + 1 + 0)) with (offsetAfter pre + strlen text + 1) in IH by lia.
  replace (length pre + 1)%nat with (S (length pre)) in IH by lia.
  rewrite <- app_assoc in IH. exact IH.
Qed.

Lemma walkEnds_inside visTo : forall lines f,
  visTo <= f + offsetAfter lines - 1 -> lines <> [] ->
  walkEnds visTo lines f = true.
Proof.
  induction lines as [|t rest IH]; intros f Hvis Hne; [congruence|].
  cbn [walkEnds]. destruct (f <=? visTo); [|reflexivity].
  destruct (f + strlen t >=? visTo) eqn:E; [reflexivity|].
  assert (f + strlen t < visTo) by lia.
  simpl in Hvis. apply IH; [lia|]. intros ->. simpl in Hvis. lia.
Qed.

(** [buildDecorations] as the builder fed with the calls of the walk. *)
Lemma buildDecorations_spec view style (first : Line) :
  lineAt (doc view) (viewport view).1 = Ok first ->
  build view style
  = addAll newBuilder
      (calls getManualRegex getAutoRegex (noDecorZones view) style (doc view) (viewport view))
    ≫= (fun b' =>
          if negb (AUTO_QUICK (docToString (doc view)))
             || walkEnds (viewport view).2 (drop (number first - 1) (doc view))
                  (offsetAfter (take (number first - 1) (doc view)))
          then Ok (finish b') else Throw).
Proof.
  intros Hfirst. unfold buildDecorations, calls, visitedLines, firstVisibleLine.
  destruct (negb (AUTO_QUICK (docToString (doc view)))); [reflexivity|].
  destruct (viewport view) as [visFrom visTo]. cbn [fst snd] in *.
  rewrite Hfirst, result_bind_Ok. cbn [orb].
  unfold lineAt in Hfirst. destruct (visFrom <? 0); [discriminate|].
  apply lineAtFrom_spec in Hfirst as (j & Hj & Hn & _).
  pose proof (lookup_lt_Some _ _ _ Hj) as Hlt.
  unfold docLine. rewrite Hn. cbn [Nat.add]. rewrite Hj, result_bind_Ok.
  cbn [from number]. replace (S j - 1)%nat with j by lia.
  pose proof (walkLines_spec (noDecorZones view) style visTo
                (drop j (doc view)) (take j (doc view)) newBuilder) as W.
  rewrite length_take, take_drop in W.
  replace (j `min` length (doc view))%nat with j in W by lia.
  rewrite bootstrapFence_spec. cbn [xorb]. rewrite W.
  destruct (addAll newBuilder _) as [b'| |]; [|reflexivity|reflexivity].
  rewrite !result_bind_Ok. destruct (walkEnds _ _ _); reflexivity.
Qed.

(** The set that is returned holds the calls, each once. *)
Lemma buildDecorations_calls view style out :
  build view style = Ok out ->
  out ≡ₚ calls getManualRegex getAutoRegex (noDecorZones view) style (doc view) (viewport view).
Proof.
  intros H.
  destruct (negb (AUTO_QUICK (docToString (doc view)))) eqn:Q.
  { unfold buildDecorations in H. unfold calls. rewrite Q in *. injection H as <-. reflexivity. }
  destruct (lineAt (doc view) (viewport view).1) as [first| |] eqn:Hfirst.
  - rewrite (buildDecorations_spec view style first Hfirst) in H.
    apply bind_Ok in H as (b' & Hb & H).
    destruct (_ || _); [|discriminate]. injection H as <-.
    apply addAll_perm in Hb. exact Hb.
  - unfold buildDecorations in H. rewrite Q in H.
    destruct (viewport view) as [visFrom visTo]. cbn [fst] in Hfirst.
    rewrite Hfirst in H. discriminate.
  - unfold buildDecorations in H. rewrite Q in H.
    destruct (viewport view) as [visFrom visTo]. cbn [fst] in Hfirst.
    rewrite Hfirst in H. discriminate.
Qed.
(** *** Zones around the selection *)

Lemma hitsZone_nil x y : hitsZone [] x y = false.
Proof. reflexivity. Qed.






(** *** The calls and the selection *)

Lemma offsetAfter_nonneg (lines : list jsstring) : 0 <= offsetAfter lines.
Proof. induction lines as [|t lines IH]; simpl; unfold strlen; lia. Qed.



Lemma decorate_span lf cs nd m x :
  0 <= lf -> decorate lf cs nd m = Some x -> 0 <= decoFrom x < decoTo x.
Proof.
  intros Hlf. unfold decorate.
  destruct (bool_decide (m0 m = [])) eqn:E; [discriminate|].
  destruct (hitsCode cs _ _); [discriminate|].
  destruct (hitsZone nd _ _); [discriminate|].
  intros [= <-]. simpl. apply bool_decide_eq_false in E.
  unfold strlen. destruct (m0 m); [congruence|]. simpl. lia.
Qed.

Lemma lineDecos_span nd style lf text x :
  0 <= lf -> In x (lineDecos getManualRegex getAutoRegex nd style lf text) ->
  0 <= decoFrom x < decoTo x.
Proof.
  intros Hlf Hx. unfold lineDecos in Hx.
  apply in_app_or in Hx as [Hx|Hx];
    apply list_elem_of_In, list_elem_of_omap in Hx as (m & _ & Hm);
    exact (decorate_span _ _ _ _ _ Hlf Hm).
Qed.

(** Every call has a span that is not empty, inside the positions from 0
    on. *)
Lemma calls_span nd style d vp x :
  In x (calls getManualRegex getAutoRegex nd style d vp) -> 0 <= decoFrom x < decoTo x.
Proof.
  unfold calls. destruct (negb (AUTO_QUICK (docToString d))); [intros []|].
  intros Hx. apply in_concat in Hx as (l & Hl & Hx).
  apply in_map_iff in Hl as (n & <- & _). unfold lineContribution in Hx.
  destruct (d !! _); [|destruct Hx]. destruct (_ || _); [destruct Hx|].
  exact (lineDecos_span _ _ _ _ _ (offsetAfter_nonneg _) Hx).
Qed.



(** For a viewport inside the document the rebuild comes to its end by its
    own loop tests, and what it gives is what the builder makes of the
    calls: the set of the calls when the builder takes them all, which it
    does when they ascend without overlap, and the builder's error when it
    refuses one. *)
Theorem buildDecorations_outcome (view : EditorView) (style : NotationStyle) :
  doc view <> [] ->
  0 <= (viewport view).1 <= (viewport view).2 ->
  (viewport view).2 <= docLength (doc view) ->
  build view style
  = rmap finish (addAll newBuilder
      (calls getManualRegex getAutoRegex (noDecorZones view) style (doc view) (viewport view)))
  /\ build view style <> OutOfFuel
  /\ (ascending
        (calls getManualRegex getAutoRegex (noDecorZones view) style (doc view) (viewport view))
      = true ->
      build view style
      = Ok (calls getManualRegex getAutoRegex (noDecorZones view) style (doc view)
              (viewport view))).
Proof.
  intros Hne Hvp Hlen.
  assert (E : build view style
    = rmap finish (addAll newBuilder
        (calls getManualRegex getAutoRegex (noDecorZones view) style (doc view) (viewport view)))).
  { unfold docLength in Hlen.
    destruct (lineAtFrom_total (viewport view).1 (doc view) 0 1%nat) as (first & Hfirst);
      [lia|exact Hne|].
    assert (Hat : lineAt (doc view) (viewport view).1 = Ok first).
    { unfold lineAt. rewrite (proj2 (Z.ltb_ge _ 0)) by lia. exact Hfirst. }
    rewrite (buildDecorations_spec view style first Hat).
    apply lineAtFrom_spec in Hfirst as (j & Hj & Hn & _).
    rewrite Hn. cbn [Nat.add]. replace (S j - 1)%nat with j by lia.
    rewrite walkEnds_inside, orb_true_r.
    - destruct (addAll newBuilder _); reflexivity.
    - rewrite <- (take_drop j (doc view)), offsetAfter_app in Hlen. lia.
    - intros Hd. apply (f_equal length) in Hd. rewrite length_drop in Hd.
      apply lookup_lt_Some in Hj. simpl in Hd. lia. }
  split; [exact E|]. split.
  - rewrite E. intros Hf.
    pose proof (addAll_fuel
      (calls getManualRegex getAutoRegex (noDecorZones view) style (doc view) (viewport view))
      newBuilder) as Hnf.
    destruct (addAll newBuilder _); simpl in Hf; [discriminate|discriminate|congruence].
  - intros Ha. rewrite E. unfold newBuilder. rewrite addAll_ascending.
    + simpl. unfold finish. simpl. rewrite app_nil_r. reflexivity.
    + apply Forall_forall. intros x Hx. apply list_elem_of_In in Hx.
      exact (proj1 (calls_span _ _ _ _ _ Hx)).
    + exact Ha.
    + exact I.
Qed.

End Builder.

End BuildFacts.

(** ** Scenarios with the expressions of the specification *)

Module Scenarios.

Import LivePreview Props Examples.

Abbreviation build := (buildDecorations SpecModel.getManualRegex SpecModel.getAutoRegex).

(** What toggles a fence: three or more backticks or tildes after optional
    white space, then white space or the end of the line. An info string
    that follows the run directly leaves the line without effect. *)
Example fence_plain : lineTogglesFence [96; 96; 96] = true.
Proof. reflexivity. Qed.

Example fence_indented_tildes : lineTogglesFence [32; 32; 126; 126; 126; 126] = true.
Proof. reflexivity. Qed.

Example fence_info_after_space : lineTogglesFence [96; 96; 96; 32; 106; 115] = true.
Proof. reflexivity. Qed.

Example fence_info_attached : lineTogglesFence [96; 96; 96; 106; 115] = false.
Proof. reflexivity. Qed.

Example fence_two_backticks : lineTogglesFence [96; 96] = false.
Proof. reflexivity. Qed.

(** The second line lies inside the fence opened on the first. *)
Example fenced_line_inside : insideFenceAt (doc fencedView) 2 = true.
Proof. reflexivity. Qed.

Example caret_next_to_match_omits :
  build (caretView 2 false) curly = Ok [].
Proof. vm_compute. reflexivity. Qed.

Example caret_moved_away_restores :
  build (caretView 3 false) curly
  = Ok [{| decoFrom := 0; decoTo := 2; widgetText := kanji2 |}].
Proof. vm_compute. reflexivity. Qed.

Example composing_widens_zone :
  build (caretView 3 true) curly = Ok [].
Proof. vm_compute. reflexivity. Qed.

(** The fence of [fencedView] is seen: the line inside it gives nothing,
    the line after it is decorated. *)
Example fenced_block_suppressed :
  build fencedView curly = Ok [{| decoFrom := 11; decoTo := 13; widgetText := kanji2 |}].
Proof. vm_compute. reflexivity. Qed.

(** C5 does not hold of the code. The opener [```js], with its info string
    attached to the run of backticks, is not a line that toggles the fence
    state, so the state at the second line is that of a line outside any
    block, though the line lies inside the block opened on the first.
    With the viewport starting at the second line, the two kanji inside
    the block are decorated at [6, 8); the closing fence is then taken for
    an opener, and the two kanji after the block, at [13, 15), get
    nothing. *)
Theorem fence_info_string_not_seen :
  lineTogglesFence [96; 96; 96; 106; 115] = false
  /\ bootstrapFence (take 1 (doc infoFenceView)) false = false
  /\ build infoFenceView curly
     = Ok [{| decoFrom := 6; decoTo := 8; widgetText := kanji2 |}].
Proof. repeat split; vm_compute; reflexivity. Qed.

(** C3 does not hold of the code. On the scenario line the rebuild calls
    the builder for the manual span [3, 12) first and for the automatic
    matches of the same line after it, the one at [0, 3) among them and
    those inside the manual span as well; the builder refuses the range
    that starts before the last one, and the rebuild throws. Where the
    manual span comes first in its line, nothing is refused and the set
    holds the manual span [0, 9) together with the automatic matches
    inside it: an automatic match that overlaps a manual match is not
    suppressed, and spans of the set overlap. *)
Theorem builder_calls_not_sorted :
  calls SpecModel.getManualRegex SpecModel.getAutoRegex (noDecorZones scenarioView) curly
    (doc scenarioView) (viewport scenarioView)
  = [ {| decoFrom := 3; decoTo := 12;
         widgetText := [123; 28450; 23383; 124; 12363; 12435; 124; 12376; 125] |};
      {| decoFrom := 0; decoTo := 3; widgetText := [20170; 26085; 12399] |};
      {| decoFrom := 4; decoTo := 6; widgetText := kanji2 |};
      {| decoFrom := 7; decoTo := 9; widgetText := [12363; 12435] |};
      {| decoFrom := 10; decoTo := 11; widgetText := [12376] |};
      {| decoFrom := 12; decoTo := 17;
         widgetText := [12434; 21193; 24375; 12375; 12383] |} ]
  /\ build scenarioView curly = Throw
  /\ build manualFirstView curly
     = Ok [ {| decoFrom := 0; decoTo := 9;
               widgetText := [123; 28450; 23383; 124; 12363; 12435; 124; 12376; 125] |};
            {| decoFrom := 1; decoTo := 3; widgetText := kanji2 |};
            {| decoFrom := 4; decoTo := 6; widgetText := [12363; 12435] |};
            {| decoFrom := 7; decoTo := 8; widgetText := [12376] |} ]
  /\ (forall out, build manualFirstView curly = Ok out ->
        ascending out = false
        /\ exists d1 d2 p, In d1 out /\ In d2 out /\ d1 <> d2
             /\ decoFrom d1 <= p < decoTo d1 /\ decoFrom d2 <= p < decoTo d2).
Proof.
  split; [vm_compute; reflexivity|]. split; [vm_compute; reflexivity|].
  split; [vm_compute; reflexivity|].
  intros out H. vm_compute in H. injection H as <-. split; [reflexivity|].
  exists {| decoFrom := 0; decoTo := 9;
            widgetText := [123; 28450; 23383; 124; 12363; 12435; 124; 12376; 125] |},
         {| decoFrom := 1; decoTo := 3; widgetText := [28450; 23383] |}, 1.
  split; [left; reflexivity|]. split; [right; left; reflexivity|].
  split; [discriminate|]. simpl. lia.
Qed.


Lemma buildDecorations_outcome_witness :
  build (caretView 3 false) curly
  = rmap finish (addAll newBuilder
      (calls SpecModel.getManualRegex SpecModel.getAutoRegex (noDecorZones (caretView 3 false))
         curly (doc (caretView 3 false)) (viewport (caretView 3 false))))
  /\ build (caretView 3 false) curly <> OutOfFuel
  /\ (ascending
        (calls SpecModel.getManualRegex SpecModel.getAutoRegex
           (noDecorZones (caretView 3 false)) curly (doc (caretView 3 false))
           (viewport (caretView 3 false)))
      = true ->
      build (caretView 3 false) curly
      = Ok (calls SpecModel.getManualRegex SpecModel.getAutoRegex
              (noDecorZones (caretView 3 false)) curly (doc (caretView 3 false))
              (viewport (caretView 3 false)))).
Proof.
  apply (BuildFacts.buildDecorations_outcome SpecModel.getManualRegex SpecModel.getAutoRegex
           (caretView 3 false) curly).
  - discriminate.
  - simpl. lia.
  - vm_compute. discriminate.
Defined.

End Scenarios.

(** ** The view plugin and the skip option *)

Module PluginFacts.

Import LivePreview Props Examples.

Section Plugin.

Variable getManualRegex : NotationStyle -> Regex.
Variable getAutoRegex : Regex.

(** The update and the plugin hold the same view, so the two readings of
    [composing] in [update] are one reading: with no other trigger the
    decorations stay as they are, whatever the composition state is and
    was. *)
Lemma update_same_view_keeps style (store : gmap nat EditorView) this u v :
  updateView u = view this ->
  store !! view this = Some v ->
  docChanged u = false -> selectionSet u = false -> viewportChanged u = false ->
  existsb (fun t => isUserEvent t "input" || isUserEvent t "delete") (transactions u) = false ->
  update getManualRegex getAutoRegex style store this u = Ok this.
Proof.
  intros Hv Hs H1 H2 H3 H4. unfold update, deref.
  rewrite Hv, Hs, !result_bind_Ok, H1, H2, H3, H4, Bool.eqb_reflx. reflexivity.
Qed.

End Plugin.

(** With the skip flag set, the Reading Mode postprocessor leaves the
    element as it is. *)
Lemma reading_mode_skips processBlocks app settings el path :
  SkipOption.shouldSkipByPath app path = true ->
  ReadingMode.postprocessor processBlocks app settings el path = el.
Proof.
  intros H. unfold ReadingMode.postprocessor. rewrite H.
  destruct (negb (ReadingMode.readingMode settings)); reflexivity.
Qed.

Abbreviation construct := (LivePreview.construct SpecModel.getManualRegex SpecModel.getAutoRegex).
Abbreviation update := (LivePreview.update SpecModel.getManualRegex SpecModel.getAutoRegex).

(** C9 does not hold of the code. The plugin is built while a composition
    is active with the caret one place after the match, so with no
    decoration; the composition ends and nothing else changes. The update
    keeps the empty set, where a rebuild gives the decoration. *)
Theorem composition_change_not_detected :
  construct curly {[ O := Examples.caretView 3 true ]} O
  = Ok {| view := O; decorations := [] |}
  /\ update curly {[ O := Examples.caretView 3 false ]}
       {| view := O; decorations := [] |} idleUpdate
     = Ok {| view := O; decorations := [] |}
  /\ buildDecorations SpecModel.getManualRegex SpecModel.getAutoRegex
       (Examples.caretView 3 false) curly
     = Ok [{| decoFrom := 0; decoTo := 2; widgetText := Examples.kanji2 |}].
Proof.
  split; [|split]; vm_compute; reflexivity.
Qed.

(** C7 does not hold of the code. The skip flag of the note is set, and
    Reading Mode leaves the note alone; the Live Preview plugin is built
    from the view and the notation style only, and decorates the note. *)
Theorem skip_flag_ignored_by_live_preview :
  SkipOption.shouldSkipByPath skippedApp "note.md" = true
  /\ SkipOption.shouldSkipForEditorView skippedApp O = true
  /\ (forall processBlocks settings el,
        ReadingMode.postprocessor processBlocks skippedApp settings el "note.md" = el)
  /\ construct curly {[ O := Examples.caretView 6 false ]} O
     = Ok {| view := O;
             decorations := [{| decoFrom := 0; decoTo := 2; widgetText := Examples.kanji2 |}] |}.
Proof.
  assert (H : SkipOption.shouldSkipByPath skippedApp "note.md" = true) by (vm_compute; reflexivity).
  split; [exact H|]. split; [vm_compute; reflexivity|]. split.
  - intros processBlocks settings el. apply reading_mode_skips. exact H.
  - vm_compute. reflexivity.
Qed.

End PluginFacts.

(** ** The ruby widget *)

Module WidgetFacts.

Import Dom LivePreview Props.

Lemma isKanaChunk_true k : kanaChunk k -> isKanaChunk k = true.
Proof.
  intros [Hne Hall]. unfold isKanaChunk.
  rewrite bool_decide_eq_false_2 by exact Hne. simpl.
  apply forallb_forall. intros c Hc. rewrite Forall_forall in Hall.
  apply Hall. apply list_elem_of_In. exact Hc.
Qed.

Section Widget.

Variable getFuriganaSegmentsSync : jsstring -> list Seg.
Variable makeRuby : list jsstring -> list jsstring -> Node.

Lemma segNode_kana seg :
  Forall kanaChunk (kanji seg) ->
  segNode makeRuby seg = TextNode (concat (kanji seg)).
Proof.
  intros H. unfold segNode.
  replace (forallb isKanaChunk (kanji seg)) with true; [reflexivity|].
  symmetry. apply forallb_forall. intros k Hk. apply isKanaChunk_true.
  rewrite Forall_forall in H. apply H. apply list_elem_of_In. exact Hk.
Qed.

(** C4. A segment whose base chunks are all kana, as the segment of a
    token with a kana-only surface is, is rendered as one plain text node
    holding the chunks, whatever readings the segment carries: the widget
    holds no reading node for it. *)
Theorem kana_only_segment_plain (text : jsstring) (i : nat) (seg : Seg) :
  getFuriganaSegmentsSync text !! i = Some seg ->
  Forall kanaChunk (kanji seg) ->
  exists children,
    toDOM getFuriganaSegmentsSync makeRuby text = Element "span" children
    /\ children !! i = Some (TextNode (concat (kanji seg)))
    /\ length children = length (getFuriganaSegmentsSync text).
Proof.
  intros Hi Hk. unfold toDOM. eexists. split; [reflexivity|]. split.
  - rewrite list_lookup_fmap, Hi. simpl. f_equal. apply segNode_kana. exact Hk.
  - apply length_map.
Qed.

End Widget.

(** The token [kana kana] (U+304B U+306A) with a reading supplied by the
    tokenizer. *)
Lemma kana_only_segment_plain_witness :
  exists children,
    toDOM (fun _ => [{| kanji := [[12363; 12394]]; furi := [[12363; 12394]] |}])
      SpecModel.makeRuby [12363; 12394] = Element "span" children
    /\ children !! O = Some (TextNode (concat [[12363; 12394]]))
    /\ length children = 1%nat.
Proof.
  apply (kana_only_segment_plain
           (fun _ => [{| kanji := [[12363; 12394]]; furi := [[12363; 12394]] |}])
           SpecModel.makeRuby [12363; 12394] O
           {| kanji := [[12363; 12394]]; furi := [[12363; 12394]] |}).
  - reflexivity.
  - simpl. repeat constructor; discriminate.
Defined.

End WidgetFacts.

(** ** The notation parser and the markup of a match *)

Module SpecFacts.

Import Dom LivePreview SpecModel Props Examples.

Lemma strip_rubyPairs (fs : list jsstring) : forall (ks : list jsstring) (n : nat),
  concat (map stripReadings (concat (imap (fun i => rubyPair fs (n + i)) ks)))
  = concat ks.
Proof.
  induction ks as [|k ks IH]; intros n; [reflexivity|].
  rewrite imap_cons. cbn [concat]. rewrite map_app, concat_app. f_equal.
  - unfold rubyPair. destruct (fs !! (n + 0)%nat) as [[|c r]|]; simpl;
      rewrite ?app_nil_r; reflexivity.
  - rewrite <- (IH (S n)). do 3 f_equal. apply imap_ext. intros i x _. simpl.
    f_equal. lia.
Qed.

Lemma strip_makeRuby (ks fs : list jsstring) : stripReadings (makeRuby ks fs) = concat ks.
Proof.
  unfold makeRuby. cbn [stripReadings]. simpl (String.eqb _ _). cbv match.
  apply (strip_rubyPairs fs ks O).
Qed.

Lemma strip_segNode seg : stripReadings (segNode makeRuby seg) = concat (kanji seg).
Proof.
  unfold segNode. destruct (forallb isKanaChunk (kanji seg)); [reflexivity|apply strip_makeRuby].
Qed.

(** Stripping the reading nodes of a widget leaves the base chunks of its
    segments, in order. *)
Lemma strip_toDOM gfs text :
  stripReadings (toDOM gfs makeRuby text) = baseText (gfs text).
Proof.
  unfold toDOM, baseText. cbn [stripReadings]. simpl (String.eqb _ _). cbv match.
  induction (gfs text) as [|seg segs IH]; [reflexivity|].
  simpl. rewrite strip_segNode, IH. reflexivity.
Qed.

Lemma parseBody_Some o body m :
  parseBody o body = Some m ->
  exists r rs, splitPipes body = base m :: r :: rs /\ readingSegments m = r :: rs
    /\ base m <> []
    /\ (length (r :: rs) = 1%nat \/ length (r :: rs) = length (base m)).
Proof.
  unfold parseBody. destruct (splitPipes body) as [|b [|r rs]]; try discriminate.
  destruct (negb (bool_decide (b = []))) eqn:E1; [|discriminate].
  destruct (negb (existsb (Z.eqb o) b)); [|discriminate].
  destruct (forallb (forallb isKanaChar) (r :: rs)); [|discriminate].
  destruct (bool_decide (length (r :: rs) = 1%nat) || bool_decide (length (r :: rs) = length b)) eqn:E2;
    [|discriminate].
  simpl. intros [= <-]. simpl. exists r, rs. split; [reflexivity|]. split; [reflexivity|].
  split.
  - apply negb_true_iff, bool_decide_eq_false in E1. exact E1.
  - apply orb_true_iff in E2 as [E2|E2]; apply bool_decide_eq_true in E2; [left|right]; exact E2.
Qed.

Lemma takeUntil_Some c : forall s body tl,
  takeUntil c s = Some (body, tl) -> s = body ++ c :: tl /\ ~ In c body.
Proof.
  induction s as [|y s IH]; intros body tl T; [discriminate|].
  simpl in T. destruct (y =? c) eqn:Ey.
  - apply Z.eqb_eq in Ey. injection T as <- <-. subst y. split; [reflexivity|intros []].
  - apply Z.eqb_neq in Ey. destruct (takeUntil c s) as [[b' t']|]; [|discriminate].
    injection T as <- <-. destruct (IH b' t' eq_refl) as [-> Hn]. split; [reflexivity|].
    intros [H|H]; [congruence|exact (Hn H)].
Qed.

Lemma parseSpan_Some style span m :
  parseSpan style span = Some m ->
  exists o c body, brackets style = Some (o, c) /\ span = o :: body ++ [c]
    /\ parseBody o body = Some m.
Proof.
  unfold parseSpan. destruct (brackets style) as [[o c]|]; [|discriminate].
  destruct span as [|x rest]; [discriminate|].
  destruct (x =? o) eqn:E; [|discriminate]. apply Z.eqb_eq in E. subst x.
  destruct (takeUntil c rest) as [[body tl]|] eqn:T; [|discriminate].
  destruct tl; [|discriminate]. intros H. exists o, c, body. split; [reflexivity|].
  split; [|exact H]. f_equal. apply (takeUntil_Some _ _ _ _ T).
Qed.

Lemma baseText_alignManual m :
  readingSegments m <> [] ->
  (length (readingSegments m) = 1%nat \/ length (readingSegments m) = length (base m)) ->
  baseText (alignManual m) = base m.
Proof.
  intros Hne Hlen. unfold alignManual, baseText.
  destruct (readingSegments m) as [|r [|r' rs]] eqn:E; [congruence| |].
  - simpl. rewrite !app_nil_r. reflexivity.
  - destruct Hlen as [Hlen|Hlen]; [discriminate|].
    revert Hlen. generalize (r :: r' :: rs). generalize (base m). clear.
    induction l as [|ch l IH]; intros [|x xs] Hlen; try discriminate; [reflexivity|].
    simpl. f_equal. apply IH. simpl in Hlen. lia.
Qed.

Lemma parseSpan_japanese style text :
  forallb isJapanese text = true -> parseSpan style text = None.
Proof.
  intros H. unfold parseSpan. destruct (brackets style) as [[o c]|] eqn:B; [|reflexivity].
  destruct text as [|x rest]; [reflexivity|]. simpl in H. apply andb_true_iff in H as [Hx _].
  destruct (x =? o) eqn:E; [|reflexivity]. apply Z.eqb_eq in E. subst x.
  destruct style; simpl in B; try discriminate B; injection B as <- <-; discriminate Hx.
Qed.

Lemma parseSpan_curly_square text m :
  parseSpan square text = Some m -> parseSpan curly text = None.
Proof.
  unfold parseSpan. simpl. destruct text as [|x rest]; [discriminate|].
  destruct (x =? 91) eqn:E; [|discriminate]. apply Z.eqb_eq in E. subst. reflexivity.
Qed.

(** C1, as the model has it. Stripping the reading nodes of the widget of
    a match leaves the base chunks of the match's segments: for a manual
    match this is the base of the notation (the brackets, the pipes and
    the readings of the matched text are not part of it), and for an
    automatic match, whose tokens' surfaces make up the matched text, or
    with no tokenizer at hand, it is the matched text. *)
Theorem strip_readings_gives_base (tokenizer : option (jsstring -> list Token))
    (text : jsstring) :
  (forall style m, parseSpan style text = Some m ->
     stripReadings (render tokenizer text) = base m)
  /\ (forallb isJapanese text = true ->
      (forall tokenize, tokenizer = Some tokenize ->
         concat (map surface (tokenize text)) = text) ->
      stripReadings (render tokenizer text) = text).
Proof.
  unfold render. rewrite strip_toDOM. split.
  - intros style m H.
    assert (Hm : baseText (alignManual m) = base m).
    { apply parseSpan_Some in H as (o & c & body & _ & _ & H).
      apply parseBody_Some in H as (r & rs & _ & Hr & _ & Hlen).
      apply baseText_alignManual; rewrite Hr; [discriminate|exact Hlen]. }
    unfold getFuriganaSegmentsSync. destruct style.
    + rewrite H. exact Hm.
    + rewrite (parseSpan_curly_square _ _ H), H. exact Hm.
    + discriminate.
  - intros Hj Htok. unfold getFuriganaSegmentsSync.
    rewrite !parseSpan_japanese by exact Hj.
    destruct tokenizer as [tokenize|].
    + rewrite <- (Htok tokenize eq_refl) at 2. unfold baseText.
      generalize (tokenize text). clear. induction l as [|t l IH]; [reflexivity|].
      simpl. rewrite IH. f_equal. unfold alignToken.
      destruct (reading t) as [r|]; [|simpl; apply app_nil_r].
      destruct (isKanaChunk (surface t) || bool_decide (r = [])); simpl; apply app_nil_r.
    + unfold baseText. simpl. rewrite !app_nil_r. reflexivity.
Qed.

Lemma strip_readings_gives_base_witness :
  stripReadings (render None manualSpan) = [28450; 23383].
Proof.
  apply (proj1 (strip_readings_gives_base None manualSpan) curly
           {| base := [28450; 23383]; readingSegments := [[12363; 12435; 12376]] |}).
  reflexivity.
Defined.

(** C1 as stated fails for a manual match: the span is a valid manual
    override, and stripping the reading node of its widget leaves the two
    kanji, not the matched text. *)
Lemma strip_readings_not_matched_text :
  getManualRegex curly manualSpan = [{| index := O; m0 := manualSpan |}]
  /\ stripReadings (render None manualSpan) = [28450; 23383]
  /\ stripReadings (render None manualSpan) <> manualSpan.
Proof.
  split; [reflexivity|]. split; [reflexivity|]. discriminate.
Qed.

(** *** The segment-count rule of the notation parser *)

Lemma scanManual_skip_all o c : forall s pos skip,
  (length s <= skip)%nat -> scanManual o c s pos skip = [].
Proof.
  induction s as [|x s IH]; intros pos skip H; [reflexivity|].
  simpl in *. destruct skip as [|k]; [lia|]. apply IH. lia.
Qed.

Lemma scanManual_no_open o c : forall s pos,
  ~ In o s -> scanManual o c s pos O = [].
Proof.
  induction s as [|x s IH]; intros pos H; [reflexivity|].
  simpl. destruct (x =? o) eqn:E.
  - apply Z.eqb_eq in E. subst. exfalso. apply H. left. reflexivity.
  - apply IH. intros Hin. apply H. right. exact Hin.
Qed.

Lemma takeUntil_app c tl : forall body,
  ~ In c body -> takeUntil c (body ++ c :: tl) = Some (body, tl).
Proof.
  induction body as [|x body IH]; intros H; simpl.
  - rewrite Z.eqb_refl. reflexivity.
  - destruct (x =? c) eqn:E.
    + apply Z.eqb_eq in E. subst. exfalso. apply H. left. reflexivity.
    + rewrite IH; [reflexivity|]. intros Hin. apply H. right. exact Hin.
Qed.

Lemma brackets_distinct style o c : brackets style = Some (o, c) -> o <> c.
Proof. destruct style; intros [= <- <-]; discriminate. Qed.

Lemma parseSpan_candidate style o c body :
  brackets style = Some (o, c) -> ~ In c body ->
  parseSpan style (o :: body ++ [c]) = parseBody o body.
Proof.
  intros B Hc. unfold parseSpan. rewrite B, Z.eqb_refl, (takeUntil_app c [] body Hc). reflexivity.
Qed.

Lemma filter_no_manual (l : list RegExpMatch) :
  filter (fun a : RegExpMatch =>
    Forall (fun m : RegExpMatch =>
      ~ ((index a < matchEnd m)%nat /\ (index m < matchEnd a)%nat)) []) l = l.
Proof.
  induction l as [|a l IH]; [reflexivity|].
  rewrite filter_cons_True by constructor. rewrite IH. reflexivity.
Qed.

(** The three spans of the specification's manual-segment invariant. *)
Example two_readings_align_by_character :
  getFuriganaSegmentsSync None [123; 28450; 23383; 124; 12363; 12435; 124; 12376; 125]
  = [ {| kanji := [[28450]]; furi := [[12363; 12435]] |};
      {| kanji := [[23383]]; furi := [[12376]] |} ].
Proof. reflexivity. Qed.

Example one_reading_spans_base :
  getFuriganaSegmentsSync None manualSpan
  = [ {| kanji := [[28450; 23383]]; furi := [[12363; 12435; 12376]] |} ].
Proof. reflexivity. Qed.

Example three_readings_no_match :
  getManualRegex curly (123 :: mismatchedBody ++ [125]) = []
  /\ map m0 (scanUnit curly (123 :: mismatchedBody ++ [125])).2
     = [[28450; 23383]; [12363]; [12435]; [12376]].
Proof. split; reflexivity. Qed.

End SpecFacts.

(** ** The Reading Mode traversal *)

Module ReadingFacts.

Import Dom ReadingMode Props Examples.

(** Induction on a node with the hypothesis for every child. *)
Fixpoint Node_rect' (P : Node -> Prop)
    (HT : forall v, P (TextNode v))
    (HE : forall tag children, Forall P children -> P (Element tag children))
    (HO : P OtherNode) (n : Node) {struct n} : P n :=
  match n with
  | TextNode v => HT v
  | Element tag children =>
      HE tag children
        ((fix go (l : list Node) : Forall P l :=
            match l with
            | [] => @List.Forall_nil _ P
            | c :: l' => @List.Forall_cons _ P c l' (Node_rect' P HT HE HO c) (go l')
            end) children)
  | OtherNode => HO
  end.

(** The loop over the children in [collectTextNodes], by name. *)
Fixpoint collectChildren (anc : list string) (tag : string) (path : list nat)
    (cs : list Node) (i : nat) (out : list (list nat)) : list (list nat) :=
  match cs with
  | [] => out
  | c :: cs' =>
      collectChildren anc tag path cs' (S i)
        (collectTextNodes (tag :: anc) c (path ++ [i]) out)
  end.

Lemma collect_Element anc tag children path out :
  collectTextNodes anc (Element tag children) path out
  = if isSkippableElement tag then out
    else if closestRuby tag anc then out
    else collectChildren anc tag path children O out.
Proof.
  cbn [collectTextNodes].
  destruct (isSkippableElement tag); [reflexivity|].
  destruct (closestRuby tag anc); [reflexivity|].
  generalize O out. induction children as [|c cs IH]; intros i o; [reflexivity|].
  cbn [collectChildren]. rewrite <- IH. reflexivity.
Qed.

Lemma collect_sound root : forall anc path out p,
  In p (collectTextNodes anc root path out) ->
  In p out \/ exists q, p = path ++ q /\ eligible anc root q.
Proof.
  induction root as [v|tag children IH|] using Node_rect'; intros anc path out p H.
  - cbn [collectTextNodes] in H.
    destruct (bool_decide (0 < length (trim v))%nat) eqn:E; [|left; exact H].
    apply bool_decide_eq_true in E. apply in_app_or in H as [H|[<-|[]]]; [left; exact H|].
    right. exists []. rewrite app_nil_r. split; [reflexivity|].
    split; [exists v; split; [reflexivity|exact E]|]. split; [constructor|congruence].
  - rewrite collect_Element in H.
    destruct (isSkippableElement tag) eqn:Hs; [left; exact H|].
    destruct (closestRuby tag anc) eqn:Hr; [left; exact H|].
    assert (Hloop : forall cs, Forall (fun c => forall anc path out p,
                In p (collectTextNodes anc c path out) ->
                In p out \/ exists q, p = path ++ q /\ eligible anc c q) cs ->
              forall i out, In p (collectChildren anc tag path cs i out) ->
              In p out \/ exists j c q, cs !! j = Some c /\ p = path ++ (i + j)%nat :: q
                                         /\ eligible (tag :: anc) c q).
    { clear. induction cs as [|c cs IHcs]; intros Hall i out H; [left; exact H|].
      apply Forall_cons in Hall as [Hc Hcs]. cbn [collectChildren] in H.
      destruct (IHcs Hcs _ _ H) as [H'|(j & c' & q & Hj & -> & He)].
      - destruct (Hc _ _ _ _ H') as [H''|(q & -> & He)]; [left; exact H''|].
        right. exists O, c, q. split; [reflexivity|].
        rewrite <- app_assoc, Nat.add_0_r. split; [reflexivity|exact He].
      - right. exists (S j), c', q. split; [exact Hj|].
        replace (i + S j)%nat with (S i + j)%nat by lia. split; [reflexivity|exact He]. }
    destruct (Hloop children IH O out H) as [H'|(j & c & q & Hj & -> & (Hv & Ht & _))];
      [left; exact H'|].
    right. exists (j :: q). split; [reflexivity|]. split; [|split].
    + cbn [nodeAt]. rewrite Hj. exact Hv.
    + cbn [tagsAlong]. rewrite Hj. constructor; [exact Hs|exact Ht].
    + intros _. unfold closestRuby in Hr. cbn [existsb] in Hr.
      apply orb_false_iff in Hr as [_ Hr]. exact Hr.
  - left. exact H.
Qed.

Lemma collectChildren_mono anc tag path p : forall cs,
  Forall (fun c => forall anc path out p,
            In p out -> In p (collectTextNodes anc c path out)) cs ->
  forall i out, In p out -> In p (collectChildren anc tag path cs i out).
Proof.
  induction cs as [|c cs IH]; intros Hall i out H; [exact H|].
  apply Forall_cons in Hall as [Hc Hcs]. cbn [collectChildren].
  apply IH; [exact Hcs|]. apply Hc. exact H.
Qed.

Lemma collect_mono root : forall anc path out p,
  In p out -> In p (collectTextNodes anc root path out).
Proof.
  induction root as [v|tag children IH|] using Node_rect'; intros anc path out p H.
  - cbn [collectTextNodes]. destruct (bool_decide (0 < length (trim v))%nat); [|exact H].
    apply in_or_app. left. exact H.
  - rewrite collect_Element. destruct (isSkippableElement tag); [exact H|].
    destruct (closestRuby tag anc); [exact H|]. apply collectChildren_mono; assumption.
  - exact H.
Qed.

Lemma not_skippable_not_ruby tag :
  isSkippableElement tag = false -> String.eqb "ruby" tag = false.
Proof.
  unfold isSkippableElement. intros H. rewrite !orb_false_iff in H.
  destruct H as (_ & H). rewrite String.eqb_sym. exact H.
Qed.

(** Every eligible text node is collected. *)
Lemma collect_complete root : forall anc path out q,
  eligible anc root q -> In (path ++ q) (collectTextNodes anc root path out).
Proof.
  induction root as [v|tag children IH|] using Node_rect';
    intros anc path out q ((v' & Hv & Hlen) & Ht & Hr).
  - destruct q as [|j q]; [|discriminate Hv]. injection Hv as ->.
    cbn [collectTextNodes]. rewrite bool_decide_eq_true_2 by exact Hlen.
    rewrite app_nil_r. apply in_or_app. right. left. reflexivity.
  - destruct q as [|j q]; [discriminate Hv|].
    cbn [nodeAt] in Hv. cbn [tagsAlong] in Ht.
    destruct (children !! j) as [c|] eqn:Hj; [|discriminate Hv].
    apply Forall_cons in Ht as [Hs Ht].
    rewrite collect_Element, Hs. unfold closestRuby. cbn [existsb].
    rewrite (not_skippable_not_ruby _ Hs), (Hr ltac:(discriminate)). cbn [orb].
    assert (He : eligible (tag :: anc) c q).
    { split; [exists v'; split; assumption|]. split; [exact Ht|].
      intros _. cbn [existsb]. rewrite (not_skippable_not_ruby _ Hs). simpl. apply Hr. discriminate. }
    clear Hv Ht Hr. change (j :: q) with ((0 + j)%nat :: q).
    revert j Hj out. generalize O.
    induction children as [|c0 cs IHcs]; intros i j Hj out; [discriminate Hj|].
    apply Forall_cons in IH as [Hc0 Hcs]. cbn [collectChildren]. destruct j as [|j].
    + injection Hj as ->. apply collectChildren_mono.
      * eapply Forall_impl; [exact Hcs|]. intros x _ a pth o p' Hp'. apply collect_mono. exact Hp'.
      * specialize (Hc0 (tag :: anc) (path ++ [i]) out q He).
        rewrite <- app_assoc in Hc0. rewrite Nat.add_0_r. exact Hc0.
    + specialize (IHcs Hcs (S i) j Hj (collectTextNodes (tag :: anc) c0 (path ++ [i]) out)).
      replace (i + S j)%nat with (S i + j)%nat by lia. exact IHcs.
  - destruct q; discriminate Hv.
Qed.

(** The loop over the children in [replaceCollected], by name. *)
Fixpoint replaceChildren (convertFurigana : jsstring -> list Node)
    (collected : list (list nat)) (path : list nat) (cs : list Node) (i : nat)
  : list Node :=
  match cs with
  | [] => []
  | c :: cs' =>
      replaceCollected convertFurigana collected c (path ++ [i])
      ++ replaceChildren convertFurigana collected path cs' (S i)
  end.

Lemma replace_Element convertFurigana collected tag children path :
  replaceCollected convertFurigana collected (Element tag children) path
  = [Element tag (replaceChildren convertFurigana collected path children O)].
Proof.
  cbn [replaceCollected]. do 2 f_equal.
  generalize O. induction children as [|c cs IH]; intros i; [reflexivity|].
  cbn [replaceChildren]. rewrite <- IH. reflexivity.
Qed.

(** Where nothing was collected, nothing is replaced. *)
Lemma replace_untouched convertFurigana collected n : forall path,
  (forall q, ~ In (path ++ q) collected) ->
  replaceCollected convertFurigana collected n path = [n].
Proof.
  induction n as [v|tag children IH|] using Node_rect'; intros path H.
  - cbn [replaceCollected]. rewrite bool_decide_eq_false_2; [reflexivity|].
    intros Hin. apply list_elem_of_In in Hin. apply (H []). rewrite app_nil_r. exact Hin.
  - rewrite replace_Element. do 2 f_equal.
    generalize O. induction children as [|c cs IHcs]; intros i; [reflexivity|].
    apply Forall_cons in IH as [Hc Hcs]. cbn [replaceChildren].
    rewrite Hc, (IHcs Hcs); [reflexivity|].
    intros q. rewrite <- app_assoc. apply H.
  - reflexivity.
Qed.

Lemma nodeAt_snoc root : forall path tag children i,
  nodeAt root path = Some (Element tag children) ->
  nodeAt root (path ++ [i]) = children !! i.
Proof.
  induction root as [v|tag0 children0 IH|] using Node_rect'; intros path tag children i H.
  - destruct path; [discriminate|discriminate].
  - destruct path as [|j path].
    + injection H as -> ->. cbn [app nodeAt]. destruct (children !! i); reflexivity.
    + cbn [app nodeAt] in *. destruct (children0 !! j) as [c|] eqn:Hj; [|discriminate].
      rewrite Forall_forall in IH.
      assert (Hc : c ∈ children0) by (apply list_elem_of_lookup; eauto).
      exact (IH c Hc path tag children i H).
  - destruct path; [discriminate|discriminate].
Qed.

Lemma tagsAlong_through root : forall path tag children i q,
  nodeAt root path = Some (Element tag children) ->
  In tag (tagsAlong root (path ++ i :: q)).
Proof.
  induction root as [v|tag0 children0 IH|] using Node_rect'; intros path tag children i q H.
  - destruct path; discriminate.
  - destruct path as [|j path].
    + injection H as -> ->. cbn [app tagsAlong]. left. reflexivity.
    + cbn [app nodeAt tagsAlong] in *. destruct (children0 !! j) as [c|] eqn:Hj; [|discriminate].
      right. rewrite Forall_forall in IH.
      assert (Hc : c ∈ children0) by (apply list_elem_of_lookup; eauto).
      exact (IH c Hc path tag children i q H).
  - destruct path; discriminate.
Qed.

Section Replace.

Variable convertFurigana : jsstring -> list Node.
Hypothesis convert_flat : forall v, Forall (fun n => noNestedRuby n = true) (convertFurigana v).

Variable blk : Node.
Variable collected : list (list nat).
Hypothesis collected_ok : forall p, In p collected ->
  (exists v, nodeAt blk p = Some (TextNode v))
  /\ Forall (fun t => isSkippableElement t = false) (tagsAlong blk p).

Lemma replace_keeps_flat n : forall path,
  nodeAt blk path = Some n -> noNestedRuby n = true ->
  Forall (fun n' => noNestedRuby n' = true) (replaceCollected convertFurigana collected n path).
Proof.
  induction n as [v|tag children IH|] using Node_rect'; intros path Hat Hflat.
  - cbn [replaceCollected]. destruct (bool_decide (path ∈ collected)); [apply convert_flat|].
    constructor; [reflexivity|constructor].
  - destruct (String.eqb tag "ruby") eqn:Hruby.
    + rewrite replace_untouched; [constructor; [exact Hflat|constructor]|].
      intros q Hin. destruct (collected_ok _ Hin) as ((v & Hv) & Ht).
      destruct q as [|i q].
      * rewrite app_nil_r in Hv. congruence.
      * pose proof (tagsAlong_through blk path tag children i q Hat) as Htag.
        rewrite Forall_forall in Ht. apply list_elem_of_In, Ht in Htag.
        apply String.eqb_eq in Hruby. subst tag. discriminate Htag.
    + rewrite replace_Element. constructor; [|constructor].
      cbn [noNestedRuby] in *. rewrite Hruby in *.
      apply forallb_forall. intros x Hx.
      assert (Hloop : forall cs i, Forall (fun c => forall path,
                  nodeAt blk path = Some c -> noNestedRuby c = true ->
                  Forall (fun n' => noNestedRuby n' = true)
                    (replaceCollected convertFurigana collected c path)) cs ->
                (forall j c, cs !! j = Some c -> nodeAt blk (path ++ [(i + j)%nat]) = Some c) ->
                forallb noNestedRuby cs = true ->
                Forall (fun n' => noNestedRuby n' = true)
                  (replaceChildren convertFurigana collected path cs i)).
      { clear. induction cs as [|c cs IHcs]; intros i Hall Hat Hflat; [constructor|].
        apply Forall_cons in Hall as [Hc Hcs]. cbn [replaceChildren].
        cbn [forallb] in Hflat. apply andb_true_iff in Hflat as [Hf1 Hf2].
        apply Forall_app. split.
        - apply Hc; [|exact Hf1]. specialize (Hat O c eq_refl).
          rewrite Nat.add_0_r in Hat. exact Hat.
        - apply IHcs; [exact Hcs| |exact Hf2]. intros j c' Hj.
          specialize (Hat (S j) c' Hj). replace (S i + j)%nat with (i + S j)%nat by lia. exact Hat. }
      assert (Hall : Forall (fun n' => noNestedRuby n' = true)
                (replaceChildren convertFurigana collected path children O)).
      { apply Hloop; [exact IH| |exact Hflat].
        intros j c Hj. rewrite (nodeAt_snoc blk path tag children _ Hat). exact Hj. }
      rewrite Forall_forall in Hall. apply Hall. apply list_elem_of_In. exact Hx.
  - constructor; [reflexivity|constructor].
Qed.

End Replace.

Lemma collect_iff anc blk p :
  In p (collectTextNodes anc blk [] []) <-> eligible anc blk p.
Proof.
  split.
  - intros H. apply collect_sound in H as [[]|(q & -> & He)]. exact He.
  - intros H. apply (collect_complete blk anc [] [] p H).
Qed.

(** C10, as the code has it. The traversal of a block collects exactly the
    text nodes that are not blank and are reached from the block through
    elements that are not code, pre, script, style or ruby, and none at
    all when the block has a ruby among its ancestors: a collected text
    node has no ruby above it anywhere. Processing a block therefore
    leaves a tree without a ruby inside a ruby, whenever the tree had none
    and the converter produces none. *)
Theorem no_nested_annotation (convertFurigana : jsstring -> list Node)
    (quick : jsstring -> bool) (anc : list string) (blk : Node) :
  (forall p, In p (collectTextNodes anc blk [] []) <-> eligible anc blk p)
  /\ (forall p, In p (collectTextNodes anc blk [] []) -> p <> [] ->
        existsb (String.eqb "ruby") (tagsAlong blk p ++ anc) = false)
  /\ (noNestedRuby blk = true ->
      (forall v, Forall (fun n => noNestedRuby n = true) (convertFurigana v)) ->
      Forall (fun n => noNestedRuby n = true) (processBlock convertFurigana quick anc blk)).
Proof.
  split; [intros p; apply collect_iff|]. split.
  - intros p Hp Hne. apply collect_iff in Hp as (_ & Ht & Hr).
    rewrite existsb_app, (Hr Hne), orb_false_r.
    induction Ht as [|t ts Hs _ IH]; [reflexivity|].
    cbn [existsb]. rewrite (not_skippable_not_ruby _ Hs), IH. reflexivity.
  - intros Hflat Hconv. unfold processBlock.
    destruct (negb (quick (textContent blk))); [constructor; [exact Hflat|constructor]|].
    destruct (bool_decide (length (collectTextNodes anc blk [] []) = O));
      [constructor; [exact Hflat|constructor]|].
    apply (replace_keeps_flat convertFurigana Hconv blk); [|reflexivity|exact Hflat].
    intros p Hp. apply collect_iff in Hp as ((v & Hv & _) & Ht & _).
    split; [exists v; exact Hv|exact Ht].
Qed.

Lemma no_nested_annotation_witness :
  Forall (fun n => noNestedRuby n = true)
    (processBlock (fun v => [SpecModel.makeRuby [v] [v]]) AUTO_QUICK [] annotatedBlock).
Proof.
  apply (proj2 (proj2 (no_nested_annotation (fun v => [SpecModel.makeRuby [v] [v]])
                         AUTO_QUICK [] annotatedBlock))).
  - reflexivity.
  - intros v. constructor; [|constructor]. destruct v; reflexivity.
Defined.

Example annotated_block_processed :
  processBlock (fun v => [SpecModel.makeRuby [v] [v]]) AUTO_QUICK [] annotatedBlock
  = [ Element "p"
        [ Element "ruby"
            [ Element "rb" [TextNode Examples.kanji2]; Element "rt" [TextNode Examples.kanji2] ];
          Element "ruby"
            [ Element "rb" [TextNode Examples.kanji2]; Element "rt" [TextNode [12363]] ] ] ].
Proof. vm_compute. reflexivity. Qed.

(** C10 as stated fails for a text node inside a [pre] that lies above the
    block: the paragraph is selected as a block, and its text node, which
    lies inside the [pre], is collected for conversion. *)
Lemma text_inside_pre_collected :
  querySelectorAll [] preContainer
  = [(["pre"; "div"], [O; O], Element "p" [TextNode Examples.kanji2])]
  /\ collectTextNodes ["pre"; "div"] (Element "p" [TextNode Examples.kanji2]) [] [] = [[O]]
  /\ nodeAt preContainer ([O; O] ++ [O]) = Some (TextNode Examples.kanji2)
  /\ In "pre" (tagsAlong preContainer ([O; O] ++ [O]))
  /\ isSkippableElement "pre" = true.
Proof.
  split; [vm_compute; reflexivity|]. split; [vm_compute; reflexivity|].
  split; [reflexivity|]. split; [|reflexivity]. simpl. right. left. reflexivity.
Qed.

End ReadingFacts.

(** ** More on the Live Preview helpers *)

Module LivePreviewMore.

Import LivePreview Props Examples BacktickFacts.

Lemma rangesFrom_weaken (l : list (nat * nat)) : forall lo lo',
  (lo' <= lo)%nat -> rangesFrom lo l -> rangesFrom lo' l.
Proof.
  destruct l as [|[a b] rest]; intros lo lo' Hle H; [exact I|].
  simpl in *. destruct H as (H1 & H2 & H3). split; [lia|]. split; assumption.
Qed.

Lemma rangesFrom_app (l1 l2 : list (nat * nat)) : forall lo mid,
  rangesFrom lo l1 -> Forall (fun '(a, b) => (b <= mid)%nat) l1 -> (lo <= mid)%nat ->
  rangesFrom mid l2 -> rangesFrom lo (l1 ++ l2).
Proof.
  induction l1 as [|[a b] l1 IH]; intros lo mid H1 Hall Hle H2; simpl.
  - eapply rangesFrom_weaken; eauto.
  - destruct H1 as (Ha & Hb & Hrest). apply Forall_cons in Hall as [Hbm Hall].
    split; [exact Ha|]. split; [exact Hb|]. eapply IH; eauto.
Qed.

Lemma closedSpan_shape s a b :
  closedSpan s a b ->
  (a + 2 <= b)%nat /\ (b <= length s)%nat
  /\ isTickAt s a = true /\ isTickAt s (b - 1) = true.
Proof.
  intros (k & j & Hrun & Hrunj & Hj & -> & _).
  pose proof (runAt_tick _ _ _ Hrun) as Ta.
  destruct Hrunj as (Hk & _ & Hall & _).
  assert (Tb : isTickAt s (j + k - 1) = true) by (apply Hall; lia).
  split; [lia|]. split; [|split; assumption].
  apply isTickAt_lt in Tb. lia.
Qed.

(** The scan adds its ranges in ascending order, each after the end of the
    one before. *)
Lemma scanTicks_chain s : forall fuel i r,
  (length s - i < fuel)%nat -> boundary s i ->
  exists added, scanTicks fuel s i r = Ok (r ++ added) /\ rangesFrom i added
    /\ Forall (fun '(a, b) => closedSpan s a b) added.
Proof.
  induction fuel as [|fuel IH]; intros i r Hf Hb; [lia|].
  cbn [scanTicks]. destruct (bool_decide (i < length s)%nat) eqn:Hlt.
  - apply bool_decide_eq_true in Hlt. destruct (isTickAt s i) eqn:T.
    + destruct (runLen_spec s i T) as (n & Hn & Hn1 & Hall & Hend).
      rewrite Hn, result_bind_Ok.
      assert (Hrun : runAt s i n) by (eapply boundary_tick_runAt; eauto).
      destruct (findClose_spec s n (S (length s)) (i + n)%nat) as (c & i' & Hc & Hpost);
        [lia|right; right; exact Hend|].
      rewrite Hc, result_bind_Ok. cbv beta match. destruct c as [j|].
      * destruct Hpost as (Hj & Hrunj & Hi' & Hmin). subst i'.
        destruct (IH (j + n)%nat (r ++ [(i, (j + n)%nat)])) as (added & Hout & Hch & Hall');
          [lia|right; right; apply Hrunj|].
        exists ((i, (j + n)%nat) :: added). split; [rewrite Hout, <- app_assoc; reflexivity|].
        split; [simpl; split; [lia|split; [lia|exact Hch]]|].
        constructor; [exists n, j; auto|exact Hall'].
      * destruct Hpost as (Hi' & Hno).
        destruct (IH i' r) as (added & Hout & Hch & Hall'); [lia| |].
        { right; right. destruct (isTickAt s i') eqn:T'; [|reflexivity].
          apply isTickAt_lt in T'. lia. }
        exists added. split; [exact Hout|]. split; [|exact Hall'].
        eapply rangesFrom_weaken; [|exact Hch]. lia.
    + destruct (IH (i + 1)%nat r) as (added & Hout & Hch & Hall'); [lia| |].
      { right; left. replace (i + 1 - 1)%nat with i by lia. exact T. }
      exists added. split; [exact Hout|]. split; [|exact Hall'].
      eapply rangesFrom_weaken; [|exact Hch]. lia.
  - exists []. split; [rewrite app_nil_r; reflexivity|]. split; [exact I|constructor].
Qed.

(** The inline code ranges of a line come in ascending order without
    overlap, lie inside the line, and start and end on a backtick; a line
    without a backtick has none. *)
Theorem inline_ranges_ordered (s : jsstring) :
  exists ranges, inlineBacktickRanges s = Ok ranges
    /\ rangesFrom O ranges
    /\ Forall (fun '(a, b) => (b <= length s)%nat
                 /\ isTickAt s a = true /\ isTickAt s (b - 1) = true) ranges
    /\ ((forall i, isTickAt s i = false) -> ranges = []).
Proof.
  destruct (scanTicks_chain s (S (length s)) O []) as (added & Hout & Hch & Hall);
    [lia|left; reflexivity|].
  exists added. split; [exact Hout|]. split; [exact Hch|].
  assert (Hshape : Forall (fun '(a, b) => (b <= length s)%nat
                 /\ isTickAt s a = true /\ isTickAt s (b - 1) = true) added).
  { eapply Forall_impl; [exact Hall|]. intros [a b] H.
    apply closedSpan_shape in H as (_ & H1 & H2 & H3). auto. }
  split; [exact Hshape|]. intros Hno. destruct added as [|[a b] rest]; [reflexivity|].
  apply Forall_cons in Hshape as [(_ & Ta & _) _]. rewrite Hno in Ta. discriminate.
Qed.

(** *** Fence lines *)

Lemma trimStart_spaces (ws t : jsstring) :
  Forall (fun c => isSpace c = true) ws -> trimStart (ws ++ t) = trimStart t.
Proof.
  induction 1 as [|c ws Hc _ IH]; [reflexivity|]. simpl. rewrite Hc. exact IH.
Qed.

Lemma dropRun_replicate (c : Z) (n : nat) (tail : jsstring) :
  tail !! O <> Some c -> dropRun c (replicate n c ++ tail) = (n, tail).
Proof.
  intros Hhd. induction n as [|n IH]; simpl.
  - destruct tail as [|x tail]; [reflexivity|]. simpl.
    destruct (x =? c) eqn:E; [|reflexivity].
    apply Z.eqb_eq in E. subst. exfalso. apply Hhd. reflexivity.
  - rewrite Z.eqb_refl, IH. reflexivity.
Qed.

(** A line that starts, after white space, with a run of backticks (or of
    tildes) toggles a fence exactly when the run has three or more
    characters and is followed by white space or by the end of the line:
    an info string may follow after a space, and an info string attached
    to the run leaves the line without effect. *)
Theorem fence_line_shape (c : Z) (ws : jsstring) (n : nat) (tail : jsstring) :
  c = BACKTICK \/ c = TILDE ->
  Forall (fun x => isSpace x = true) ws ->
  (1 <= n)%nat ->
  tail !! O <> Some c ->
  lineTogglesFence (ws ++ replicate n c ++ tail)
  = (3 <=? n)%nat && match tail with [] => true | x :: _ => isSpace x end.
Proof.
  intros Hc Hws Hn Hhd. unfold lineTogglesFence. rewrite (trimStart_spaces _ _ Hws).
  assert (Htrim : trimStart (replicate n c ++ tail) = replicate n c ++ tail).
  { destruct n as [|n]; [lia|]. simpl. destruct Hc as [-> | ->]; reflexivity. }
  rewrite Htrim. unfold fenceRun.
  destruct Hc as [-> | ->].
  - rewrite (dropRun_replicate BACKTICK n tail Hhd).
    destruct n as [|n]; [lia|]. simpl (dropRun TILDE _). cbv beta match. simpl (3 <=? 0)%nat.
    rewrite andb_false_l, orb_false_r. reflexivity.
  - rewrite (dropRun_replicate TILDE n tail Hhd).
    destruct n as [|n]; [lia|]. simpl (dropRun BACKTICK _). cbv beta match. simpl (3 <=? 0)%nat.
    rewrite andb_false_l, orb_false_l. reflexivity.
Qed.

(** Three backticks with the info string [js] attached, after one space. *)
Lemma fence_line_shape_witness :
  lineTogglesFence ([32] ++ replicate 3 BACKTICK ++ [106; 115])
  = (3 <=? 3)%nat && isSpace 106.
Proof.
  apply (fence_line_shape BACKTICK [32] 3 [106; 115]).
  - left. reflexivity.
  - repeat constructor.
  - lia.
  - discriminate.
Defined.

End LivePreviewMore.

(** ** More on the decoration builder *)

Module BuildMore.

Import LivePreview Props Examples.

Section Builder.

Variable getManualRegex : NotationStyle -> Regex.
Variable getAutoRegex : Regex.

Local Abbreviation build := (buildDecorations getManualRegex getAutoRegex).

Lemma hitsCode_false (ranges : list (nat * nat)) (x y : Z) (a b : nat) :
  hitsCode ranges x y = false -> In (a, b) ranges ->
  overlaps x y (Z.of_nat a) (Z.of_nat b) = false.
Proof.
  unfold hitsCode. intros H Hin.
  destruct (overlaps x y (Z.of_nat a) (Z.of_nat b)) eqn:O; [|reflexivity].
  rewrite <- H. symmetry. apply List.existsb_exists. exists (a, b). split; [exact Hin|exact O].
Qed.

Lemma decorate_Some lf cs nd m d :
  decorate lf cs nd m = Some d ->
  m0 m <> []
  /\ d = {| decoFrom := lf + Z.of_nat (index m);
            decoTo := lf + (Z.of_nat (index m) + strlen (m0 m));
            widgetText := m0 m |}
  /\ hitsCode cs (Z.of_nat (index m)) (Z.of_nat (index m) + strlen (m0 m)) = false
  /\ hitsZone nd (decoFrom d) (decoTo d) = false.
Proof.
  unfold decorate. destruct (bool_decide (m0 m = [])) eqn:E; [discriminate|].
  apply bool_decide_eq_false in E.
  destruct (hitsCode cs _ _) eqn:Hc; [discriminate|].
  destruct (hitsZone nd _ _) eqn:Hz; [discriminate|].
  intros [= <-]. simpl. auto.
Qed.

(** Where a decoration of the set comes from. *)
Lemma decoration_source view style out d :
  build view style = Ok out -> In d out ->
  exists n text m,
    (1 <= n)%nat /\ doc view !! (n - 1)%nat = Some text
    /\ insideFenceAt (doc view) n = false
    /\ (In m (getManualRegex style text) \/ In m (getAutoRegex text))
    /\ decorate (offsetAfter (take (n - 1) (doc view))) (codeSpansOf text)
         (noDecorZones view) m = Some d.
Proof.
  intros H Hd.
  apply (BuildFacts.buildDecorations_calls getManualRegex getAutoRegex) in H.
  apply list_elem_of_In in Hd. rewrite H in Hd. apply list_elem_of_In in Hd.
  unfold calls in Hd. destruct (negb (AUTO_QUICK (docToString (doc view)))); [destruct Hd|].
  pose proof (BuildFacts.firstVisibleLine_pos (doc view) (viewport view).1) as Hfirst.
  unfold visitedLines in Hd.
  apply List.in_concat in Hd as (l & Hl & Hd).
  apply List.in_map_iff in Hl as (n & <- & Hn). apply List.in_seq in Hn.
  unfold lineContribution in Hd.
  destruct (doc view !! (n - 1)%nat) as [text|] eqn:Ht; [|destruct Hd].
  destruct (insideFenceAt (doc view) n) eqn:Hf; [destruct Hd|].
  destruct (negb (AUTO_QUICK text)); [destruct Hd|]. simpl in Hd.
  unfold lineDecos in Hd. exists n, text.
  apply in_app_or in Hd as [Hd|Hd];
    apply list_elem_of_In, list_elem_of_omap in Hd as (m & Hm & Hdec);
    apply list_elem_of_In in Hm; exists m; (split; [lia|]); (split; [exact Ht|]);
    (split; [exact Hf|]); (split; [|exact Hdec]); [left|right]; exact Hm.
Qed.

(** Every decoration of the set replaces a non-empty match of a line that
    lies outside the fenced blocks: its span is the match's, moved by the
    line's start, it is as wide as its widget's text is long, and it
    overlaps no inline code span of its line and no zone of the
    selection. *)
Theorem decoration_origin (view : EditorView) (style : NotationStyle)
    (out : list Deco) (d : Deco) :
  build view style = Ok out -> In d out ->
  exists n text m,
    (1 <= n)%nat /\ doc view !! (n - 1)%nat = Some text
    /\ insideFenceAt (doc view) n = false
    /\ (In m (getManualRegex style text) \/ In m (getAutoRegex text))
    /\ m0 m <> []
    /\ d = {| decoFrom := offsetAfter (take (n - 1) (doc view)) + Z.of_nat (index m);
              decoTo := offsetAfter (take (n - 1) (doc view))
                        + (Z.of_nat (index m) + strlen (m0 m));
              widgetText := m0 m |}
    /\ decoFrom d < decoTo d
    /\ (forall ranges a b, inlineBacktickRanges text = Ok ranges -> In (a, b) ranges ->
          overlaps (Z.of_nat (index m)) (Z.of_nat (index m) + strlen (m0 m))
            (Z.of_nat a) (Z.of_nat b) = false)
    /\ hitsZone (noDecorZones view) (decoFrom d) (decoTo d) = false.
Proof.
  intros H Hd. destruct (decoration_source view style out d H Hd)
    as (n & text & m & Hn & Ht & Hf & Hm & Hdec).
  apply decorate_Some in Hdec as (Hne & Heq & Hc & Hz).
  exists n, text, m. repeat (split; [assumption|]).
  split.
  { rewrite Heq. simpl. unfold strlen. destruct (m0 m); [congruence|]. simpl length. lia. }
  split; [|exact Hz].
  intros ranges a b Hr Hin. apply (hitsCode_false (codeSpansOf text)); [exact Hc|].
  unfold codeSpansOf. rewrite Hr. exact Hin.
Qed.

(** The text of a document is the text before a line, the line, and the
    text after it. *)
Lemma docToString_split (pre : list jsstring) (text : jsstring) (rest : list jsstring) :
  exists before after,
    docToString (pre ++ text :: rest) = before ++ text ++ after
    /\ Z.of_nat (length before) = offsetAfter pre.
Proof.
  induction pre as [|p pre IH].
  - exists [], (match rest with [] => [] | _ => NEWLINE :: docToString rest end).
    split; [|reflexivity]. simpl. destruct rest; [rewrite app_nil_r|]; reflexivity.
  - destruct IH as (before & after & E & Hlen).
    exists (p ++ NEWLINE :: before), after. split.
    + change ((p :: pre) ++ text :: rest) with (p :: (pre ++ text :: rest)).
      assert (Hcons : forall l : list jsstring, l <> [] ->
                docToString (p :: l) = p ++ NEWLINE :: docToString l).
      { intros l Hl. destruct l; [congruence|reflexivity]. }
      rewrite Hcons by (destruct pre; discriminate).
      rewrite E, <- app_assoc. reflexivity.
    + rewrite length_app. simpl. unfold strlen. lia.
Qed.

(** With regular expressions whose matches hold the text found at their
    index, the widget of every decoration holds the text of the document
    between the decoration's ends, which lie inside the document. *)
Theorem widget_text_is_document_text (view : EditorView) (style : NotationStyle)
    (out : list Deco) (d : Deco) :
  wellFormedRegex (getManualRegex style) -> wellFormedRegex getAutoRegex ->
  build view style = Ok out -> In d out ->
  0 <= decoFrom d /\ decoTo d <= docLength (doc view)
  /\ take (Z.to_nat (decoTo d - decoFrom d))
       (drop (Z.to_nat (decoFrom d)) (docToString (doc view))) = widgetText d.
Proof.
  intros Wm Wa H Hd. destruct (decoration_source view style out d H Hd)
    as (n & text & m & Hn & Ht & _ & Hm & Hdec).
  apply decorate_Some in Hdec as (Hne & Heq & _ & _).
  assert (Hslice : take (length (m0 m)) (drop (index m) text) = m0 m).
  { destruct Hm as [Hm|Hm]; [apply (Wm text m Hm)|apply (Wa text m Hm)]. }
  assert (Hfit : (index m + length (m0 m) <= length text)%nat).
  { assert (0 < length (m0 m))%nat by (destruct (m0 m); [congruence|simpl; lia]).
    apply (f_equal length) in Hslice. rewrite length_take, length_drop in Hslice. lia. }
  pose proof (take_drop_middle _ _ _ Ht) as Hdoc.
  destruct (docToString_split (take (n - 1) (doc view)) text (drop (S (n - 1)) (doc view)))
    as (before & after & E & Hlen).
  rewrite Hdoc in E.
  pose proof (BuildFacts.offsetAfter_nonneg (take (n - 1) (doc view))) as Hpos.
  pose proof (BuildFacts.offsetAfter_nonneg (drop (S (n - 1)) (doc view))) as Hpos'.
  assert (Hoff : offsetAfter (doc view)
                 = offsetAfter (take (n - 1) (doc view))
                   + (strlen text + 1 + offsetAfter (drop (S (n - 1)) (doc view)))).
  { rewrite <- Hdoc at 1. rewrite BuildFacts.offsetAfter_app. reflexivity. }
  rewrite Heq. simpl. unfold docLength. rewrite Hoff. unfold strlen in *.
  split; [lia|]. split; [lia|].
  rewrite E.
    replace (Z.to_nat (offsetAfter (take (n - 1) (doc view)) + Z.of_nat (index m)))
      with (length before + index m)%nat by lia.
    replace (Z.to_nat _) with (length (m0 m)) by lia.
    rewrite drop_app_add', drop_app_le by lia.
    rewrite take_app_le; [exact Hslice|]. rewrite length_drop. lia.
Qed.

End Builder.

End BuildMore.

(** ** The expressions of the specification are well formed *)

Module SpecRegexFacts.

Import LivePreview Props Examples SpecModel.

Lemma slice_middle (p0 acc rest : jsstring) :
  take (length acc) (drop (length p0) (p0 ++ acc ++ rest)) = acc.
Proof. rewrite drop_app_length, take_app_length. reflexivity. Qed.

Lemma autoRuns_slices : forall (s pre : jsstring) (cur : option (nat * jsstring)) m,
  match cur with
  | Some (i, acc) => exists p0, pre = p0 ++ acc /\ length p0 = i
  | None => True
  end ->
  In m (autoRuns s (length pre) cur) ->
  take (length (m0 m)) (drop (index m) (pre ++ s)) = m0 m.
Proof.
  induction s as [|c rest IH]; intros pre cur m Hcur Hm.
  - destruct cur as [[i acc]|]; [|destruct Hm]. destruct Hm as [<-|[]].
    destruct Hcur as (p0 & -> & <-). simpl. rewrite app_nil_r.
    rewrite <- (app_nil_r acc) at 2. apply slice_middle.
  - cbn [autoRuns] in Hm. rewrite (cons_middle c pre rest), app_assoc.
    assert (Hlen : S (length pre) = length (pre ++ [c])) by (rewrite length_app; simpl; lia).
    rewrite Hlen in Hm. destruct (isJapanese c).
    + destruct cur as [[i acc]|].
      * apply (IH _ _ _ ) in Hm; [exact Hm|]. destruct Hcur as (p0 & -> & <-).
        exists p0. rewrite <- app_assoc. split; reflexivity.
      * apply (IH _ _ _ ) in Hm; [exact Hm|]. exists pre. split; reflexivity.
    + destruct cur as [[i acc]|].
      * destruct Hm as [<-|Hm]; [|apply (IH _ _ _ ) in Hm; [exact Hm|exact I]].
        destruct Hcur as (p0 & -> & <-). simpl. rewrite <- !app_assoc. apply slice_middle.
      * apply (IH _ _ _ ) in Hm; [exact Hm|exact I].
Qed.

Lemma getAutoRegex_wellFormed : wellFormedRegex getAutoRegex.
Proof. intros text m Hm. apply (autoRuns_slices text [] None m I Hm). Qed.

Lemma scanManual_slices (o c : Z) : forall (s pre : jsstring) (skip : nat) i span m,
  In (i, span, m) (scanManual o c s (length pre) skip) ->
  take (length span) (drop i (pre ++ s)) = span.
Proof.
  induction s as [|x rest IH]; intros pre skip i span m Hm; [destruct Hm|].
  cbn [scanManual] in Hm.
  assert (Hlen : S (length pre) = length (pre ++ [x])) by (rewrite length_app; simpl; lia).
  rewrite Hlen in Hm. rewrite (cons_middle x pre rest), app_assoc.
  destruct skip as [|k]; [|apply (IH _ _ _ _ _ Hm)].
  destruct (x =? o); [|apply (IH _ _ _ _ _ Hm)].
  destruct (takeUntil c rest) as [[body tl]|] eqn:T; [|apply (IH _ _ _ _ _ Hm)].
  destruct (parseBody o body) as [mm|]; [|apply (IH _ _ _ _ _ Hm)].
  destruct Hm as [Hm|Hm]; [|apply (IH _ _ _ _ _ Hm)].
  injection Hm as <- <- <-.
  apply SpecFacts.takeUntil_Some in T as [-> _].
  rewrite <- app_assoc.
  replace ([x] ++ body ++ c :: tl) with ((x :: body ++ [c]) ++ tl)
    by (simpl; rewrite <- app_assoc; reflexivity).
  apply slice_middle.
Qed.

Lemma getManualRegex_wellFormed style : wellFormedRegex (getManualRegex style).
Proof.
  intros text m Hm. unfold getManualRegex in Hm.
  destruct (brackets style) as [[o c]|]; [|destruct Hm].
  apply List.in_map_iff in Hm as ([[i span] mm] & <- & Hin). simpl.
  apply (scanManual_slices o c text [] O i span mm Hin).
Qed.

(** The manual span of [manualFirstView]. *)
Lemma decoration_origin_witness :
  exists n text m,
    (1 <= n)%nat /\ doc manualFirstView !! (n - 1)%nat = Some text
    /\ insideFenceAt (doc manualFirstView) n = false
    /\ (In m (getManualRegex curly text) \/ In m (getAutoRegex text))
    /\ m0 m <> []
    /\ {| decoFrom := 0; decoTo := 9;
          widgetText := [123; 28450; 23383; 124; 12363; 12435; 124; 12376; 125] |}
       = {| decoFrom := offsetAfter (take (n - 1) (doc manualFirstView)) + Z.of_nat (index m);
            decoTo := offsetAfter (take (n - 1) (doc manualFirstView))
                      + (Z.of_nat (index m) + strlen (m0 m));
            widgetText := m0 m |}
    /\ (0 < 9)%Z
    /\ (forall ranges a b, inlineBacktickRanges text = Ok ranges -> In (a, b) ranges ->
          overlaps (Z.of_nat (index m)) (Z.of_nat (index m) + strlen (m0 m))
            (Z.of_nat a) (Z.of_nat b) = false)
    /\ hitsZone (noDecorZones manualFirstView) 0 9 = false.
Proof.
  eapply (BuildMore.decoration_origin getManualRegex getAutoRegex manualFirstView curly _
            {| decoFrom := 0; decoTo := 9;
               widgetText := [123; 28450; 23383; 124; 12363; 12435; 124; 12376; 125] |}).
  - vm_compute. reflexivity.
  - left. reflexivity.
Defined.

Lemma widget_text_is_document_text_witness :
  0 <= 0 /\ 9 <= docLength (doc manualFirstView)
  /\ take (Z.to_nat (9 - 0)) (drop (Z.to_nat 0) (docToString (doc manualFirstView)))
     = [123; 28450; 23383; 124; 12363; 12435; 124; 12376; 125].
Proof.
  eapply (BuildMore.widget_text_is_document_text getManualRegex getAutoRegex
            manualFirstView curly _
            {| decoFrom := 0; decoTo := 9;
               widgetText := [123; 28450; 23383; 124; 12363; 12435; 124; 12376; 125] |}).
  - apply getManualRegex_wellFormed.
  - apply getAutoRegex_wellFormed.
  - vm_compute. reflexivity.
  - left. reflexivity.
Defined.

End SpecRegexFacts.

(** ** The manual scan of a text unit *)

Module ManualScanFacts.

Import LivePreview SpecModel Props Examples.

Lemma splitPipes_In : forall (body : jsstring) (x : Z),
  In x body -> x = PIPE \/ exists piece, In piece (splitPipes body) /\ In x piece.
Proof.
  induction body as [|y body IH]; intros x Hx; [destruct Hx|].
  cbn [splitPipes]. destruct (y =? PIPE) eqn:E.
  - apply Z.eqb_eq in E. destruct Hx as [<-|Hx]; [left; exact E|].
    destruct (IH x Hx) as [H|(piece & Hp & Hin)]; [left; exact H|].
    right. exists piece. split; [right; exact Hp|exact Hin].
  - destruct Hx as [<-|Hx].
    + right. destruct (splitPipes body) as [|p ps].
      * exists [y]. split; left; reflexivity.
      * exists (y :: p). split; left; reflexivity.
    + destruct (IH x Hx) as [H|(piece & Hp & Hin)]; [left; exact H|].
      right. destruct (splitPipes body) as [|p ps]; [destruct Hp|].
      destruct Hp as [<-|Hp].
      * exists (y :: p). split; [left; reflexivity|right; exact Hin].
      * exists piece. split; [right; exact Hp|exact Hin].
Qed.

(** A body that parses holds no opening bracket. *)
Lemma parseBody_no_open (o : Z) (body : jsstring) (m : ManualMatch) :
  isKanaChar o = false -> o <> PIPE ->
  parseBody o body = Some m -> ~ In o body.
Proof.
  intros Hk Hp H Hin. unfold parseBody in H.
  destruct (splitPipes_In body o Hin) as [E|(piece & Hpiece & Ho)]; [exact (Hp E)|].
  destruct (splitPipes body) as [|b [|r rs]]; try discriminate.
  destruct (negb (bool_decide (b = []))); [|discriminate].
  destruct (existsb (Z.eqb o) b) eqn:Eb; [discriminate|].
  destruct (forallb (forallb isKanaChar) (r :: rs)) eqn:Er; [|discriminate].
  destruct Hpiece as [<-|Hpiece].
  - assert (existsb (Z.eqb o) b = true); [|congruence].
    apply List.existsb_exists. exists o. split; [exact Ho|apply Z.eqb_refl].
  - rewrite List.forallb_forall in Er. specialize (Er _ Hpiece).
    rewrite List.forallb_forall in Er. specialize (Er _ Ho). congruence.
Qed.

Lemma brackets_plain style o c :
  brackets style = Some (o, c) ->
  isKanaChar o = false /\ o <> PIPE /\ o <> c
  /\ isJapanese o = false /\ isJapanese c = false.
Proof. destruct style; intros [= <- <-]; repeat split; discriminate. Qed.

(** What the manual scan reports is in the text: an opening bracket at the
    index, a body up to the first closing bracket that parses. *)
Lemma scanManual_sound (o c : Z) : forall (s : jsstring) (pos skip i : nat) sp m,
  In (i, sp, m) (scanManual o c s pos skip) ->
  exists body tl, (pos + skip <= i)%nat
    /\ drop (i - pos) s = o :: body ++ c :: tl
    /\ ~ In c body /\ sp = o :: body ++ [c] /\ parseBody o body = Some m.
Proof.
  induction s as [|x rest IH]; intros pos skip i sp m Hin; [destruct Hin|].
  assert (Hrest : forall skip', In (i, sp, m) (scanManual o c rest (S pos) skip') ->
            exists body tl, (pos + S skip' <= i)%nat
              /\ drop (i - pos) (x :: rest) = o :: body ++ c :: tl
              /\ ~ In c body /\ sp = o :: body ++ [c] /\ parseBody o body = Some m).
  { intros skip' H. destruct (IH _ _ _ _ _ H) as (body & tl & Hle & Hd & Hc & Hsp & Hp).
    exists body, tl. split; [lia|]. split; [|auto].
    replace (i - pos)%nat with (S (i - S pos)) by lia. exact Hd. }
  cbn [scanManual] in Hin. destruct skip as [|k].
  2:{ destruct (Hrest k Hin) as (body & tl & Hle & H). exists body, tl. split; [lia|exact H]. }
  assert (Hnext : In (i, sp, m) (scanManual o c rest (S pos) O) ->
            exists body tl, (pos + 0 <= i)%nat
              /\ drop (i - pos) (x :: rest) = o :: body ++ c :: tl
              /\ ~ In c body /\ sp = o :: body ++ [c] /\ parseBody o body = Some m).
  { intros H. destruct (Hrest O H) as (body & tl & Hle & H'). exists body, tl. split; [lia|exact H']. }
  destruct (x =? o) eqn:E; [|exact (Hnext Hin)]. apply Z.eqb_eq in E. subst x.
  destruct (takeUntil c rest) as [[body tl]|] eqn:T; [|exact (Hnext Hin)].
  destruct (parseBody o body) as [m'|] eqn:P; [|exact (Hnext Hin)].
  destruct Hin as [Hin|Hin].
  - injection Hin as <- <- <-. apply SpecFacts.takeUntil_Some in T as [-> Hc].
    exists body, tl. split; [lia|]. rewrite Nat.sub_diag. auto.
  - destruct (Hrest _ Hin) as (body' & tl' & Hle & H'). exists body', tl'. split; [lia|exact H'].
Qed.

Lemma first_closer_unique (c : Z) : forall (b1 b2 t1 t2 : jsstring),
  b1 ++ c :: t1 = b2 ++ c :: t2 -> ~ In c b1 -> ~ In c b2 -> b1 = b2.
Proof.
  induction b1 as [|x b1 IH]; intros [|y b2] t1 t2 E H1 H2; simpl in E.
  - reflexivity.
  - injection E as <- _. exfalso. apply H2. left. reflexivity.
  - injection E as -> _. exfalso. apply H1. left. reflexivity.
  - injection E as <- E. f_equal. apply (IH b2 t1 t2 E).
    + intros H. apply H1. right. exact H.
    + intros H. apply H2. right. exact H.
Qed.

(** The characters of a span after its opening bracket. *)
Lemma lookup_span (o c : Z) (body tl : jsstring) (j : nat) (x : Z) :
  (o :: body ++ c :: tl) !! j = Some x -> (1 <= j <= length body + 1)%nat ->
  In x body \/ x = c.
Proof.
  intros H Hj. destruct j as [|j]; [lia|]. simpl in H.
  destruct (decide (j < length body)%nat) as [Hlt|Hge].
  - rewrite lookup_app_l in H by exact Hlt. left.
    apply list_elem_of_In, (list_elem_of_lookup_2 _ j). exact H.
  - rewrite lookup_app_r in H by lia.
    replace (j - length body)%nat with O in H by lia. injection H as <-. right. reflexivity.
Qed.

(** A manual match of the text lies before a candidate span, or after it,
    or starts where the span starts. *)
Lemma manual_match_apart (o c : Z) (pre body post : jsstring) (i : nat) sp m :
  o <> c -> isKanaChar o = false -> o <> PIPE -> ~ In o body ->
  In (i, sp, m) (scanManual o c (pre ++ o :: body ++ c :: post) O O) ->
  (i + length sp <= length pre)%nat
  \/ (length pre + length (o :: body ++ [c]) <= i)%nat
  \/ i = length pre.
Proof.
  intros Hoc Hk Hp Ho Hin.
  destruct (scanManual_sound o c _ _ _ _ _ _ Hin) as (body' & tl & _ & Hd & Hc' & -> & Hparse).
  rewrite Nat.sub_0_r in Hd.
  pose proof (parseBody_no_open o body' m Hk Hp Hparse) as Ho'.
  assert (Hat : forall j, (pre ++ o :: body ++ c :: post) !! (i + j)%nat
                          = (o :: body' ++ c :: tl) !! j).
  { intros j. rewrite <- Hd, lookup_drop. reflexivity. }
  assert (Hspan : forall j, (pre ++ o :: body ++ c :: post) !! (length pre + j)%nat
                            = (o :: body ++ c :: post) !! j).
  { intros j. rewrite lookup_app_r by lia. f_equal. lia. }
  cbn [length]. rewrite !length_app. cbn [length].
  destruct (Nat.lt_trichotomy i (length pre)) as [Hlt|[->|Hgt]]; [|right; right; reflexivity|].
  - destruct (decide (i + S (length body' + 1) <= length pre)%nat) as [Hle|Hover]; [left; exact Hle|].
    exfalso. pose proof (Hat (length pre - i)%nat) as H1. pose proof (Hspan O) as H2.
    replace (i + (length pre - i))%nat with (length pre + 0)%nat in H1 by lia.
    rewrite H2 in H1. simpl in H1. symmetry in H1.
    destruct (lookup_span o c body' tl (length pre - i) o H1) as [H|H]; [lia|exact (Ho' H)|exact (Hoc H)].
  - destruct (decide (length pre + S (length body + 1) <= i)%nat) as [Hle|Hover]; [right; left; exact Hle|].
    exfalso. pose proof (Hat O) as H1. pose proof (Hspan (i - length pre)%nat) as H2.
    replace (length pre + (i - length pre))%nat with (i + 0)%nat in H2 by lia.
    rewrite H1 in H2. simpl in H2. symmetry in H2.
    destruct (lookup_span o c body post (i - length pre) o H2) as [H|H]; [lia|exact (Ho H)|exact (Hoc H)].
Qed.

(** A manual match that starts where a candidate span starts is the span. *)
Lemma manual_match_at (o c : Z) (pre body post : jsstring) sp m :
  ~ In c body ->
  In (length pre, sp, m) (scanManual o c (pre ++ o :: body ++ c :: post) O O) ->
  sp = o :: body ++ [c] /\ parseBody o body = Some m.
Proof.
  intros Hc Hin.
  destruct (scanManual_sound o c _ _ _ _ _ _ Hin) as (body' & tl & _ & Hd & Hc' & -> & Hparse).
  rewrite Nat.sub_0_r, drop_app_length in Hd. injection Hd as Hd.
  rewrite (first_closer_unique c body body' post tl Hd Hc Hc'). split; [reflexivity|exact Hparse].
Qed.

Lemma autoRuns_japanese : forall (s : jsstring) (pos : nat) (cur : option (nat * jsstring)) a,
  match cur with
  | Some (_, acc) => Forall (fun x => isJapanese x = true) acc
  | None => True
  end ->
  In a (autoRuns s pos cur) -> Forall (fun x => isJapanese x = true) (m0 a).
Proof.
  induction s as [|x rest IH]; intros pos cur a Hcur Ha.
  - destruct cur as [[i acc]|]; [|destruct Ha]. destruct Ha as [<-|[]]. exact Hcur.
  - cbn [autoRuns] in Ha. destruct (isJapanese x) eqn:J.
    + destruct cur as [[i acc]|].
      * apply (IH _ _ _ ) in Ha; [exact Ha|]. apply Forall_app. split; [exact Hcur|].
        constructor; [exact J|constructor].
      * apply (IH _ _ _ ) in Ha; [exact Ha|]. constructor; [exact J|constructor].
    + destruct cur as [[i acc]|].
      * destruct Ha as [<-|Ha]; [exact Hcur|]. apply (IH _ _ _ ) in Ha; [exact Ha|exact I].
      * apply (IH _ _ _ ) in Ha; [exact Ha|exact I].
Qed.

(** Every position of an automatic match holds an annotable character. *)
Lemma auto_match_positions (text : jsstring) (a : RegExpMatch) (p : nat) :
  In a (getAutoRegex text) -> (index a <= p < matchEnd a)%nat ->
  exists x, text !! p = Some x /\ isJapanese x = true.
Proof.
  intros Ha Hp. unfold matchEnd in Hp.
  pose proof (SpecRegexFacts.getAutoRegex_wellFormed text a Ha) as Hslice.
  pose proof (autoRuns_japanese text O None a I Ha) as Hj.
  destruct (lookup_lt_is_Some_2 (m0 a) (p - index a)%nat) as (x & Hx); [lia|].
  exists x. split.
  - rewrite <- Hslice, lookup_take_lt, lookup_drop in Hx by lia.
    replace (index a + (p - index a))%nat with p in Hx by lia. exact Hx.
  - rewrite Forall_forall in Hj. apply Hj. apply (list_elem_of_lookup_2 _ _ _ Hx).
Qed.

(** C2, on the parser and the scanner of the specification. A candidate
    span is an opening bracket, a body that holds neither bracket, and the
    closing bracket, anywhere in a text unit; its body splits at the
    pipes into a base and more than one reading. The span parses as a
    manual match only if there are as many readings as the base has
    characters, the base not being empty, and a manual match of the text
    unit that overlaps the span is the span itself, with that many
    readings. On a mismatch, or with an empty base, the span does not
    parse, no manual match of the text unit overlaps it, and every
    automatic match that overlaps it is kept by the scanner: its literal
    text falls through to automatic scanning. *)
Theorem manual_override_segment_count (style : NotationStyle) (o c : Z)
    (pre body post b : jsstring) (rs : list jsstring) :
  brackets style = Some (o, c) ->
  ~ In o body -> ~ In c body ->
  splitPipes body = b :: rs -> (1 < length rs)%nat ->
  (forall m, parseSpan style (o :: body ++ [c]) = Some m ->
     base m = b /\ readingSegments m = rs /\ length rs = length b /\ b <> [])
  /\ (forall mt, In mt (getManualRegex style (pre ++ o :: body ++ c :: post)) ->
        (index mt < length pre + length (o :: body ++ [c]))%nat ->
        (length pre < matchEnd mt)%nat ->
        index mt = length pre /\ m0 mt = o :: body ++ [c]
        /\ length rs = length b /\ b <> [])
  /\ (length rs <> length b \/ b = [] ->
      parseSpan style (o :: body ++ [c]) = None
      /\ (forall mt, In mt (getManualRegex style (pre ++ o :: body ++ c :: post)) ->
            (matchEnd mt <= length pre)%nat
            \/ (length pre + length (o :: body ++ [c]) <= index mt)%nat)
      /\ (forall a, In a (getAutoRegex (pre ++ o :: body ++ c :: post)) ->
            (index a < length pre + length (o :: body ++ [c]))%nat ->
            (length pre < matchEnd a)%nat ->
            In a (scanUnit style (pre ++ o :: body ++ c :: post)).2)).
Proof.
  intros B Ho Hc Hsplit Hlen.
  destruct (brackets_plain _ _ _ B) as (Hk & Hp & Hoc & Hjo & Hjc).
  assert (Hparse : forall m, parseBody o body = Some m ->
            base m = b /\ readingSegments m = rs /\ length rs = length b /\ b <> []).
  { intros m Hm. apply SpecFacts.parseBody_Some in Hm as (r & rs' & Hs & Hr & Hne & Hl).
    rewrite Hsplit in Hs. injection Hs as -> ->. rewrite <- Hr in *.
    split; [reflexivity|]. split; [reflexivity|]. split; [|exact Hne].
    destruct Hl as [Hl|Hl]; [lia|exact Hl]. }
  assert (Hmanual : forall mt, In mt (getManualRegex style (pre ++ o :: body ++ c :: post)) ->
            ((matchEnd mt <= length pre)%nat
             \/ (length pre + length (o :: body ++ [c]) <= index mt)%nat)
            \/ (index mt = length pre /\ m0 mt = o :: body ++ [c]
                /\ exists m, parseBody o body = Some m)).
  { intros mt Hin. unfold getManualRegex in Hin. rewrite B in Hin.
    apply List.in_map_iff in Hin as ([[i sp] m] & <- & Hin). unfold matchEnd. cbn [index m0].
    destruct (manual_match_apart o c pre body post i sp m Hoc Hk Hp Ho Hin) as [H|[H|H]];
      [left; left; exact H|left; right; exact H|].
    subst i. right. destruct (manual_match_at o c pre body post sp m Hc Hin) as [-> Hm].
    split; [reflexivity|]. split; [reflexivity|]. exists m. exact Hm. }
  rewrite (SpecFacts.parseSpan_candidate _ _ _ _ B Hc).
  split; [exact Hparse|]. split.
  - intros mt Hin H1 H2. destruct (Hmanual mt Hin) as [[H|H]|(Hi & Hsp & m & Hm)]; [lia|lia|].
    destruct (Hparse m Hm) as (_ & _ & H3 & H4). auto.
  - intros Hbad. assert (Hnone : parseBody o body = None).
    { destruct (parseBody o body) as [m|] eqn:Hm; [|reflexivity].
      destruct (Hparse m eq_refl) as (_ & _ & H1 & H2). destruct Hbad; contradiction. }
    assert (Hapart : forall mt, In mt (getManualRegex style (pre ++ o :: body ++ c :: post)) ->
              (matchEnd mt <= length pre)%nat
              \/ (length pre + length (o :: body ++ [c]) <= index mt)%nat).
    { intros mt Hin. destruct (Hmanual mt Hin) as [H|(_ & _ & m & Hm)]; [exact H|congruence]. }
    split; [exact Hnone|]. split; [exact Hapart|].
    intros a Ha H1 H2. unfold scanUnit. cbn [snd].
    apply list_elem_of_In, list_elem_of_filter. split; [|apply list_elem_of_In; exact Ha].
    assert (Hopen : (pre ++ o :: body ++ c :: post) !! length pre = Some o).
    { rewrite lookup_app_r by lia. rewrite Nat.sub_diag. reflexivity. }
    assert (Hclose : (pre ++ o :: body ++ c :: post) !! (length pre + length body + 1)%nat = Some c).
    { rewrite lookup_app_r by lia.
      replace (length pre + length body + 1 - length pre)%nat with (S (length body)) by lia.
      simpl. rewrite lookup_app_r by lia. rewrite Nat.sub_diag. reflexivity. }
    assert (Hlenspan : length (o :: body ++ [c]) = (length body + 2)%nat).
    { simpl. rewrite length_app. simpl. lia. }
    rewrite Hlenspan in *.
    assert (Hlo : (length pre < index a)%nat).
    { destruct (decide (length pre < index a)%nat) as [H|H]; [exact H|]. exfalso.
      destruct (auto_match_positions _ a (length pre) Ha) as (x & Hx & Hj); [lia|].
      rewrite Hopen in Hx. injection Hx as <-. congruence. }
    assert (Hhi : (matchEnd a <= length pre + length body + 1)%nat).
    { destruct (decide (matchEnd a <= length pre + length body + 1)%nat) as [H|H]; [exact H|].
      exfalso.
      destruct (auto_match_positions _ a (length pre + length body + 1)%nat Ha) as (x & Hx & Hj);
        [lia|].
      rewrite Hclose in Hx. injection Hx as <-. congruence. }
    apply Forall_forall. intros mt Hmt. apply list_elem_of_In in Hmt.
    destruct (Hapart mt Hmt) as [H|H]; lia.
Qed.

(** The mismatched span of the specification between two kanji and a
    full stop. *)
Lemma manual_override_segment_count_witness :
  (forall m, parseSpan curly (123 :: mismatchedBody ++ [125]) = Some m ->
     base m = [28450; 23383] /\ readingSegments m = [[12363]; [12435]; [12376]]
     /\ length [[12363]; [12435]; [12376]] = length [28450; 23383]
     /\ [28450; 23383] <> [])
  /\ (forall mt, In mt (getManualRegex curly (kanji2 ++ 123 :: mismatchedBody ++ 125 :: [12290])) ->
        (index mt < length kanji2 + length (123 :: mismatchedBody ++ [125])%Z)%nat ->
        (length kanji2 < matchEnd mt)%nat ->
        index mt = length kanji2 /\ m0 mt = 123 :: mismatchedBody ++ [125]
        /\ length [[12363]; [12435]; [12376]] = length [28450; 23383]
        /\ [28450; 23383] <> [])
  /\ (length [[12363]; [12435]; [12376]] <> length [28450; 23383] \/ [28450; 23383] = [] ->
      parseSpan curly (123 :: mismatchedBody ++ [125]) = None
      /\ (forall mt, In mt (getManualRegex curly (kanji2 ++ 123 :: mismatchedBody ++ 125 :: [12290])) ->
            (matchEnd mt <= length kanji2)%nat
            \/ (length kanji2 + length (123 :: mismatchedBody ++ [125])%Z <= index mt)%nat)
      /\ (forall a, In a (getAutoRegex (kanji2 ++ 123 :: mismatchedBody ++ 125 :: [12290])) ->
            (index a < length kanji2 + length (123 :: mismatchedBody ++ [125])%Z)%nat ->
            (length kanji2 < matchEnd a)%nat ->
            In a (scanUnit curly (kanji2 ++ 123 :: mismatchedBody ++ 125 :: [12290])).2)).
Proof.
  apply (manual_override_segment_count curly 123 125 kanji2 mismatchedBody [12290]
           [28450; 23383] [[12363]; [12435]; [12376]]).
  - reflexivity.
  - simpl. intuition discriminate.
  - simpl. intuition discriminate.
  - reflexivity.
  - simpl. lia.
Defined.

(** In that text unit the span is no manual match, and the automatic scan
    gives the kanji before it and the runs of its literal text. *)
Example mismatched_span_in_context :
  getManualRegex curly (kanji2 ++ 123 :: mismatchedBody ++ 125 :: [12290]) = []
  /\ (scanUnit curly (kanji2 ++ 123 :: mismatchedBody ++ 125 :: [12290])).2
     = [ {| index := 0%nat; m0 := kanji2 |}; {| index := 3%nat; m0 := kanji2 |};
         {| index := 6%nat; m0 := [12363] |}; {| index := 8%nat; m0 := [12435] |};
         {| index := 10%nat; m0 := [12376] |} ].
Proof. split; vm_compute; reflexivity. Qed.

End ManualScanFacts.

(** ** More on the skip option *)

Module SkipMore.

Import SkipOption.

Lemma editorViewToPath_app (ls1 ls2 : list Leaf) (ev : nat) (init : option string) :
  foldl (fun out leaf => if bool_decide (leafEditor leaf = Some ev) then leafPath leaf else out)
    init (ls1 ++ ls2)
  = foldl (fun out leaf => if bool_decide (leafEditor leaf = Some ev) then leafPath leaf else out)
      (foldl (fun out leaf => if bool_decide (leafEditor leaf = Some ev) then leafPath leaf else out)
         init ls1) ls2.
Proof. apply foldl_app. Qed.

Lemma editorViewToPath_none (ls : list Leaf) (ev : nat) : forall init,
  Forall (fun leaf => leafEditor leaf <> Some ev) ls ->
  foldl (fun out leaf => if bool_decide (leafEditor leaf = Some ev) then leafPath leaf else out)
    init ls = init.
Proof.
  induction ls as [|l ls IH]; intros init H; [reflexivity|].
  apply Forall_cons in H as [Hl Hls]. simpl.
  rewrite bool_decide_eq_false_2 by exact Hl. apply IH. exact Hls.
Qed.

(** An editor view that no leaf shows is not skipped; otherwise the last
    leaf that shows it decides: the view is skipped exactly when that leaf
    has a file with a non-empty path and the note at that path is
    skipped. *)
Theorem editor_view_skip_by_last_leaf (app : App) (ev : nat) :
  (Forall (fun leaf => leafEditor leaf <> Some ev) (leaves app) ->
   shouldSkipForEditorView app ev = false)
  /\ forall before leaf after,
       leaves app = before ++ leaf :: after ->
       leafEditor leaf = Some ev ->
       Forall (fun l => leafEditor l <> Some ev) after ->
       shouldSkipForEditorView app ev
       = match leafPath leaf with
         | Some p => if String.eqb p "" then false else shouldSkipByPath app p
         | None => false
         end.
Proof.
  unfold shouldSkipForEditorView, editorViewToPath. split.
  - intros H. rewrite editorViewToPath_none by exact H. reflexivity.
  - intros before leaf after -> Hleaf Hafter.
    rewrite editorViewToPath_app. simpl.
    rewrite bool_decide_eq_true_2 by exact Hleaf.
    rewrite editorViewToPath_none by exact Hafter. reflexivity.
Qed.

(** Two leaves show the editor view 0: the note that is skipped, and after
    it a note without frontmatter. *)
Lemma editor_view_skip_by_last_leaf_witness :
  shouldSkipForEditorView
    {| metadataCache := metadataCache Examples.skippedApp;
       leaves := leaves Examples.skippedApp
                 ++ [{| leafEditor := Some O; leafPath := Some "other.md" |}] |} O
  = if String.eqb "other.md" "" then false
    else shouldSkipByPath
           {| metadataCache := metadataCache Examples.skippedApp;
              leaves := leaves Examples.skippedApp
                        ++ [{| leafEditor := Some O; leafPath := Some "other.md" |}] |}
           "other.md".
Proof.
  apply (proj2 (editor_view_skip_by_last_leaf
                  {| metadataCache := metadataCache Examples.skippedApp;
                     leaves := leaves Examples.skippedApp
                               ++ [{| leafEditor := Some O; leafPath := Some "other.md" |}] |} O)
           (leaves Examples.skippedApp)
           {| leafEditor := Some O; leafPath := Some "other.md" |} []).
  - reflexivity.
  - reflexivity.
  - constructor.
Defined.

End SkipMore.

(** ** More on the Reading Mode traversal *)

Module ReadingMore.

Import Dom ReadingMode Props Examples ReadingFacts.

(** The paths collected below a node do not depend on what was collected
    before, and are those of the node moved by its own path. *)
Lemma collect_relative root : forall anc,
  exists rel, NoDup rel /\
    forall path out, collectTextNodes anc root path out = out ++ map (app path) rel.
Proof.
  induction root as [v|tag children IH|] using Node_rect'; intros anc.
  - destruct (bool_decide (0 < length (trim v))%nat) eqn:E.
    + exists [[]]. split; [repeat constructor; intros H; inversion H|].
      intros path out. cbn [collectTextNodes]. rewrite E. simpl. rewrite app_nil_r. reflexivity.
    + exists []. split; [constructor|]. intros path out. cbn [collectTextNodes].
      rewrite E, app_nil_r. reflexivity.
  - assert (Hloop : forall cs, Forall (fun c => forall anc, exists rel, NoDup rel /\
                forall path out, collectTextNodes anc c path out = out ++ map (app path) rel) cs ->
              forall i, exists rel, NoDup rel
                /\ Forall (fun q => exists j q', q = j :: q' /\ (i <= j)%nat) rel
                /\ forall path out,
                     collectChildren anc tag path cs i out = out ++ map (app path) rel).
    { clear. induction cs as [|c cs IHcs]; intros Hall i.
      - exists []. split; [constructor|]. split; [constructor|].
        intros path out. simpl. rewrite app_nil_r. reflexivity.
      - apply Forall_cons in Hall as [Hc Hcs].
        destruct (Hc (tag :: anc)) as (relc & Hnd & Hrel).
        destruct (IHcs Hcs (S i)) as (rels & Hnds & Hge & Hrels).
        exists (map (cons i) relc ++ rels). split; [|split].
        + apply NoDup_app. split; [|split; [|exact Hnds]].
          * apply NoDup_fmap_2; [intros x y [= ->]; reflexivity|exact Hnd].
          * intros q Hq Hq'. apply list_elem_of_fmap in Hq as (q0 & -> & _).
            rewrite Forall_forall in Hge. destruct (Hge _ Hq') as (j & q' & [= <- <-] & Hle). lia.
        + apply Forall_app. split.
          * apply Forall_forall. intros q Hq. apply list_elem_of_fmap in Hq as (q0 & -> & _).
            exists i, q0. split; [reflexivity|lia].
          * eapply Forall_impl; [exact Hge|]. intros q (j & q' & -> & Hle).
            exists j, q'. split; [reflexivity|lia].
        + intros path out. cbn [collectChildren]. rewrite Hrels, Hrel.
          rewrite <- app_assoc, map_app, map_map. do 2 f_equal.
          apply map_ext. intros q. rewrite <- app_assoc. reflexivity. }
    destruct (Hloop children IH O) as (rel & Hnd & _ & Hrel).
    destruct (isSkippableElement tag) eqn:Hs.
    { exists []. split; [constructor|]. intros path out.
      rewrite collect_Element, Hs, app_nil_r. reflexivity. }
    destruct (closestRuby tag anc) eqn:Hr.
    { exists []. split; [constructor|]. intros path out.
      rewrite collect_Element, Hs, Hr, app_nil_r. reflexivity. }
    exists rel. split; [exact Hnd|]. intros path out.
    rewrite collect_Element, Hs, Hr. apply Hrel.
  - exists []. split; [constructor|]. intros path out. simpl. rewrite app_nil_r. reflexivity.
Qed.

(** The traversal of a block collects no text node twice: every collected
    text node is handed to the converter once. *)
Theorem collected_once (anc : list string) (blk : Node) :
  NoDup (collectTextNodes anc blk [] []).
Proof.
  destruct (collect_relative blk anc) as (rel & Hnd & Hrel).
  rewrite Hrel. simpl. rewrite (map_ext _ id), map_id; [exact Hnd|]. intros q. reflexivity.
Qed.

Section Preserve.

Variable convertFurigana : jsstring -> list Node.
Hypothesis convert_keeps_base :
  forall v, concat (map stripReadings (convertFurigana v)) = v.

Lemma replace_keeps_base collected n : forall path,
  concat (map stripReadings (replaceCollected convertFurigana collected n path))
  = stripReadings n.
Proof.
  induction n as [v|tag children IH|] using Node_rect'; intros path.
  - cbn [replaceCollected]. destruct (bool_decide (path ∈ collected));
      [apply convert_keeps_base|simpl; apply app_nil_r].
  - rewrite replace_Element. cbn [map concat stripReadings]. rewrite app_nil_r.
    destruct (String.eqb tag "rt"); [reflexivity|].
    generalize O. induction children as [|c cs IHcs]; intros i; [reflexivity|].
    apply Forall_cons in IH as [Hc Hcs]. cbn [replaceChildren map concat].
    rewrite map_app, concat_app, Hc, (IHcs Hcs). reflexivity.
  - reflexivity.
Qed.

End Preserve.

(** Processing a block keeps its text: when the converter's output for a
    text strips back to that text, the processed block strips back to what
    the block held before, readings already in place left out as before. *)
Theorem process_block_keeps_text (convertFurigana : jsstring -> list Node)
    (quick : jsstring -> bool) (anc : list string) (blk : Node) :
  (forall v, concat (map stripReadings (convertFurigana v)) = v) ->
  concat (map stripReadings (processBlock convertFurigana quick anc blk))
  = stripReadings blk.
Proof.
  intros Hconv. unfold processBlock.
  destruct (negb (quick (textContent blk))); [simpl; apply app_nil_r|].
  destruct (bool_decide (length (collectTextNodes anc blk [] []) = O));
    [simpl; apply app_nil_r|].
  apply replace_keeps_base. exact Hconv.
Qed.

Lemma process_block_keeps_text_witness :
  concat (map stripReadings
            (processBlock (fun v => [SpecModel.makeRuby [v] [v]]) AUTO_QUICK [] annotatedBlock))
  = stripReadings annotatedBlock.
Proof.
  apply (process_block_keeps_text (fun v => [SpecModel.makeRuby [v] [v]])
           AUTO_QUICK [] annotatedBlock).
  intros v. cbn [map concat]. rewrite SpecFacts.strip_makeRuby. simpl. rewrite !app_nil_r.
  reflexivity.
Defined.

End ReadingMore.

(** ** Computations that talk to the vault and the network *)

Module IOFacts.

Import Vault DictInstaller InstallProps.

Lemma yields_ret {A : Type} (P : Effect -> Prop) (Q : A -> Prop) (a : A) :
  Q a -> yields P Q (mret a : IO A).
Proof. intros H tr. exists []. split; [symmetry; apply app_nil_r|]. split; [constructor|exact H]. Qed.

Lemma yields_raise {A : Type} (P : Effect -> Prop) (Q : A -> Prop) (e : Error) :
  yields P Q (raise e : IO A).
Proof. intros tr. exists []. split; [symmetry; apply app_nil_r|]. split; [constructor|exact I]. Qed.

Lemma yields_call {A : Type} (P : Effect -> Prop) (Q : A -> Prop) (e : Effect)
    (answer : list Effect -> option A) :
  P e -> (forall tr a, answer tr = Some a -> Q a) -> yields P Q (call e answer).
Proof.
  intros H HQ tr. exists [e]. split; [reflexivity|]. split; [repeat constructor; exact H|].
  unfold call. simpl. destruct (answer tr) eqn:E; [eapply HQ; eauto|exact I].
Qed.

Lemma yields_bind {A B : Type} (P : Effect -> Prop) (Q : A -> Prop) (R : B -> Prop)
    (m : IO A) (k : A -> IO B) :
  yields P Q m -> (forall a, Q a -> yields P R (k a)) -> yields P R (m ≫= k).
Proof.
  intros Hm Hk tr. destruct (Hm tr) as (a1 & E1 & F1 & Q1).
  unfold mbind, io_bind. destruct (m tr) as [tr1 [a|e]]; simpl in E1, Q1; subst tr1.
  - destruct (Hk a Q1 (tr ++ a1)) as (a2 & E2 & F2 & Q2). exists (a1 ++ a2).
    rewrite E2, app_assoc. split; [reflexivity|]. split; [apply Forall_app; auto|exact Q2].
  - exists a1. simpl. auto.
Qed.

Lemma yields_tryCatch {A : Type} (P : Effect -> Prop) (Q : A -> Prop)
    (m : IO A) (h : Error -> IO A) :
  yields P Q m -> (forall e, yields P Q (h e)) -> yields P Q (tryCatch m h).
Proof.
  intros Hm Hh tr. destruct (Hm tr) as (a1 & E1 & F1 & Q1).
  unfold tryCatch. destruct (m tr) as [tr1 [a|e]]; simpl in E1, Q1; subst tr1.
  - exists a1. simpl. auto.
  - destruct (Hh e (tr ++ a1)) as (a2 & E2 & F2 & Q2). exists (a1 ++ a2).
    rewrite E2, app_assoc. split; [reflexivity|]. split; [apply Forall_app; auto|exact Q2].
Qed.

Lemma yields_weaken {A : Type} (P P' : Effect -> Prop) (Q Q' : A -> Prop) (m : IO A) :
  (forall e, P e -> P' e) -> (forall a, Q a -> Q' a) -> yields P Q m -> yields P' Q' m.
Proof.
  intros HP HQ Hm tr. destruct (Hm tr) as (a & E & F & H). exists a. split; [exact E|].
  split; [eapply Forall_impl; eauto|]. destruct (snd (m tr)); auto.
Qed.

(** What [field] returns: the property of an object, or nothing for a value
    that is no object. *)
Lemma yields_field (P : Effect -> Prop) (want : option Json) (k : string) :
  yields P (fun v => match v with
                     | Some x => exists fields, want = Some (JObj fields) /\ fields !! k = Some x
                     | None => True
                     end) (field want k).
Proof.
  destruct want as [[| | | | |fields]|]; simpl;
    try (apply yields_raise); try (apply yields_ret; exact I).
  apply yields_ret. destruct (fields !! k) eqn:E; [eauto|exact I].
Qed.

Lemma sameString_true (s : string) (v : option Json) :
  sameString s v = true -> v = Some (JStr s).
Proof.
  destruct v as [[| | |s'| |]|]; simpl; try discriminate.
  intros H. apply String.eqb_eq in H. subst. reflexivity.
Qed.

Lemma sameNumber_true (n : nat) (v : option Json) :
  sameNumber n v = true -> v = Some (JNum (Z.of_nat n)).
Proof.
  destruct v as [[| |z| | |]|]; simpl; try discriminate.
  intros H. apply Z.eqb_eq in H. subst. reflexivity.
Qed.

End IOFacts.

(** ** Downloads with fallback *)

Module FetchFacts.

Import Vault DictInstaller InstallProps.

Section Fetch.

Variable env : Env.

Lemma allRejected_app d1 : forall tr d2,
  allRejected env tr d1 -> allRejected env (tr ++ d1) d2 -> allRejected env tr (d1 ++ d2).
Proof.
  induction d1 as [|e d1 IH]; intros tr d2 H1 H2; simpl.
  - rewrite app_nil_r in H2. exact H2.
  - destruct H1 as [He H1]. split; [exact He|]. apply IH; [exact H1|].
    rewrite <- app_assoc. exact H2.
Qed.

Lemma seq_attempts : seqZ 0 (PER_BASE_RETRIES + 1) = [0; 1; 2].
Proof. reflexivity. Qed.

Ltac io_run :=
  unfold mbind, io_bind, tryCatch, requestUrlWithTimeout, call, mret, io_ret, sleep, raise;
  simpl;
  change (RETRY_BACKOFF_MS * 2 ^ (1 - 1)) with 800;
  change (RETRY_BACKOFF_MS * 2 ^ (2 - 1)) with 1600;
  rewrite <- ?app_assoc; simpl.

(** The three attempts on one base. *)
Lemma tryAttempts_three (url : string) (t : Z) (lastErr : option Error) (tr : list Effect) :
  (exists before data lastErr',
      tryAttempts env url t [0; 1; 2] lastErr tr
      = (tr ++ before ++ [RequestUrl url], Done (Some data, lastErr'))
      /\ prefix (before ++ [RequestUrl url])
           [RequestUrl url; Sleep 800; RequestUrl url; Sleep 1600; RequestUrl url]
      /\ requestAns env (tr ++ before) url = Some data
      /\ allRejected env tr before)
  \/ (tryAttempts env url t [0; 1; 2] lastErr tr
      = (tr ++ [RequestUrl url; Sleep 800; RequestUrl url; Sleep 1600; RequestUrl url],
         Done (None, Some (Rejected (RequestUrl url))))
      /\ allRejected env tr
           [RequestUrl url; Sleep 800; RequestUrl url; Sleep 1600; RequestUrl url]).
Proof.
  destruct (requestAns env tr url) as [d|] eqn:E1.
  { left. exists [], d, lastErr. simpl. io_run. rewrite E1. simpl. rewrite app_nil_r.
    repeat split; auto. all: try (eexists; reflexivity). }
  destruct (requestAns env (tr ++ [RequestUrl url; Sleep 800]) url) as [d|] eqn:E2.
  { left. exists [RequestUrl url; Sleep 800], d, (Some (Rejected (RequestUrl url))).
    simpl. io_run. rewrite E1. io_run. rewrite E2.
    repeat split; auto. all: try (eexists; reflexivity). }
  destruct (requestAns env (tr ++ [RequestUrl url; Sleep 800; RequestUrl url; Sleep 1600]) url)
    as [d|] eqn:E3.
  { left. exists [RequestUrl url; Sleep 800; RequestUrl url; Sleep 1600], d,
      (Some (Rejected (RequestUrl url))).
    simpl. io_run. rewrite E1. io_run. rewrite E2. io_run. rewrite E3.
    repeat split; auto; try (rewrite <- ?app_assoc; simpl; assumption).
    all: try (eexists; reflexivity). }
  right.
  simpl. io_run. rewrite E1. io_run. rewrite E2. io_run. rewrite E3. io_run.
  repeat split; auto; try (rewrite <- ?app_assoc; simpl; assumption).
Qed.

Lemma tryBases_spec (fileName : string) (t : Z) : forall bases lastErr tr,
  (exists before url data lastErr',
      tryBases env fileName t bases lastErr tr
      = (tr ++ before ++ [RequestUrl url], Done (Some data, lastErr'))
      /\ prefix (before ++ [RequestUrl url]) (schedule fileName bases)
      /\ requestAns env (tr ++ before) url = Some data
      /\ allRejected env tr before)
  \/ (tryBases env fileName t bases lastErr tr
      = (tr ++ schedule fileName bases,
         Done (None, match last bases with
                     | Some base => Some (Rejected (RequestUrl (urlOf base fileName)))
                     | None => lastErr
                     end))
      /\ allRejected env tr (schedule fileName bases)).
Proof.
  induction bases as [|base others IH]; intros lastErr tr.
  { right. simpl. rewrite app_nil_r. split; [reflexivity|exact I]. }
  cbn [tryBases]. rewrite seq_attempts.
  set (url := urlOf base fileName).
  change (schedule fileName (base :: others))
    with ([RequestUrl url; Sleep 800; RequestUrl url; Sleep 1600; RequestUrl url]
          ++ schedule fileName others).
  destruct (tryAttempts_three url t lastErr tr)
    as [(before & data & lastErr' & E & Hpre & Hans & Hrej)|[E Hrej]].
  - left. exists before, url, data, lastErr'.
    unfold mbind, io_bind. rewrite E. split; [reflexivity|].
    split; [apply prefix_app_r; exact Hpre|]. split; assumption.
  - unfold mbind, io_bind. rewrite E.
    destruct (IH (Some (Rejected (RequestUrl url)))
                (tr ++ [RequestUrl url; Sleep 800; RequestUrl url; Sleep 1600; RequestUrl url]))
      as [(before & url' & data & lastErr' & E' & Hpre & Hans & Hrej')|[E' Hrej']].
    + left.
      exists ([RequestUrl url; Sleep 800; RequestUrl url; Sleep 1600; RequestUrl url] ++ before),
        url', data, lastErr'.
      rewrite E'. rewrite <- !app_assoc. split; [reflexivity|].
      split; [apply prefix_app; exact Hpre|].
      split; [rewrite <- app_assoc in Hans; exact Hans|].
      apply allRejected_app; assumption.
    + right. rewrite E', <- app_assoc. split.
      * f_equal. f_equal. f_equal. rewrite last_cons. destruct (last others); reflexivity.
      * apply allRejected_app; assumption.
Qed.

Lemma fetch_adds (fileName : string) (bases : list string) (t : Z) (tr : list Effect) :
  exists added,
    fst (fetchWithFallback env fileName bases t tr) = tr ++ added
    /\ prefix added (schedule fileName bases).
Proof.
  unfold fetchWithFallback, mbind, io_bind.
  destruct (tryBases_spec fileName t bases None tr)
    as [(before & url & data & lastErr' & E & Hpre & _)|[E _]]; rewrite E; simpl; eauto.
Qed.

(** [fetchWithFallback] asks the bases in turn, each three times with a
    pause of 800 ms and of 1600 ms between the attempts, and stops at the
    first answer, which it returns; when every request is rejected it
    throws the rejection of the last one, and with no base at all its own
    error. *)
Theorem fetch_follows_schedule (fileName : string) (bases : list string) (t : Z)
    (tr : list Effect) :
  exists added,
    fst (fetchWithFallback env fileName bases t tr) = tr ++ added
    /\ prefix added (schedule fileName bases)
    /\ match snd (fetchWithFallback env fileName bases t tr) with
       | Done data =>
           exists before url, added = before ++ [RequestUrl url]
             /\ requestAns env (tr ++ before) url = Some data
             /\ allRejected env tr before
       | Raised e =>
           added = schedule fileName bases /\ allRejected env tr added
           /\ e = lastError fileName bases
       end.
Proof.
  unfold fetchWithFallback, mbind, io_bind.
  destruct (tryBases_spec fileName t bases None tr)
    as [(before & url & data & lastErr' & E & Hpre & Hans & Hrej)|[E Hrej]]; rewrite E.
  - exists (before ++ [RequestUrl url]). simpl. split; [reflexivity|]. split; [exact Hpre|].
    exists before, url. auto.
  - exists (schedule fileName bases). simpl. split; [reflexivity|]. split; [reflexivity|].
    split; [reflexivity|]. split; [exact Hrej|]. unfold lastError.
    destruct (last bases); reflexivity.
Qed.

End Fetch.

End FetchFacts.

(** ** The installer stays inside its folder and its sources *)

Module InstallerFacts.

Import Vault DictInstaller InstallProps IOFacts FetchFacts.

Lemma schedule_elem (fileName : string) (bases : list string) (e : Effect) :
  e ∈ schedule fileName bases ->
  match e with
  | RequestUrl url => exists base, base ∈ bases /\ url = urlOf base fileName
  | Sleep ms => ms = 800 \/ ms = 1600
  | _ => False
  end.
Proof.
  unfold schedule. rewrite list_elem_of_In, in_flat_map.
  intros (base & Hb & He). apply list_elem_of_In in Hb. simpl in He.
  destruct He as [<- | [<- | [<- | [<- | [<- | []]]]]]; eauto.
Qed.

Section Installer.

Variable digest : list Z -> list Z.
Variable env : Env.
Variable configDir : option string.
Variable pluginId : string.
Variable m : Json.

Local Abbreviation confinedTo := (confined digest configDir pluginId m).

Lemma fetch_confined (names bases : list string) (name : string) (t : Z) :
  name ∈ names ->
  yields (confinedTo names (.∈ bases)) (fun _ => True) (fetchWithFallback env name bases t).
Proof.
  intros Hn tr. destruct (fetch_adds env name bases t tr) as (added & E & Hpre).
  exists added. split; [exact E|]. split; [|destruct (snd _); exact I].
  apply Forall_forall. intros e He.
  assert (Hs : e ∈ schedule name bases).
  { destruct Hpre as [k ->]. apply elem_of_app. left. exact He. }
  apply schedule_elem in Hs. destruct e; try contradiction; simpl.
  - destruct Hs as (base & Hb & ->). eauto.
  - exact Hs.
Qed.

Lemma tryReadBinary_yields (P : Effect -> Prop) (p : string) :
  P (ReadBinary p) -> yields P (fun _ => True) (tryReadBinary env p).
Proof.
  intros H. unfold tryReadBinary. apply yields_tryCatch.
  - eapply yields_bind; [apply (yields_call P (fun _ => True)); auto|].
    intros a _. apply yields_ret. exact I.
  - intros e. apply yields_ret. exact I.
Qed.

Lemma validate_yields (P : Effect -> Prop) (want : option Json) (buf : list Z) :
  yields P (fun ok => ok = true -> verified digest want buf) (validate digest want buf).
Proof.
  unfold validate. eapply yields_bind; [apply yields_field|]. intros bytes Hb.
  eapply yields_bind; [apply yields_field|]. intros sha Hs.
  apply yields_ret. intros H. apply andb_true_iff in H as [H1 H2].
  apply sameNumber_true in H1. apply sameString_true in H2. subst.
  destruct Hb as (fields & -> & Hb). destruct Hs as (fields' & [= <-] & Hs).
  exists fields. auto.
Qed.

Lemma checkFiles_yields (P : Effect -> Prop) (Q : string -> Prop) : forall names acc,
  (forall n, n ∈ names -> P (ReadBinary (relOf configDir pluginId n)) /\ Q n) ->
  Forall Q acc ->
  yields P (Forall Q) (checkFiles digest env configDir pluginId m names acc).
Proof.
  induction names as [|name rest IH]; intros acc Hn Hacc; cbn [checkFiles].
  - apply yields_ret. exact Hacc.
  - destruct (Hn name) as [HP HQ]; [left|].
    eapply (yields_bind P (fun _ => True)).
    + apply yields_tryCatch.
      * eapply yields_bind; [apply tryReadBinary_yields; exact HP|].
        intros [b|] _; [|apply yields_ret; exact I].
        eapply (yields_weaken P P); [| |apply validate_yields]; auto.
      * intros e. apply yields_ret. exact I.
    + intros ok _. apply IH.
      * intros n H. apply Hn. right. exact H.
      * destruct ok; [exact Hacc|]. apply Forall_app. split; [exact Hacc|].
        repeat constructor. exact HQ.
Qed.

Lemma installFile_confined (names bases : list string) (name : string) :
  name ∈ names ->
  yields (confinedTo names (.∈ bases)) (fun _ => True)
    (installFile digest env configDir pluginId m bases name).
Proof.
  intros Hn. unfold installFile. apply yields_tryCatch; [|intros e; apply yields_raise].
  eapply yields_bind; [apply fetch_confined; exact Hn|]. intros data _.
  eapply yields_bind; [apply yields_field|]. intros sha Hs.
  destruct (sameString (sha256Hex digest data) sha) eqn:E1; simpl; [|apply yields_raise].
  eapply yields_bind; [apply yields_field|]. intros bytes Hb.
  destruct (sameNumber (length data) bytes) eqn:E2; simpl; [|apply yields_raise].
  apply yields_call; [|auto].
  apply sameNumber_true in E2. apply sameString_true in E1. subst.
  destruct Hb as (fields & Hw & Hb). destruct Hs as (fields' & Hw' & Hs).
  rewrite Hw in Hw'. injection Hw' as <-.
  exists name. split; [exact Hn|]. split; [reflexivity|]. exists fields. auto.
Qed.

Lemma installFiles_confined (names bases : list string) : forall toInstall,
  Forall (.∈ names) toInstall ->
  yields (confinedTo names (.∈ bases)) (fun _ => True)
    (installFiles digest env configDir pluginId m bases toInstall).
Proof.
  induction toInstall as [|name rest IH]; intros H; cbn [installFiles].
  - apply yields_ret. exact I.
  - apply Forall_cons in H as [Hn Hrest].
    eapply yields_bind; [apply installFile_confined; exact Hn|]. intros _ _. apply IH. exact Hrest.
Qed.

Lemma basesOf_yields (P : Effect -> Prop) :
  yields P (Forall (sourceOf m)) (basesOf m).
Proof.
  unfold basesOf. destruct m as [| | | | |fields]; try (apply yields_ret; constructor).
  destruct (fields !! "sources"%string) as [[| | | |items|]|] eqn:E;
    try (apply yields_raise); try (apply yields_ret; constructor).
  apply yields_ret. apply Forall_forall. intros base Hb.
  apply list_elem_of_omap in Hb as (v & Hv & Hbase).
  exists fields, items. split; [reflexivity|]. split; [exact E|].
  destruct v; simpl in Hbase; try discriminate.
  destruct (String.eqb s "") eqn:Es; [discriminate|]. injection Hbase as ->.
  split; [exact Hv|]. intros ->. discriminate.
Qed.

Lemma ensure_confined :
  adds (confinedTo (namesOf m) (sourceOf m))
    (ensureDictInstalled digest env configDir pluginId m).
Proof.
  unfold adds, ensureDictInstalled.
  destruct (isValidManifest m); simpl; [|apply yields_ret; exact I].
  eapply (yields_bind _ (fun _ => True)).
  { unfold ensureDirectory. apply yields_tryCatch; [|intros e; apply yields_raise].
    eapply (yields_bind _ (fun _ => True)); [apply yields_call; [reflexivity|auto]|].
    intros [|] _; simpl; [apply yields_ret; exact I|].
    apply yields_call; [reflexivity|auto]. }
  intros _ _.
  eapply (yields_bind _ (Forall (.∈ namesOf m))).
  { apply checkFiles_yields; [|constructor]. intros n Hn. split; [|exact Hn].
    exists n. auto. }
  intros toInstall Hin.
  destruct (length toInstall =? 0)%nat; [apply yields_ret; exact I|].
  eapply yields_bind; [apply basesOf_yields|]. intros bases Hb.
  destruct (length bases =? 0)%nat; [apply yields_ret; exact I|].
  eapply yields_weaken; [| |apply (installFiles_confined (namesOf m) bases); exact Hin]; [|auto].
  intros e. destruct e; simpl; auto.
  intros (name & base & Hn & Hbase & ->). exists name, base.
  split; [exact Hn|]. split; [|reflexivity].
  eapply Forall_forall in Hb; eauto.
Qed.

(** Whatever the vault and the network answer, the installer stays inside
    the dictionary folder and the sources of the manifest: it looks for
    and makes that folder only, reads and writes only files the manifest
    names, writes only bytes whose size and SHA-256 digest are the ones the
    manifest gives for that file, asks for such a file only at a non-empty
    string of [sources], and pauses for 800 or 1600 ms only. *)
Theorem installer_confined (tr : list Effect) :
  exists added,
    fst (ensureDictInstalled digest env configDir pluginId m tr) = tr ++ added
    /\ Forall (confined digest configDir pluginId m (namesOf m) (sourceOf m)) added.
Proof.
  destruct (ensure_confined tr) as (added & E & F & _). eauto.
Qed.

End Installer.

End InstallerFacts.

(** ** Digests in hexadecimal *)

Module HexFacts.

Import Vault DictInstaller InstallProps.

Lemma append_cons (c : ascii) (s1 s2 : string) : String c s1 +:+ s2 = String c (s1 +:+ s2).
Proof. reflexivity. Qed.

Lemma append_nil_l (s : string) : "" +:+ s = s.
Proof. reflexivity. Qed.

Lemma append_assoc (s1 s2 s3 : string) : (s1 +:+ s2) +:+ s3 = s1 +:+ (s2 +:+ s3).
Proof.
  induction s1 as [|c s1 IH]; [reflexivity|]. rewrite !append_cons, IH. reflexivity.
Qed.

Lemma append_nil_r (s : string) : s +:+ "" = s.
Proof. induction s as [|c s IH]; [reflexivity|]. rewrite append_cons, IH. reflexivity. Qed.

Lemma hexOf_from (bs : list Z) : forall acc,
  foldl (fun hex b => hex +:+ padStart2 (toString16 b)) acc bs = acc +:+ hexOf bs.
Proof.
  unfold hexOf. induction bs as [|b bs IH]; intros acc; simpl.
  - symmetry. apply append_nil_r.
  - rewrite append_nil_l, (IH (acc +:+ padStart2 (toString16 b))), (IH (padStart2 (toString16 b))).
    apply append_assoc.
Qed.

Lemma hexOf_cons (b : Z) (bs : list Z) :
  hexOf (b :: bs) = padStart2 (toString16 b) +:+ hexOf bs.
Proof. unfold hexOf at 1. simpl. rewrite append_nil_l. apply hexOf_from. Qed.

(** The two digits of a byte, and the byte of two digits. *)
Definition digitValue (c : ascii) : Z :=
  match List.find (fun d => Ascii.eqb (hexDigit d) c) (seqZ 0 16) with
  | Some d => d
  | None => 0
  end.

Definition byteOfHex (s : string) : Z :=
  match s with
  | String hi (String lo _) => 16 * digitValue hi + digitValue lo
  | _ => 0
  end.

Lemma byte_table :
  forallb (fun b =>
             match padStart2 (toString16 b) with
             | String hi (String lo EmptyString) =>
                 isHexChar hi && isHexChar lo
                 && (byteOfHex (padStart2 (toString16 b)) =? b)
             | _ => false
             end) (seqZ 0 256) = true.
Proof. vm_compute. reflexivity. Qed.

Lemma byte_two_digits (b : Z) :
  0 <= b < 256 ->
  exists hi lo, padStart2 (toString16 b) = String hi (String lo EmptyString)
    /\ isHexChar hi = true /\ isHexChar lo = true
    /\ byteOfHex (String hi (String lo EmptyString)) = b.
Proof.
  intros Hb. pose proof byte_table as T. rewrite forallb_forall in T.
  specialize (T b). rewrite <- list_elem_of_In, elem_of_seqZ in T.
  specialize (T ltac:(lia)).
  destruct (padStart2 (toString16 b)) as [|hi [|lo [|]]]; try discriminate.
  apply andb_true_iff in T as [T T3]. apply andb_true_iff in T as [T1 T2].
  apply Z.eqb_eq in T3. exists hi, lo. repeat split; assumption.
Qed.

Lemma hexOf_shape (bs : list Z) :
  Forall (fun b => 0 <= b < 256) bs ->
  String.length (hexOf bs) = (2 * length bs)%nat /\ isLowerHex (hexOf bs) = true.
Proof.
  induction 1 as [|b bs Hb _ [IH1 IH2]]; [split; reflexivity|].
  rewrite hexOf_cons. destruct (byte_two_digits b Hb) as (hi & lo & -> & H1 & H2 & _).
  rewrite !append_cons, append_nil_l. simpl. rewrite IH1, H1, H2, IH2. split; [lia|reflexivity].
Qed.

Lemma hexOf_inj (bs1 : list Z) : forall bs2,
  Forall (fun b => 0 <= b < 256) bs1 -> Forall (fun b => 0 <= b < 256) bs2 ->
  hexOf bs1 = hexOf bs2 -> bs1 = bs2.
Proof.
  induction bs1 as [|b1 bs1 IH]; intros bs2 H1 H2 E.
  - destruct bs2 as [|b2 bs2]; [reflexivity|].
    apply Forall_cons in H2 as [Hb2 _]. rewrite hexOf_cons in E.
    destruct (byte_two_digits b2 Hb2) as (hi & lo & E2 & _). rewrite E2 in E. discriminate.
  - apply Forall_cons in H1 as [Hb1 H1]. rewrite hexOf_cons in E.
    destruct (byte_two_digits b1 Hb1) as (hi1 & lo1 & E1 & _ & _ & V1).
    destruct bs2 as [|b2 bs2]; [rewrite E1 in E; discriminate|].
    apply Forall_cons in H2 as [Hb2 H2]. rewrite hexOf_cons in E.
    destruct (byte_two_digits b2 Hb2) as (hi2 & lo2 & E2 & _ & _ & V2).
    rewrite E1, E2, !append_cons, !append_nil_l in E. injection E as -> -> E.
    rewrite V1 in V2. subst b2. f_equal. apply IH; assumption.
Qed.

(** [sha256Hex] writes a digest of [n] bytes with [2 n] lower-case
    hexadecimal digits, and two buffers have the same text exactly when
    they have the same digest: the comparison of the installer with the
    [sha256] of the manifest is a comparison of digests, and a [sha256]
    written in upper case equals none. *)
Theorem digest_text_faithful (digest : list Z -> list Z) (buf1 buf2 : list Z) :
  (forall buf, Forall (fun b => 0 <= b < 256) (digest buf)) ->
  String.length (sha256Hex digest buf1) = (2 * length (digest buf1))%nat
  /\ isLowerHex (sha256Hex digest buf1) = true
  /\ (sha256Hex digest buf1 = sha256Hex digest buf2 <-> digest buf1 = digest buf2).
Proof.
  intros H. unfold sha256Hex. destruct (hexOf_shape (digest buf1) (H buf1)) as [L X].
  split; [exact L|]. split; [exact X|]. split.
  - apply hexOf_inj; apply H.
  - intros ->. reflexivity.
Qed.

End HexFacts.

(** ** What the installer leaves in the vault *)

Module VaultFacts.

Import Vault DictInstaller InstallProps IOFacts FetchFacts InstallerFacts.

Lemma relOf_inj (configDir : option string) (pluginId : string) (n1 n2 : string) :
  relOf configDir pluginId n1 = relOf configDir pluginId n2 -> n1 = n2.
Proof.
  unfold relOf. intros H.
  apply (String.app_inj (dictDir configDir pluginId)) in H.
  apply (String.app_inj "/") in H. exact H.
Qed.

Lemma fileAt_unwritten init tr added p :
  Forall (fun e => written p e = None) added ->
  fileAt init (tr ++ added) p = fileAt init tr p.
Proof.
  intros H. unfold fileAt. rewrite omap_app.
  assert (E : omap (written p) added = []).
  { induction H as [|e l He _ IH]; [reflexivity|]. simpl. rewrite He. exact IH. }
  rewrite E, app_nil_r. reflexivity.
Qed.

Lemma fileAt_written init tr added p (Q : list Z -> Prop) :
  (exists data, WriteBinary p data ∈ added) ->
  (forall data, WriteBinary p data ∈ added -> Q data) ->
  exists data, fileAt init (tr ++ added) p = Some data /\ Q data.
Proof.
  intros [d0 Hd0] HQ. unfold fileAt. rewrite omap_app.
  assert (Hin : d0 ∈ omap (written p) added).
  { apply list_elem_of_omap. exists (WriteBinary p d0). split; [exact Hd0|].
    simpl. rewrite String.eqb_refl. reflexivity. }
  destruct (last (omap (written p) tr ++ omap (written p) added)) as [d|] eqn:L.
  - exists d. split; [reflexivity|].
    rewrite last_app in L.
    destruct (last (omap (written p) added)) as [d'|] eqn:L'.
    + injection L as ->. apply last_Some_elem_of in L'.
      apply list_elem_of_omap in L' as (e & He & Hw).
      destruct e; simpl in Hw; try discriminate.
      destruct (String.eqb path p) eqn:Ep; [|discriminate].
      apply String.eqb_eq in Ep. subst. injection Hw as ->. apply HQ. exact He.
    + apply last_None in L'. rewrite L' in Hin. inversion Hin.
  - apply last_None in L. apply app_eq_nil in L as [_ L]. rewrite L in Hin. inversion Hin.
Qed.

Lemma field_pure (want : option Json) (k : string) (tr : list Effect) :
  fst (field want k tr) = tr.
Proof. destruct want as [[| | | | |fields]|]; reflexivity. Qed.

Section Installed.

Variable digest : list Z -> list Z.
Variable env : Env.
Variable configDir : option string.
Variable pluginId : string.
Variable m : Json.

Local Abbreviation rel := (relOf configDir pluginId).
Local Abbreviation reads := (map (fun n => ReadBinary (rel n))).

Lemma validate_pure (want : option Json) (buf : list Z) (tr : list Effect) :
  exists o, validate digest want buf tr = (tr, o)
    /\ (o = Done true <-> verified digest want buf).
Proof.
  unfold validate, mbind, io_bind, mret, io_ret, field, raise.
  destruct want as [[| | | | |fields]|]; simpl; eexists; (split; [reflexivity|]); split.
  all: try (intros H; discriminate H).
  all: try (intros (f & Hf & _); discriminate Hf).
  - intros [= H]. apply andb_true_iff in H as [H1 H2].
    apply sameNumber_true in H1. apply sameString_true in H2.
    exists fields. auto.
  - intros (f & [= <-] & Hs & Hb). rewrite Hs, Hb. simpl.
    rewrite Z.eqb_refl, String.eqb_refl. reflexivity.
Qed.

(** The check of one file: what was read, and whether it is what the
    manifest asks for. *)
Lemma check_one (name : string) (tr : list Effect) :
  exists ok,
    tryCatch
      (buf ← tryReadBinary env (rel name);
       match buf with
       | Some b => validate digest (prop m name) b
       | None => mret false
       end)
      (fun _ => mret false) tr
    = (tr ++ [ReadBinary (rel name)], Done ok)
    /\ (ok = true <-> exists buf, readAns env tr (rel name) = Some buf
                       /\ verified digest (prop m name) buf).
Proof.
  unfold tryCatch at 1, mbind at 1, io_bind at 1, tryReadBinary, tryCatch, mbind, io_bind, call,
    mret, io_ret. simpl.
  destruct (readAns env tr (rel name)) as [buf|] eqn:R.
  - destruct (validate_pure (prop m name) buf (tr ++ [ReadBinary (rel name)]))
      as (o & E & Ho).
    fold (@mbind IO _) in *. rewrite E.
    destruct o as [[|]|e].
    + exists true. split; [reflexivity|]. split; [intros _|reflexivity].
      exists buf. split; [reflexivity|]. apply Ho. reflexivity.
    + exists false. split; [reflexivity|]. split; [discriminate|].
      intros (b & [= <-] & Hv). apply Ho in Hv. discriminate.
    + exists false. split; [reflexivity|]. split; [discriminate|].
      intros (b & [= <-] & Hv). apply Ho in Hv. discriminate.
  - exists false. split; [reflexivity|]. split; [discriminate|].
    intros (b & [=] & _).
Qed.

Lemma checkFiles_step (name : string) (rest acc : list string) (tr : list Effect) :
  exists ok,
    checkFiles digest env configDir pluginId m (name :: rest) acc tr
    = checkFiles digest env configDir pluginId m rest
        (if ok : bool then acc else acc ++ [name]) (tr ++ [ReadBinary (rel name)])
    /\ (ok = true <-> exists buf, readAns env tr (rel name) = Some buf
                       /\ verified digest (prop m name) buf).
Proof.
  destruct (check_one name tr) as (ok & E & Hok). exists ok. split; [|exact Hok].
  cbn [checkFiles]. unfold mbind at 1, io_bind at 1. rewrite E. reflexivity.
Qed.

(** With every file in place the check reads each file and asks for
    none. *)
Lemma checkFiles_all_valid : forall names acc tr,
  (forall t n, n ∈ names ->
     exists buf, readAns env t (rel n) = Some buf /\ verified digest (prop m n) buf) ->
  checkFiles digest env configDir pluginId m names acc tr = (tr ++ reads names, Done acc).
Proof.
  induction names as [|name rest IH]; intros acc tr H.
  - simpl. rewrite app_nil_r. reflexivity.
  - destruct (checkFiles_step name rest acc tr) as (ok & E & Hok). rewrite E.
    assert (ok = true) as -> by (apply Hok, H; left).
    rewrite IH by (intros t n Hn; apply H; right; exact Hn).
    rewrite <- app_assoc. reflexivity.
Qed.

Section Consistent.

(** The vault keeps what is written to it: a read gives what the last
    write to the path handed over, or what was there before. *)
Variable init : string -> option (list Z).
Hypothesis reads_last_write : forall t p, readAns env t p = fileAt init t p.

Lemma checkFiles_fs : forall names acc tr,
  exists out,
    checkFiles digest env configDir pluginId m names acc tr
    = (tr ++ reads names, Done (acc ++ out))
    /\ Forall (.∈ names) out
    /\ forall n, n ∈ names ->
         n ∈ out \/ exists buf, fileAt init tr (rel n) = Some buf
                               /\ verified digest (prop m n) buf.
Proof.
  induction names as [|name rest IH]; intros acc tr.
  - exists []. simpl. rewrite !app_nil_r. split; [reflexivity|]. split; [constructor|].
    intros n Hn. inversion Hn.
  - destruct (checkFiles_step name rest acc tr) as (ok & E & Hok). rewrite E.
    destruct (IH (if ok then acc else acc ++ [name]) (tr ++ [ReadBinary (rel name)]))
      as (out & E' & Hsub & Hrest).
    assert (Hsame : forall p, fileAt init (tr ++ [ReadBinary (rel name)]) p = fileAt init tr p).
    { intros p. apply fileAt_unwritten. repeat constructor. }
    exists (if ok then out else name :: out). rewrite E'.
    split; [destruct ok; rewrite <- ?app_assoc; reflexivity|].
    split.
    { assert (Forall (.∈ name :: rest) out).
      { eapply Forall_impl; [exact Hsub|]. intros x Hx. right. exact Hx. }
      destruct ok; [assumption|]. constructor; [left|assumption]. }
    intros n Hn. apply elem_of_cons in Hn as [-> | Hn].
    + destruct ok.
      * right. destruct (proj1 Hok eq_refl) as (buf & R & V).
        exists buf. rewrite <- reads_last_write. auto.
      * left. left.
    + destruct (Hrest n Hn) as [Hin|(buf & F & V)].
      * left. destruct ok; [exact Hin|right; exact Hin].
      * right. exists buf. rewrite <- Hsame. auto.
Qed.

End Consistent.

Lemma installFile_done (bases : list string) (name : string) (tr tr' : list Effect) :
  installFile digest env configDir pluginId m bases name tr = (tr', Done tt) ->
  exists added data, tr' = tr ++ added ++ [WriteBinary (rel name) data].
Proof.
  unfold installFile, tryCatch. unfold mbind at 1, io_bind at 1.
  destruct (fetch_adds env name bases DOWNLOAD_TIMEOUT_MS tr) as (added & E & _).
  destruct (fetchWithFallback env name bases DOWNLOAD_TIMEOUT_MS tr) as [tr1 [data|e]];
    simpl in E; subst tr1; [|discriminate].
  unfold mbind at 1, io_bind at 1.
  pose proof (field_pure (prop m name) "sha256" (tr ++ added)) as F1.
  destruct (field (prop m name) "sha256" (tr ++ added)) as [tr1 [sha|e]];
    simpl in F1; subst tr1; [|discriminate].
  destruct (negb (sameString (sha256Hex digest data) sha)); [discriminate|].
  unfold mbind at 1, io_bind at 1.
  pose proof (field_pure (prop m name) "bytes" (tr ++ added)) as F2.
  destruct (field (prop m name) "bytes" (tr ++ added)) as [tr1 [bytes|e]];
    simpl in F2; subst tr1; [|discriminate].
  destruct (negb (sameNumber (length data) bytes)); [discriminate|].
  unfold call. destruct (writeAns env (tr ++ added) (rel name) data); [|discriminate].
  intros [= <-]. exists added, data. rewrite app_assoc. reflexivity.
Qed.

Lemma installFiles_done (bases : list string) : forall toInstall tr tr',
  installFiles digest env configDir pluginId m bases toInstall tr = (tr', Done tt) ->
  exists added, tr' = tr ++ added
    /\ forall n, n ∈ toInstall -> exists data, WriteBinary (rel n) data ∈ added.
Proof.
  induction toInstall as [|name rest IH]; intros tr tr' H.
  - injection H as <-. exists []. rewrite app_nil_r. split; [reflexivity|].
    intros n Hn. inversion Hn.
  - cbn [installFiles] in H. unfold mbind at 1, io_bind at 1 in H.
    destruct (installFile digest env configDir pluginId m bases name tr) as [tr1 [[]|e]] eqn:E;
      [|discriminate].
    apply installFile_done in E as (added1 & data & ->).
    apply IH in H as (added2 & -> & Hrest).
    exists ((added1 ++ [WriteBinary (rel name) data]) ++ added2).
    rewrite <- !app_assoc. split; [reflexivity|].
    intros n Hn. apply elem_of_cons in Hn as [-> | Hn].
    + exists data. rewrite !elem_of_app. right. left. left.
    + destruct (Hrest n Hn) as (d & Hd). exists d. rewrite !elem_of_app. right. right. exact Hd.
Qed.

Lemma ensureDirectory_spec (tr : list Effect) :
  exists pre o,
    ensureDirectory env configDir pluginId tr = (tr ++ pre, o)
    /\ Forall quiet pre
    /\ (o = Done tt
        \/ exists e, o = Raised (Rejected e)
             /\ (e = ExistsAt (dictDir configDir pluginId)
                 \/ e = Mkdir (dictDir configDir pluginId))).
Proof.
  unfold ensureDirectory, tryCatch, mbind, io_bind, call, mret, io_ret, raise.
  destruct (existsAns env tr (dictDir configDir pluginId)) as [[|]|]; simpl.
  - eexists [_], _. split; [reflexivity|]. split; [repeat constructor|]. left. reflexivity.
  - destruct (mkdirAns env _ _); rewrite <- app_assoc; simpl.
    + eexists [_; _], _. split; [reflexivity|]. split; [repeat constructor|]. left. reflexivity.
    + eexists [_; _], _. split; [reflexivity|]. split; [repeat constructor|]. right. eauto.
  - eexists [_], _. split; [reflexivity|]. split; [repeat constructor|]. right. eauto.
Qed.

Lemma quiet_unwritten (p : string) (l : list Effect) :
  Forall quiet l -> Forall (fun e => written p e = None) l.
Proof.
  intros H. eapply Forall_impl; [exact H|].
  intros e He. destruct e; simpl in *; auto; contradiction.
Qed.

Lemma reads_quiet (names : list string) : Forall quiet (reads names).
Proof. induction names; constructor; auto. exact I. Qed.

Lemma quiet_spec :
  (forall t n, n ∈ namesOf m ->
     exists buf, readAns env t (rel n) = Some buf /\ verified digest (prop m n) buf) ->
  forall tr, exists added,
    fst (ensureDictInstalled digest env configDir pluginId m tr) = tr ++ added
    /\ Forall quiet added
    /\ (snd (ensureDictInstalled digest env configDir pluginId m tr) = Done tt
        \/ exists e, snd (ensureDictInstalled digest env configDir pluginId m tr)
                     = Raised (Rejected e)
             /\ (e = ExistsAt (dictDir configDir pluginId)
                 \/ e = Mkdir (dictDir configDir pluginId))).
Proof.
  intros Hv tr.
  assert (Hrun : exists added o,
             ensureDictInstalled digest env configDir pluginId m tr = (tr ++ added, o)
             /\ Forall quiet added
             /\ (o = Done tt
                 \/ exists e, o = Raised (Rejected e)
                      /\ (e = ExistsAt (dictDir configDir pluginId)
                          \/ e = Mkdir (dictDir configDir pluginId)))).
  { unfold ensureDictInstalled. destruct (isValidManifest m); simpl.
    2:{ exists [], (Done tt). rewrite app_nil_r. split; [reflexivity|].
        split; [constructor|]. left. reflexivity. }
    unfold mbind at 1, io_bind at 1.
    destruct (ensureDirectory_spec tr) as (pre & o & E & Hq & Ho). rewrite E.
    destruct Ho as [-> |(e & -> & He)].
    - unfold mbind at 1, io_bind at 1. rewrite (checkFiles_all_valid _ _ _ Hv). simpl.
      exists (pre ++ reads (namesOf m)), (Done tt). rewrite app_assoc. split; [reflexivity|].
      split; [apply Forall_app; split; [exact Hq|apply reads_quiet]|]. left. reflexivity.
    - exists pre, (Raised (Rejected e)). split; [reflexivity|]. split; [exact Hq|].
      right. eauto. }
  destruct Hrun as (added & o & E & Hq & Ho). exists added. rewrite E. simpl. auto.
Qed.

(** In a vault that keeps what is written to it, with a manifest the
    installer accepts and a source to ask, a run of the installer that
    returns leaves every file of the manifest in the dictionary folder,
    with the size and the digest the manifest gives for it. *)
Theorem installed_after_return (init : string -> option (list Z)) (tr tr' : list Effect) :
  (forall t p, readAns env t p = fileAt init t p) ->
  isValidManifest m = true ->
  (exists base, sourceOf m base) ->
  ensureDictInstalled digest env configDir pluginId m tr = (tr', Done tt) ->
  forall name, name ∈ namesOf m ->
    exists buf, fileAt init tr' (rel name) = Some buf
      /\ verified digest (prop m name) buf.
Proof.
  intros Hfs Hvalid (base & fields & items & Hm & Hsrc & Hbase & Hne) H name Hname.
  assert (Hbases : basesOf m = mret (omap isBase items)).
  { unfold basesOf. rewrite Hm, Hsrc. reflexivity. }
  unfold ensureDictInstalled in H. rewrite Hvalid in H. simpl in H.
  unfold mbind at 1, io_bind at 1 in H.
  destruct (ensureDirectory_spec tr) as (pre & o & E & Hq & _). rewrite E in H.
  destruct o as [[]|e]; [|discriminate].
  unfold mbind at 1, io_bind at 1 in H.
  destruct (checkFiles_fs init Hfs (namesOf m) [] (tr ++ pre))
    as (out & E' & Hsub & Hnames).
  rewrite E' in H. simpl in H.
  assert (Hpre : forall p, fileAt init (tr ++ pre) p = fileAt init tr p).
  { intros p. apply fileAt_unwritten, quiet_unwritten, Hq. }
  destruct (length out =? 0)%nat eqn:Hlen.
  - injection H as <-. apply Nat.eqb_eq in Hlen. destruct out; [|discriminate].
    destruct (Hnames name Hname) as [Hin|(buf & F & V)]; [inversion Hin|].
    exists buf. split; [|exact V].
    rewrite fileAt_unwritten by apply quiet_unwritten, reads_quiet. exact F.
  - rewrite Hbases in H. unfold mbind at 1, io_bind at 1, mret at 1, io_ret at 1 in H.
    assert (Hb : base ∈ omap isBase items).
    { apply list_elem_of_omap. exists (JStr base). split; [exact Hbase|]. simpl.
      destruct (String.eqb base "") eqn:Eb; [|reflexivity].
      apply String.eqb_eq in Eb. contradiction. }
    destruct (length (omap isBase items) =? 0)%nat eqn:Hlen'.
    { apply Nat.eqb_eq in Hlen'. destruct (omap isBase items); [inversion Hb|discriminate]. }
    pose proof (installFiles_confined digest env configDir pluginId m out
                  (omap isBase items) out) as Hconf.
    destruct (Hconf (proj2 (Forall_forall _ _) (fun x Hx => Hx)) ((tr ++ pre) ++ reads (namesOf m)))
      as (added & Ea & Hadded & _).
    destruct (installFiles_done _ _ _ _ H) as (added' & Etr & Hwritten).
    rewrite H in Ea. simpl in Ea. rewrite Etr in Ea. apply app_inv_head in Ea.
    subst added' tr'.
    destruct (decide (name ∈ out)) as [Hin|Hnot].
    + apply fileAt_written; [apply Hwritten; exact Hin|].
      intros data Hd. rewrite Forall_forall in Hadded. apply Hadded in Hd.
      destruct Hd as (n' & _ & Hrel & V). apply relOf_inj in Hrel. subst n'. exact V.
    + destruct (Hnames name Hname) as [Hin|(buf & F & V)]; [contradiction|].
      exists buf. split; [|exact V].
      rewrite fileAt_unwritten.
      { rewrite fileAt_unwritten by apply quiet_unwritten, reads_quiet. exact F. }
      eapply Forall_impl; [exact Hadded|]. intros e He.
      destruct e; simpl in *; auto.
      destruct (String.eqb path (rel name)) eqn:Ep; [|reflexivity].
      apply String.eqb_eq in Ep. destruct He as (n' & Hn' & Hrel & _).
      rewrite Ep in Hrel. apply relOf_inj in Hrel. subst n'. contradiction.
Qed.

(** With every file of the manifest in place the installer looks for the
    folder, makes it if it is not there, reads each file once in the order
    of the names, and does nothing else: no request, no pause, no write,
    whether the manifest has sources or not. It fails only if the folder
    cannot be looked for or made. *)
Theorem quiet_when_valid (tr : list Effect) :
  (forall t n, n ∈ namesOf m ->
     exists buf, readAns env t (rel n) = Some buf /\ verified digest (prop m n) buf) ->
  isValidManifest m = true ->
  ensureDictInstalled digest env configDir pluginId m tr
  = match existsAns env tr (dictDir configDir pluginId) with
    | Some true =>
        (tr ++ ExistsAt (dictDir configDir pluginId) :: reads (namesOf m), Done tt)
    | Some false =>
        if mkdirAns env (tr ++ [ExistsAt (dictDir configDir pluginId)])
             (dictDir configDir pluginId)
        then (tr ++ ExistsAt (dictDir configDir pluginId)
                 :: Mkdir (dictDir configDir pluginId) :: reads (namesOf m), Done tt)
        else (tr ++ [ExistsAt (dictDir configDir pluginId);
                     Mkdir (dictDir configDir pluginId)],
              Raised (Rejected (Mkdir (dictDir configDir pluginId))))
    | None =>
        (tr ++ [ExistsAt (dictDir configDir pluginId)],
         Raised (Rejected (ExistsAt (dictDir configDir pluginId))))
    end.
Proof.
  intros Hv Hvalid. unfold ensureDictInstalled. rewrite Hvalid. simpl.
  unfold mbind at 1, io_bind at 1.
  unfold ensureDirectory, tryCatch, mbind at 1, io_bind at 1, call, mret, io_ret, raise.
  destruct (existsAns env tr (dictDir configDir pluginId)) as [[|]|]; simpl.
  - unfold mbind at 1, io_bind at 1. rewrite (checkFiles_all_valid _ _ _ Hv). simpl.
    rewrite <- app_assoc. reflexivity.
  - destruct (mkdirAns env _ _); simpl.
    + unfold mbind at 1, io_bind at 1. rewrite (checkFiles_all_valid _ _ _ Hv). simpl.
      rewrite <- !app_assoc. reflexivity.
    + rewrite <- app_assoc. reflexivity.
  - reflexivity.
Qed.

(** A file whose [sha256] in the manifest is not written in lower-case
    hexadecimal is never written by the installer, whatever the network
    delivers. *)
Theorem mistyped_digest_never_written (name sha : string) (fields : gmap string Json)
    (tr : list Effect) :
  (forall buf, Forall (fun b => 0 <= b < 256) (digest buf)) ->
  prop m name = Some (JObj fields) ->
  fields !! "sha256"%string = Some (JStr sha) ->
  isLowerHex sha = false ->
  exists added,
    fst (ensureDictInstalled digest env configDir pluginId m tr) = tr ++ added
    /\ forall data, WriteBinary (rel name) data ∉ added.
Proof.
  intros Hbytes Hprop Hsha Hbad.
  destruct (ensure_confined digest env configDir pluginId m tr) as (added & E & Hall & _).
  exists added. split; [exact E|]. intros data Hin.
  rewrite Forall_forall in Hall. apply Hall in Hin.
  destruct Hin as (name' & _ & Hrel & fields' & Hprop' & Hsha' & _).
  apply relOf_inj in Hrel. subst name'. rewrite Hprop in Hprop'. injection Hprop' as <-.
  rewrite Hsha in Hsha'. injection Hsha' as ->.
  destruct (HexFacts.hexOf_shape (digest data) (Hbytes data)) as [_ Hhex]. congruence.
Qed.

End Installed.

End VaultFacts.

(** ** The tokenizer initializer *)

Module InitFacts.

Import Vault KuromojiInit InitProps HexFacts.

Lemma slashes_append (s1 s2 : string) : slashes (s1 +:+ s2) = slashes s1 +:+ slashes s2.
Proof.
  induction s1 as [|c s1 IH]; [reflexivity|].
  rewrite append_cons. simpl. rewrite IH, append_cons. reflexivity.
Qed.

(** Both modules name the same file. *)
Lemma baseRel_relOf (configDir : option string) (pluginId name : string) :
  baseRel configDir pluginId +:+ name = DictInstaller.relOf configDir pluginId name.
Proof.
  unfold baseRel, DictInstaller.relOf, DictInstaller.dictDir, DictInstaller.pluginDir.
  rewrite !slashes_append, !append_assoc. reflexivity.
Qed.

Section UrlMap.

Variable configDir : option string.
Variable pluginId : string.
Variable getResourcePath : string -> option string.

Local Abbreviation resolves := (fun name url =>
  getResourcePath (baseRel configDir pluginId +:+ name) = Some url /\ url <> ""%string).

Lemma buildUrlMapFrom_Ok : forall names map out,
  buildUrlMapFrom configDir pluginId getResourcePath names map = Ok out ->
  (forall name, name ∈ names -> exists url, resolves name url /\ out !! name = Some url)
  /\ (forall k, k ∉ names -> out !! k = map !! k).
Proof.
  induction names as [|name rest IH]; intros map out H.
  - injection H as <-. split; [intros n Hn; inversion Hn|reflexivity].
  - cbn [buildUrlMapFrom] in H.
    destruct (getResourcePath (baseRel configDir pluginId +:+ name)) as [url|] eqn:R;
      [|discriminate].
    destruct (String.eqb url "") eqn:Eu; [discriminate|].
    apply String.eqb_neq in Eu.
    destruct (IH _ _ H) as [Hin Hout]. split.
    + intros n Hn. apply elem_of_cons in Hn as [-> | Hn]; [|apply Hin; exact Hn].
      destruct (decide (name ∈ rest)) as [Hr|Hr].
      * destruct (Hin name Hr) as (url' & [R' Hne] & Hl). exists url'. repeat split; auto.
      * exists url. split; [split; assumption|]. rewrite (Hout name Hr).
        apply lookup_insert_eq.
    + intros k Hk. apply not_elem_of_cons in Hk as [Hne Hk].
      rewrite (Hout k Hk). apply lookup_insert_ne. congruence.
Qed.

Lemma buildUrlMapFrom_Throw : forall names map,
  (exists out, buildUrlMapFrom configDir pluginId getResourcePath names map = Ok out)
  \/ (buildUrlMapFrom configDir pluginId getResourcePath names map = Throw
      /\ exists name, name ∈ names /\ forall url, ~ resolves name url).
Proof.
  induction names as [|name rest IH]; intros map; [left; eexists; reflexivity|].
  cbn [buildUrlMapFrom].
  destruct (getResourcePath (baseRel configDir pluginId +:+ name)) as [url|] eqn:R.
  - destruct (String.eqb url "") eqn:Eu.
    + right. split; [reflexivity|]. exists name. split; [left|].
      intros url' [R' Hne]. rewrite R in R'. injection R' as <-.
      apply String.eqb_eq in Eu. contradiction.
    + destruct (IH (<[name := url]> map)) as [Hok|[Ht (n & Hn & Hno)]]; [left; exact Hok|].
      right. split; [exact Ht|]. exists n. split; [right; exact Hn|exact Hno].
  - right. split; [reflexivity|]. exists name. split; [left|].
    intros url' [R' _]. rewrite R in R'. discriminate.
Qed.

Lemma prefix_append (s rest : string) : String.prefix s (s +:+ rest) = true.
Proof.
  induction s as [|c s IH]; [destruct rest; reflexivity|].
  rewrite append_cons. simpl. destruct (ascii_dec c c); [exact IH|contradiction].
Qed.

Lemma sentinel_prefix (rest : string) : String.prefix SENTINEL (SENTINEL +:+ rest) = true.
Proof. apply prefix_append. Qed.

Lemma sentinel_slice (sep : ascii) (name : string) :
  slice (String.length SENTINEL + 1) (SENTINEL +:+ String sep name) = name.
Proof. reflexivity. Qed.

Lemma dict_files_own : forall file, file ∈ DICT_FILES -> file ∉ OBJECT_PROTOTYPE.
Proof.
  intros file H1 H2. apply list_elem_of_In in H1, H2.
  assert (E : existsb (fun f => existsb (String.eqb f) OBJECT_PROTOTYPE) DICT_FILES = false)
    by (vm_compute; reflexivity).
  assert (E' : existsb (fun f => existsb (String.eqb f) OBJECT_PROTOTYPE) DICT_FILES = true).
  { apply existsb_exists. exists file. split; [exact H1|].
    apply existsb_exists. exists file. split; [exact H2|apply String.eqb_refl]. }
  congruence.
Qed.

(** [buildUrlMap] either resolves every dictionary file or throws because
    one of them has no resource path. With its map, the patched [open]
    rewrites the sentinel followed by any one character and the name of a
    dictionary file to the resource path of the file the installer writes;
    it rewrites the sentinel followed by a name of [Object.prototype] to
    what that name holds; every other URL it hands on as it is. *)
Theorem dictionary_urls_rewritten :
  match buildUrlMap configDir pluginId getResourcePath with
  | Ok urlMap =>
      (forall name sep, name ∈ DICT_FILES ->
         exists url,
           getResourcePath (DictInstaller.relOf configDir pluginId name) = Some url
           /\ url <> ""%string
           /\ patchedUrl urlMap (UrlString (SENTINEL +:+ String sep name)) = UrlString url)
      /\ (forall url,
            String.prefix SENTINEL url = true ->
            slice (String.length SENTINEL + 1) url ∈ OBJECT_PROTOTYPE ->
            patchedUrl urlMap (UrlString url)
            = UrlInherited (slice (String.length SENTINEL + 1) url))
      /\ (forall url,
            String.prefix SENTINEL url = false
            \/ ((slice (String.length SENTINEL + 1) url ∉ DICT_FILES)
                /\ (slice (String.length SENTINEL + 1) url ∉ OBJECT_PROTOTYPE)) ->
            patchedUrl urlMap (UrlString url) = UrlString url)
  | Throw =>
      exists name, name ∈ DICT_FILES
        /\ (getResourcePath (DictInstaller.relOf configDir pluginId name) = None
            \/ getResourcePath (DictInstaller.relOf configDir pluginId name) = Some ""%string)
  | OutOfFuel => False
  end.
Proof.
  unfold buildUrlMap.
  destruct (buildUrlMapFrom_Throw DICT_FILES ∅) as [[urlMap E]|[E (name & Hn & Hno)]]; rewrite E.
  - destruct (buildUrlMapFrom_Ok _ _ _ E) as [Hin Hout]. split; [|split].
    + intros name sep Hn. destruct (Hin name Hn) as (url & [R Hne] & Hl).
      exists url. rewrite <- baseRel_relOf. split; [exact R|]. split; [exact Hne|].
      unfold patchedUrl. rewrite sentinel_prefix, sentinel_slice. unfold mapped. rewrite Hl.
      apply String.eqb_neq in Hne. rewrite Hne. reflexivity.
    + intros url Hp Hs. unfold patchedUrl. rewrite Hp. unfold mapped.
      rewrite Hout, lookup_empty by (intros Hd; exact (dict_files_own _ Hd Hs)).
      rewrite bool_decide_eq_true_2 by exact Hs. reflexivity.
    + intros url [Hp|[Hd Hs]]; unfold patchedUrl; [rewrite Hp; reflexivity|].
      destruct (String.prefix SENTINEL url); [|reflexivity]. unfold mapped.
      rewrite Hout, lookup_empty by exact Hd.
      rewrite bool_decide_eq_false_2 by exact Hs. reflexivity.
  - exists name. split; [exact Hn|]. rewrite <- baseRel_relOf.
    destruct (getResourcePath (baseRel configDir pluginId +:+ name)) as [url|] eqn:R;
      [|left; reflexivity].
    right. destruct (String.eqb url "") eqn:Eu; [apply String.eqb_eq in Eu; congruence|].
    exfalso. apply (Hno url). split; [reflexivity|]. apply String.eqb_neq. exact Eu.
Qed.

End UrlMap.

Section Initializer.

Variable Tokenizer : Type.

Local Abbreviation state := (State Tokenizer).

Lemma run_snoc (events : list (Event Tokenizer)) (ev : Event Tokenizer) :
  run Tokenizer (events ++ [ev]) = step Tokenizer (run Tokenizer events) ev.
Proof. unfold run. rewrite foldl_app. reflexivity. Qed.

Lemma run_app (events more : list (Event Tokenizer)) :
  run Tokenizer (events ++ more) = foldl (step Tokenizer) (run Tokenizer events) more.
Proof. unfold run. apply foldl_app. Qed.

Lemma balanced_cases (st : state) :
  balanced st <->
  (pending _ st = [] /\ building _ st = false /\ xhrOpen _ st = Native)
  \/ (pending _ st = [Native] /\ building _ st = true /\ tokenizer _ st = None
      /\ exists urlMap, xhrOpen _ st = Patched urlMap Native).
Proof.
  unfold balanced. destruct (pending _ st) as [|o [|o' rest]]; split.
  - intros [H1 H2]. left. auto.
  - intros [(_ & H1 & H2)|(H & _)]; [auto|discriminate].
  - intros (-> & H). right. auto.
  - intros [(H & _)|([= ->] & H)]; [discriminate|auto].
  - intros [].
  - intros [(H & _)|(H & _)]; discriminate.
Qed.

Lemma step_balanced (st : state) (ev : Event Tokenizer) :
  balanced st -> balanced (step Tokenizer st ev).
Proof.
  intros H. pose proof H as H'. apply balanced_cases in H'.
  destruct ev as [configDir pluginId getResourcePath throws|i err built].
  - cbn [step]. unfold initializeTokenizer.
    destruct (tokenizer _ st) as [t|]; [exact H|].
    destruct H' as [(Hp & Hb & Ho)|(Hp & Hb & _)]; rewrite Hb; [|exact H].
    apply balanced_cases.
    destruct (buildUrlMap configDir pluginId getResourcePath) as [urlMap| |]; simpl.
    + destruct throws; simpl; rewrite ?Hp, ?Ho.
      * left. auto.
      * right. repeat split; eauto.
    + left. auto.
    + left. auto.
  - cbn [step]. unfold buildCallback.
    destruct H' as [(Hp & Hb & Ho)|(Hp & Hb & Ht & urlMap & Ho)]; rewrite Hp.
    + rewrite lookup_nil. exact H.
    + destruct i as [|i]; simpl; [|exact H].
      apply balanced_cases.
      destruct (err || negb (bool_decide (is_Some built))); simpl; left; auto.
Qed.

Lemma step_settled (st : state) (ev : Event Tokenizer) :
  balanced st -> is_Some (tokenizer _ st) -> step Tokenizer st ev = st.
Proof.
  intros H [t Ht]. apply balanced_cases in H.
  destruct ev as [configDir pluginId getResourcePath throws|i err built].
  - cbn [step]. unfold initializeTokenizer. rewrite Ht. reflexivity.
  - cbn [step]. unfold buildCallback.
    destruct H as [(Hp & _)|(_ & _ & Hnone & _)]; [|congruence].
    rewrite Hp, lookup_nil. reflexivity.
Qed.

Lemma run_balanced (events : list (Event Tokenizer)) : balanced (run Tokenizer events).
Proof.
  induction events as [|ev events IH] using rev_ind.
  - apply balanced_cases. left. auto.
  - rewrite run_snoc. apply step_balanced. exact IH.
Qed.

(** Whatever is called in whatever order, the patch of [open] is in place
    exactly while one build is on its way, so that with no build pending
    every URL is opened as it is given; the poll of a call that came
    during a build resolves exactly when no build is pending any more,
    whether that build failed or not; and once a tokenizer is there,
    nothing changes any more: it is never replaced and [open] is never
    patched again. *)
Theorem initializer_balanced (events : list (Event Tokenizer)) :
  balanced (run Tokenizer events)
  /\ (pending _ (run Tokenizer events) = [] ->
      forall url, openedUrl (xhrOpen _ (run Tokenizer events)) url = url)
  /\ (pollResolves _ (run Tokenizer events) = true <-> pending _ (run Tokenizer events) = [])
  /\ (forall more, is_Some (tokenizer _ (run Tokenizer events)) ->
      run Tokenizer (events ++ more) = run Tokenizer events).
Proof.
  pose proof (run_balanced events) as B. split; [exact B|]. split; [|split].
  - intros Hp url. apply balanced_cases in B.
    destruct B as [(_ & _ & ->)|(Hp' & _)]; [reflexivity|congruence].
  - apply balanced_cases in B. unfold pollResolves.
    destruct B as [(Hp & Hb & _)|(Hp & Hb & Ht & _)]; rewrite Hp, Hb.
    + rewrite orb_true_r. split; reflexivity.
    + rewrite Ht. split; [|discriminate]. simpl. discriminate.
  - intros more Ht. rewrite run_app.
    induction more as [|ev more IH]; [reflexivity|].
    simpl. rewrite step_settled by assumption. exact IH.
Qed.

End Initializer.

End InitFacts.

(** ** The manifest script and the installer *)

Module ScriptFacts.

Import Vault DictInstaller InstallProps ManifestScript VaultFacts.

Lemma namesOf_elem (fields : gmap string Json) (name : string) :
  name ∈ namesOf (JObj fields) <-> name <> "sources"%string /\ is_Some (fields !! name).
Proof.
  unfold namesOf. rewrite merge_sort_Permutation. simpl.
  rewrite list_elem_of_In, filter_In, <- list_elem_of_In, negb_true_iff, String.eqb_neq.
  rewrite list_elem_of_fmap. split.
  - intros [([k v] & -> & Hkv) Hne]. apply elem_of_map_to_list in Hkv. simpl in *.
    split; [exact Hne|eauto].
  - intros [Hne [v Hv]]. split; [|exact Hne]. exists (name, v). split; [reflexivity|].
    apply elem_of_map_to_list. exact Hv.
Qed.

Lemma isValidManifest_obj (fields : gmap string Json) :
  isValidManifest (JObj fields) = true <->
  forall k v, fields !! k = Some v -> k = "sources"%string \/ entryOk v = true.
Proof.
  unfold isValidManifest. simpl. rewrite forallb_forall. split.
  - intros H k v Hkv. specialize (H (k, v)). simpl in H.
    rewrite <- list_elem_of_In, elem_of_map_to_list in H. specialize (H Hkv).
    apply orb_true_iff in H as [H|H]; [left; apply String.eqb_eq; exact H|right; exact H].
  - intros H [k v] Hin. apply list_elem_of_In, elem_of_map_to_list in Hin. simpl.
    destruct (H k v Hin) as [-> | Hv]; [reflexivity|]. rewrite Hv. apply orb_true_r.
Qed.

Section Script.

Variable digest : list Z -> list Z.
Variable localeSort : list string -> list string.
Hypothesis localeSort_perm : forall l, localeSort l ≡ₚ l.

Variable penv : ProcessEnv.
Variable dir : list Dirent.
Variable existing : option Json.

Local Abbreviation files := (listDictFiles localeSort dir).
Local Abbreviation entry := (fun name => sha256Hex digest (readFile dir name)).

Lemma files_dat_gz (name : string) : name ∈ files -> endsWith name ".dat.gz" = true.
Proof.
  unfold listDictFiles. rewrite localeSort_perm, list_elem_of_fmap.
  intros (e & -> & He). apply list_elem_of_In, filter_In in He as [_ He].
  apply andb_true_iff in He as [_ He]. exact He.
Qed.

Lemma entry_verified (name : string) :
  verified digest (Some (entry name)) (readFile dir name).
Proof.
  eexists. split; [reflexivity|]. split.
  - apply lookup_insert_eq.
  - rewrite lookup_insert_ne by discriminate. apply lookup_insert_eq.
Qed.

Lemma entry_ok (name : string) : entryOk (entry name) = true.
Proof.
  unfold sha256Hex, entryOk. rewrite lookup_insert_eq.
  rewrite lookup_insert_ne by discriminate. rewrite lookup_insert_eq. reflexivity.
Qed.

Lemma manifest_lookup : forall (l : list string) (acc : gmap string Json) (k : string),
  foldl (fun acc name => <[name := entry name]> acc) acc l !! k
  = if decide (k ∈ l) then Some (entry k) else acc !! k.
Proof.
  induction l as [|n l IH]; intros acc k; simpl.
  - destruct (decide (k ∈ [])) as [H|_]; [inversion H|reflexivity].
  - rewrite IH. destruct (decide (k ∈ l)) as [Hl|Hl].
    + rewrite decide_True by (right; exact Hl). reflexivity.
    + destruct (decide (k = n)) as [-> | Hne].
      * rewrite decide_True by left. apply lookup_insert_eq.
      * rewrite decide_False by (intros H; apply elem_of_cons in H as [H|H]; contradiction).
        apply lookup_insert_ne. congruence.
Qed.

Lemma ordered_lookup (manifest : gmap string Json) :
  forall (l : list string) (acc : gmap string Json) (k : string),
  (forall n, n ∈ l -> manifest !! n = Some (entry n)) ->
  foldl (fun acc name => match manifest !! name with
                         | Some v => <[name := v]> acc
                         | None => acc
                         end) acc l !! k
  = if decide (k ∈ l) then Some (entry k) else acc !! k.
Proof.
  induction l as [|n l IH]; intros acc k H; simpl.
  - destruct (decide (k ∈ [])) as [H'|_]; [inversion H'|reflexivity].
  - rewrite IH by (intros x Hx; apply H; right; exact Hx).
    rewrite (H n) by left.
    destruct (decide (k ∈ l)) as [Hl|Hl].
    + rewrite decide_True by (right; exact Hl). reflexivity.
    + destruct (decide (k = n)) as [-> | Hne].
      * rewrite decide_True by left. apply lookup_insert_eq.
      * rewrite decide_False by (intros H'; apply elem_of_cons in H' as [H'|H']; contradiction).
        apply lookup_insert_ne. congruence.
Qed.

(** The object the script writes: the sources, the overrides that were
    kept, and an entry for each file. *)
Lemma main_spec (m : Json) :
  main digest localeSort penv dir existing = Ok m ->
  exists fields, m = JObj fields
    /\ files <> []
    /\ forall k, fields !! k =
         if decide (k ∈ files) then Some (entry k)
         else if String.eqb k "sources" then Some (JArr [JStr (GH_RELEASE_BASE penv)])
         else if String.eqb k "_overrides" then
           match loadExistingOverrides existing with
           | Some (JObj o) => Some (JObj o)
           | Some (JArr a) => Some (JArr a)
           | _ => None
           end
         else None.
Proof.
  unfold main. destruct (length files =? 0)%nat eqn:Hlen; [discriminate|].
  intros [= <-]. eexists. split; [reflexivity|]. split.
  { intros E. rewrite E in Hlen. discriminate. }
  intros k. rewrite ordered_lookup.
  2:{ intros n Hn. rewrite manifest_lookup. rewrite decide_True by exact Hn. reflexivity. }
  destruct (decide (k ∈ files)) as [_|_]; [reflexivity|].
  destruct (String.eqb k "sources") eqn:Es.
  { apply String.eqb_eq in Es. subst k.
    destruct (loadExistingOverrides existing) as [[| | | | |]|];
      rewrite ?lookup_insert_ne by discriminate; apply lookup_singleton_eq. }
  apply String.eqb_neq in Es.
  destruct (String.eqb k "_overrides") eqn:Eo.
  { apply String.eqb_eq in Eo. subst k.
    destruct (loadExistingOverrides existing) as [[| | | | |]|];
      rewrite ?lookup_insert_eq; try reflexivity; apply lookup_singleton_ne; congruence. }
  apply String.eqb_neq in Eo.
  destruct (loadExistingOverrides existing) as [[| | | | |]|];
    rewrite ?lookup_insert_ne by congruence; apply lookup_singleton_ne; congruence.
Qed.

Lemma files_not_control (k : string) :
  k ∈ files -> k <> "sources"%string /\ k <> "_overrides"%string.
Proof.
  intros H. apply files_dat_gz in H. split; intros ->; discriminate H.
Qed.

Lemma release_base_nonempty : GH_RELEASE_BASE penv <> ""%string.
Proof. unfold GH_RELEASE_BASE. intros E. discriminate E. Qed.

Lemma script_manifest_spec (m : Json) :
  main digest localeSort penv dir existing = Ok m ->
  loadExistingOverrides existing = None \/ loadExistingOverrides existing = Some JNull ->
  isValidManifest m = true
  /\ (forall name, name ∈ namesOf m <-> name ∈ files)
  /\ sourceOf m (GH_RELEASE_BASE penv)
  /\ (forall name, name ∈ files -> verified digest (prop m name) (readFile dir name)).
Proof.
  intros Hmain Hov. destruct (main_spec m Hmain) as (fields & -> & Hne & Hl).
  assert (Hl' : forall k, fields !! k =
                  if decide (k ∈ files) then Some (entry k)
                  else if String.eqb k "sources"
                       then Some (JArr [JStr (GH_RELEASE_BASE penv)]) else None).
  { intros k. rewrite Hl. destruct (decide (k ∈ files)); [reflexivity|].
    destruct (String.eqb k "sources"); [reflexivity|].
    destruct (String.eqb k "_overrides"); [|reflexivity].
    destruct Hov as [-> | ->]; reflexivity. }
  split; [|split; [|split]].
  - apply isValidManifest_obj. intros k v. rewrite Hl'.
    destruct (decide (k ∈ files)); [intros [= <-]; right; apply entry_ok|].
    destruct (String.eqb k "sources") eqn:E; [|discriminate].
    intros _. left. apply String.eqb_eq. exact E.
  - intros name. rewrite namesOf_elem, Hl'. split.
    + intros [Hs [v Hv]]. destruct (decide (name ∈ files)); [assumption|].
      apply String.eqb_neq in Hs. rewrite Hs in Hv. discriminate.
    + intros Hin. rewrite decide_True by exact Hin.
      split; [apply (files_not_control name Hin)|eauto].
  - exists fields, [JStr (GH_RELEASE_BASE penv)]. split; [reflexivity|]. split.
    + rewrite Hl'. destruct (decide ("sources"%string ∈ files)) as [Hin|_]; [|reflexivity].
      destruct (files_not_control _ Hin) as [H _]. contradiction.
    + split; [left|apply release_base_nonempty].
  - intros name Hin. simpl. rewrite Hl', decide_True by exact Hin. apply entry_verified.
Qed.

(** A manifest that the script makes without overrides is one the
    installer accepts; it names the [.dat.gz] files of the directory and
    one source. With those files copied into the dictionary folder, the
    installer reads each of them, asks the network for nothing and writes
    nothing. *)
Theorem script_manifest_installs_quietly (m : Json) (env : Env)
    (configDir : option string) (pluginId : string) (tr : list Effect) :
  main digest localeSort penv dir existing = Ok m ->
  loadExistingOverrides existing = None \/ loadExistingOverrides existing = Some JNull ->
  (forall t name, name ∈ files ->
     readAns env t (relOf configDir pluginId name) = Some (readFile dir name)) ->
  isValidManifest m = true
  /\ (forall name, name ∈ namesOf m <-> name ∈ files)
  /\ sourceOf m (GH_RELEASE_BASE penv)
  /\ exists added,
       fst (ensureDictInstalled digest env configDir pluginId m tr) = tr ++ added
       /\ Forall quiet added.
Proof.
  intros Hmain Hov Hread.
  destruct (script_manifest_spec m Hmain Hov) as (Hvalid & Hnames & Hsrc & Hver).
  split; [exact Hvalid|]. split; [exact Hnames|]. split; [exact Hsrc|].
  destruct (quiet_spec digest env configDir pluginId m) with (tr := tr)
    as (added & E & Hq & _).
  - intros t n Hn. apply Hnames in Hn. exists (readFile dir n).
    split; [apply Hread; exact Hn|apply Hver; exact Hn].
  - exists added. auto.
Qed.

(** Overrides that the script keeps in the manifest make the installer
    reject it, unless they look like the entry of a file: the installer
    then does nothing at all, whatever is missing in the vault. *)
Theorem kept_overrides_block_installer (m o : Json) (env : Env)
    (configDir : option string) (pluginId : string) (tr : list Effect) :
  main digest localeSort penv dir existing = Ok m ->
  loadExistingOverrides existing = Some o ->
  entryOk o = false ->
  isValidManifest m = false
  /\ ensureDictInstalled digest env configDir pluginId m tr = (tr, Done tt).
Proof.
  intros Hmain Hov Hbad. destruct (main_spec m Hmain) as (fields & -> & Hne & Hl).
  assert (Hinv : isValidManifest (JObj fields) = false).
  { destruct (isValidManifest (JObj fields)) eqn:E; [|reflexivity].
    rewrite isValidManifest_obj in E.
    destruct (E "_overrides"%string o) as [H|H]; [|discriminate H|congruence].
    rewrite Hl. destruct (decide ("_overrides"%string ∈ files)) as [Hin|_].
    { destruct (files_not_control _ Hin) as [_ H]. contradiction. }
    simpl. rewrite Hov. destruct o; try discriminate Hbad; reflexivity. }
  split; [exact Hinv|]. unfold ensureDictInstalled. rewrite Hinv. reflexivity.
Qed.

End Script.

End ScriptFacts.

(** ** The installer, the script and the initializer on the examples *)

Module InstallScenarios.

Import Vault DictInstaller InstallProps ManifestScript KuromojiInit InstallExamples.

Lemma sumDigest_bytes (buf : list Z) : Forall (fun b => 0 <= b < 256) (sumDigest buf).
Proof. unfold sumDigest. repeat constructor; apply Z.mod_pos_bound; lia. Qed.

Lemma digest_text_faithful_witness :
  String.length (DictInstaller.sha256Hex sumDigest gzBytes) = (2 * length (sumDigest gzBytes))%nat
  /\ isLowerHex (DictInstaller.sha256Hex sumDigest gzBytes) = true
  /\ (DictInstaller.sha256Hex sumDigest gzBytes = DictInstaller.sha256Hex sumDigest [8; 139; 31]
      <-> sumDigest gzBytes = sumDigest [8; 139; 31]).
Proof. apply (HexFacts.digest_text_faithful sumDigest gzBytes [8; 139; 31] sumDigest_bytes). Defined.

(** The installer on an empty vault: the first request is rejected, the
    second, after the pause, is answered, and the file is written. *)
Lemma flaky_run :
  ensureDictInstalled sumDigest flakyEnv None "auto-furigana" oneFileManifest []
  = ([ ExistsAt ".obsidian/plugins/auto-furigana/dict";
       Mkdir ".obsidian/plugins/auto-furigana/dict";
       ReadBinary ".obsidian/plugins/auto-furigana/dict/base.dat.gz";
       RequestUrl "https://example.org/dict/base.dat.gz";
       Sleep 800;
       RequestUrl "https://example.org/dict/base.dat.gz";
       WriteBinary ".obsidian/plugins/auto-furigana/dict/base.dat.gz" gzBytes ],
     Done tt).
Proof. vm_compute. reflexivity. Qed.

Lemma installed_after_return_witness :
  exists buf,
    fileAt emptyVault
      (fst (ensureDictInstalled sumDigest flakyEnv None "auto-furigana" oneFileManifest []))
      (relOf None "auto-furigana" "base.dat.gz") = Some buf
    /\ verified sumDigest (prop oneFileManifest "base.dat.gz") buf.
Proof.
  apply (VaultFacts.installed_after_return sumDigest flakyEnv None "auto-furigana"
           oneFileManifest emptyVault []
           (fst (ensureDictInstalled sumDigest flakyEnv None "auto-furigana"
                   oneFileManifest []))).
  - intros t p. reflexivity.
  - vm_compute. reflexivity.
  - exists "https://example.org/dict"%string.
    eexists _, [JStr "https://example.org/dict"]. split; [reflexivity|].
    split; [vm_compute; reflexivity|]. split; [left|discriminate].
  - vm_compute. reflexivity.
  - apply list_elem_of_In. vm_compute. left. reflexivity.
Defined.

Lemma filled_valid (t : list Effect) (n : string) :
  n ∈ namesOf oneFileManifest ->
  exists buf, readAns filledEnv t (relOf None "auto-furigana" n) = Some buf
    /\ verified sumDigest (prop oneFileManifest n) buf.
Proof.
  intros Hn. apply list_elem_of_In in Hn. vm_compute in Hn. destruct Hn as [<- | []].
  exists gzBytes. split; [reflexivity|]. eexists. split; [vm_compute; reflexivity|].
  split; vm_compute; reflexivity.
Qed.

Lemma quiet_when_valid_witness :
  ensureDictInstalled sumDigest filledEnv None "auto-furigana" oneFileManifest []
  = ([] ++ ExistsAt (dictDir None "auto-furigana")
        :: map (fun n => ReadBinary (relOf None "auto-furigana" n)) (namesOf oneFileManifest),
     Done tt).
Proof.
  apply (VaultFacts.quiet_when_valid sumDigest filledEnv None "auto-furigana"
           oneFileManifest [] filled_valid).
  vm_compute. reflexivity.
Defined.

Lemma mistyped_digest_never_written_witness :
  exists added,
    fst (ensureDictInstalled sumDigest flakyEnv None "auto-furigana" upperCaseManifest [])
    = [] ++ added
    /\ forall data, WriteBinary (relOf None "auto-furigana" "base.dat.gz") data ∉ added.
Proof.
  eapply (VaultFacts.mistyped_digest_never_written sumDigest flakyEnv None "auto-furigana"
            upperCaseManifest "base.dat.gz" "03B2" _ [] sumDigest_bytes).
  - vm_compute. reflexivity.
  - vm_compute. reflexivity.
  - vm_compute. reflexivity.
Defined.

(** With the digest in upper case the file is fetched and thrown away. *)
Lemma upper_case_run :
  ensureDictInstalled sumDigest flakyEnv None "auto-furigana" upperCaseManifest []
  = ([ ExistsAt ".obsidian/plugins/auto-furigana/dict";
       Mkdir ".obsidian/plugins/auto-furigana/dict";
       ReadBinary ".obsidian/plugins/auto-furigana/dict/base.dat.gz";
       RequestUrl "https://example.org/dict/base.dat.gz";
       Sleep 800;
       RequestUrl "https://example.org/dict/base.dat.gz" ],
     Raised (ChecksumMismatch "base.dat.gz")).
Proof. vm_compute. reflexivity. Qed.

Lemma sorted_perm (l : list string) : merge_sort String.le l ≡ₚ l.
Proof. apply merge_sort_Permutation. Qed.

Lemma script_run :
  main sumDigest (merge_sort String.le) defaultEnv dictDirectory None
  = Ok (JObj (<["sources"%string :=
                  JArr [JStr "https://github.com/veschw/obsidian-auto-furigana/releases/download/kuromoji_dicts_0.1.2"]]>
                (<["base.dat.gz"%string :=
                     JObj (<["sha256"%string := JStr "03b2"]>
                             (<["bytes"%string := JNum 3]> ∅))]> ∅))).
Proof. vm_compute. reflexivity. Qed.

Lemma script_manifest_installs_quietly_witness :
  isValidManifest
    (JObj (<["sources"%string :=
               JArr [JStr "https://github.com/veschw/obsidian-auto-furigana/releases/download/kuromoji_dicts_0.1.2"]]>
             (<["base.dat.gz"%string :=
                  JObj (<["sha256"%string := JStr "03b2"]>
                          (<["bytes"%string := JNum 3]> ∅))]> ∅))) = true.
Proof.
  eapply proj1.
  apply (ScriptFacts.script_manifest_installs_quietly sumDigest (merge_sort String.le)
           sorted_perm defaultEnv dictDirectory None _ filledEnv None "auto-furigana" []
           script_run).
  - left. reflexivity.
  - intros t name Hn. apply list_elem_of_In in Hn. vm_compute in Hn.
    destruct Hn as [<- | []]. reflexivity.
Defined.

Lemma script_run_overrides :
  main sumDigest (merge_sort String.le) defaultEnv dictDirectory (Some manifestWithOverrides)
  = Ok (JObj (<["sources"%string :=
                  JArr [JStr "https://github.com/veschw/obsidian-auto-furigana/releases/download/kuromoji_dicts_0.1.2"]]>
                (<["_overrides"%string := mirrorOverrides]>
                   (<["base.dat.gz"%string :=
                        JObj (<["sha256"%string := JStr "03b2"]>
                                (<["bytes"%string := JNum 3]> ∅))]> ∅)))).
Proof. vm_compute. reflexivity. Qed.

Lemma kept_overrides_block_installer_witness :
  ensureDictInstalled sumDigest flakyEnv None "auto-furigana"
    (JObj (<["sources"%string :=
               JArr [JStr "https://github.com/veschw/obsidian-auto-furigana/releases/download/kuromoji_dicts_0.1.2"]]>
             (<["_overrides"%string := mirrorOverrides]>
                (<["base.dat.gz"%string :=
                     JObj (<["sha256"%string := JStr "03b2"]>
                             (<["bytes"%string := JNum 3]> ∅))]> ∅)))) []
  = ([], Done tt).
Proof.
  eapply proj2.
  apply (ScriptFacts.kept_overrides_block_installer sumDigest (merge_sort String.le)
           sorted_perm defaultEnv dictDirectory (Some manifestWithOverrides) _ mirrorOverrides
           flakyEnv None "auto-furigana" [] script_run_overrides).
  - reflexivity.
  - vm_compute. reflexivity.
Defined.

End InstallScenarios.
